(** * The Cache Monitor of evm-cache (src/monitor/CacheMonitor.js)

    A shallow embedding of [CacheMonitor]: the cursor loop [mainLoop], the
    block fetcher and reconciler [getBlock], the persister
    [storeBlockAssocData] with [addOmmers] and [getTransaction], and
    [flushBlock].

    Conventions of the embedding.
    - Heights and the review counter are JavaScript numbers holding
      integers; they are modelled in [Z] (exact below 2^53), and
      [parseInt(x, 10)] of such a number is the number itself.
    - [String(err)] is modelled as an ASCII [string]; [toUpperCase] acts on
      the letters a-z.
    - Every effect the code performs on a collaborator (node client,
      database session, logger, timer, process) is recorded as an [Event],
      in program order.  A call of [this.mainLoop(k)] is recorded as
      [EvMainLoop k]: the loop is studied one iteration at a time.  A log
      line is recorded by its level and its fixed text, without the values
      interpolated into it.
    - Asynchronous code: a call of an async function runs at once up to
      its first [await]; what follows an [await] is resumed when the reply
      arrives.  Where the code awaits one reply at a time it is run
      through.  The tasks of a persist (lines 289-297) wait side by side:
      they are resumed one [await] at a time, in the order given by the
      monitor's [arrival], which may be any order.  The session executes
      the statements in the order in which they are sent, so a statement
      takes effect when it is sent; its reply is read when the sender is
      resumed. *)

From Stdlib Require Import ZArith List String Ascii Bool Lia Permutation.
Import ListNotations.

Open Scope string_scope.
Open Scope Z_scope.
Open Scope list_scope.

(** ** Strings: [indexOf] and [toUpperCase] *)

Module JsString.

(** [s.indexOf(pat)], counting from [i]: the position of the first
    occurrence, [-1] when there is none. *)
Fixpoint indexOf_from (pat s : string) (i : Z) : Z :=
  if String.prefix pat s then i
  else match s with
       | EmptyString => -1
       | String _ s' => indexOf_from pat s' (i + 1)
       end.

Definition indexOf (s pat : string) : Z := indexOf_from pat s 0.

Definition upper_ascii (c : ascii) : ascii :=
  let n := nat_of_ascii c in
  if (Nat.leb 97 n && Nat.leb n 122)%bool then ascii_of_nat (n - 32) else c.

Fixpoint toUpperCase (s : string) : string :=
  match s with
  | EmptyString => EmptyString
  | String c s' => String (upper_ascii c) (toUpperCase s')
  end.

(** What "the message contains [pat]" means. *)
Definition contains (s pat : string) : Prop :=
  exists a b : string, s = (a ++ pat ++ b)%string.

(** What "the message contains [pat], letter case ignored" means. *)
Definition contains_ci (s pat : string) : Prop :=
  exists a m b : string,
    s = (a ++ m ++ b)%string /\ toUpperCase m = toUpperCase pat.

End JsString.
Import JsString.

(** The test of lines 149-152 on [String(err)]. *)
Definition isTransient (err : string) : bool :=
  negb (indexOf err "Invalid JSON RPC response" =? -1)
  || negb (indexOf (toUpperCase err) "CONNECTION TIMEOUT" =? -1).

(** ** Data of the node client *)

Definition Hash := string.

(** A transaction object of [block.transactions], with the fields that
    [getTransaction] reads. *)
Record Transaction := mkTransaction {
  tx_hash : Hash;
  tx_nonce : Z;
  tx_transactionIndex : Z;
  tx_from : string;
  tx_to : string;
  tx_value : string;
  tx_gasPrice : string;
  tx_gas : Z;
  tx_input : string;
  tx_v : string;
  tx_r : string;
  tx_s : string
}.

Record Log := mkLog {
  log_blockNumber : Z;
  log_logIndex : Z;
  log_address : string;
  log_data : string;
  log_topics : list string
}.

(** A receipt; [rc_logs = None] stands for an absent [logs] field. *)
Record Receipt := mkReceipt {
  rc_status : option bool;
  rc_contractAddress : option string;
  rc_logs : option (list Log)
}.

(** The header fields that [addBlock] receives besides number and hash. *)
Record Header := mkHeader {
  parentHash : Hash;
  nonce : string;
  gasLimit : Z;
  gasUsed : Z;
  timestamp : Z;
  sha3Uncles : Hash;
  logsBloom : string;
  transactionsRoot : Hash;
  receiptsRoot : Hash;
  stateRoot : Hash;
  mixHash : Hash;
  miner : string;
  difficulty : string;
  extraData : string;
  size : Z
}.

(** A block; [uncles = None] stands for an absent [uncles] field. *)
Record Block := mkBlock {
  number : Z;
  hash : Hash;
  header : Header;
  transactions : list Transaction;
  uncles : option (list Hash)
}.

(** [x || null] on an optional boolean and on an optional string. *)
Definition status_or_null (s : option bool) : option bool :=
  match s with Some true => Some true | _ => None end.

Definition string_or_null (s : option string) : option string :=
  match s with
  | Some EmptyString => None
  | other => other
  end.

(** What the node answers to [getTransactionReceipt]. *)
Inductive ReceiptReply :=
| ReceiptRejects (e : string)
| ReceiptResolves (r : option Receipt).

(** ** Data of the database driver *)

(** The queries of BlockQueries.js and TransactionQueries.js that the
    monitor builds, with the arguments it passes. *)
Inductive Query :=
| getBlockByHash (blockchain_id : Z) (h : Hash)
| getBlockTransactionCount (blockchain_id : Z) (n : Z)
| addBlock (blockchain_id : Z) (n : Z) (h : Hash) (hd : Header)
| deleteBlock (blockchain_id : Z) (n : Z)
| deleteOmmers (blockchain_id : Z) (n : Z)
| addOmmer (blockchain_id : Z) (ommer nibling : Hash)
| deleteLogs (blockchain_id : Z) (n : Z)
| deleteTransactions (blockchain_id : Z) (n : Z)
| addTransaction (block_hash : Hash) (t : Transaction)
                 (status : option bool) (contractAddress : option string)
| deleteLogsByTransactionHash (h : Hash)
| addLog (transaction_hash : Hash) (blockNumber logIndex : Z)
         (address data : string) (topics : list string).

(** The two lookups; every other query writes. *)
Definition is_lookup (q : Query) : bool :=
  match q with
  | getBlockByHash _ _ | getBlockTransactionCount _ _ => true
  | _ => false
  end.

(** A result row.  [transaction_count] and [count] hold what
    [parseInt(field, 10)] gives, [None] standing for NaN. *)
Record Row := mkRow {
  transaction_count : option Z;
  count : option Z;
  log_id : Z
}.

Record QResult := mkQResult {
  rowCount : Z;
  rows : list Row
}.

(** What [Client.query] answers: a rejection, or a result that may be
    null. *)
Inductive Reply :=
| Rejects (e : string)
| Resolves (r : option QResult).

(** [!result || !result.rowCount] *)
Definition no_rows (result : option QResult) : bool :=
  match result with
  | None => true
  | Some r => rowCount r =? 0
  end.

(** What is sent on the session: the three transaction statements, sent as
    text, and the queries. *)
Inductive Stmt :=
| BEGIN
| COMMIT
| ROLLBACK
| Sql (q : Query).

(** ** Callback bags *)

(** The three bags of handlers that the source passes to [getBlock]: the
    object literal of [mainLoop] (lines 92-139), the default [{}] (line
    105), and the literal of the short review (lines 116-120). *)
Inductive Callbacks :=
| cursor_callbacks
| no_callbacks
| review_callbacks.

Inductive CallbackName :=
| atBlockchainHead
| blockAlreadyExists
| moveToNextBlock
| foundDuringReviewBlock.

Definition hasOwnProperty (c : Callbacks) (k : CallbackName) : bool :=
  match c, k with
  | cursor_callbacks, atBlockchainHead => true
  | cursor_callbacks, blockAlreadyExists => true
  | cursor_callbacks, moveToNextBlock => true
  | review_callbacks, foundDuringReviewBlock => true
  | _, _ => false
  end.

(** ** Effects *)

Inductive Level := Info | Error.

(** What the event loop resumes next while a persist is under way: the
    pending task at place [i], or the handler of the persist, which waits
    for the reply to ROLLBACK and then for its timer. *)
Inductive Turn :=
| TaskTurn (i : nat)
| HandlerTurn.

Inductive Event :=
| EvGetBlock (n : Z) (callbacks : Callbacks)
| EvGetTransactionReceipt (h : Hash)
| EvCycleNodes
| EvQuery (s : Stmt)
| EvSetDecodedLog (id : Z) (l : Log)
| EvRelease
| EvLog (lvl : Level) (msg : string)
| EvSleep (ms : Z)
| EvMainLoop (n : Z)
| EvUnhandledRejection (e : string).

(** How a piece of code ends: it returns, the process exits, or it throws
    (an async function rejects). *)
Inductive Outcome (A : Type) :=
| Returned (a : A)
| Exited (code : Z)
| Rejected (e : string).

Arguments Returned {A} a.
Arguments Exited {A} code.
Arguments Rejected {A} e.

Definition TypeError : string := "TypeError".

(** ** The collaborators and the options of a monitor

    [options.blockchain_id] and [options.endBlockOverride] of the
    constructor, the node client's [getTransactionReceipt], the contract
    controller's [setDecodedLog], and the execution of a query by the
    database, none of which is defined in CacheMonitor.js: the monitor is
    studied for every choice of them.  [setDecodedLog] answers [Some e]
    when it rejects with [e]; so does [transaction_reply], the driver's
    answer to BEGIN, COMMIT and ROLLBACK.  [arrival] is the order in
    which the replies awaited by the tasks of a persist arrive: each turn
    resumes one of them; a turn that names nothing pending is passed
    over, and once the list is used up the handler goes first and the
    pending tasks follow one after the other. *)
Class Monitor (DB : Type) := {
  blockchain_id : Z;
  endBlockOverride : option Z;
  exec : Query -> DB -> DB * Reply;
  getTransactionReceipt : Hash -> ReceiptReply;
  setDecodedLog : Z -> Log -> DB -> DB * option string;
  transaction_reply : Stmt -> DB -> option string;
  arrival : list Turn
}.

(** Modelled from the spec: the session-scoped transactions of the database
    driver (Database.js and the server are not in the sources).  [live] is
    what the session sees, [snapshot] what [live] was at the [BEGIN] of the
    open transaction. *)
Record Session (DB : Type) := mkSession {
  live : DB;
  snapshot : option DB
}.

Arguments mkSession {DB} live snapshot.
Arguments live {DB} s.
Arguments snapshot {DB} s.

Definition run_begin {DB} (s : Session DB) : Session DB :=
  match snapshot s with
  | None => mkSession (live s) (Some (live s))
  | Some _ => s
  end.

Definition run_commit {DB} (s : Session DB) : Session DB :=
  mkSession (live s) None.

Definition run_rollback {DB} (s : Session DB) : Session DB :=
  match snapshot s with
  | None => s
  | Some d => mkSession d None
  end.

(** The mutable state: the session [this.Client] and the field
    [this.comprehensiveReviewCounter]. *)
Record State (DB : Type) := mkState {
  session : Session DB;
  comprehensiveReviewCounter : Z
}.

Arguments mkState {DB} session comprehensiveReviewCounter.
Arguments session {DB} s.
Arguments comprehensiveReviewCounter {DB} s.

Definition reviewBlockLimit : Z := 15.
Definition comprehensiveReviewBlockLimit : Z := 100.
Definition comprehensiveReviewCountMod : Z := 250.

(** ** The monad of the embedding: state, events written, early end *)

Definition M (DB A : Type) : Type :=
  State DB -> Outcome A * State DB * list Event.

(** An async function under way: it has returned, or it waits at an
    [await], with the code that runs when the reply arrives; that code
    runs up to the next [await] or to the end of the function. *)
#[warnings="-register-all"]
Inductive Task (DB : Type) : Type :=
| Settled
| Awaiting (resume : M DB (Task DB)).

Arguments Settled {DB}.
Arguments Awaiting {DB} resume.

(** How [Promise.all] settles: every promise has resolved, or one has
    rejected with [error] while the tasks [pending] are still under way;
    [schedule] is what is left of the order of arrival. *)
Inductive Settlement (DB : Type) : Type :=
| Fulfilled
| FirstRejection (error : string) (schedule : list Turn)
                 (pending : list (M DB (Task DB))).

Arguments Fulfilled {DB}.
Arguments FirstRejection {DB} error schedule pending.

Section Monad.

Context {DB : Type}.

Definition ret {A} (a : A) : M DB A := fun s => (Returned a, s, []).

Definition bind {A B} (m : M DB A) (k : A -> M DB B) : M DB B :=
  fun s =>
    match m s with
    | (Returned a, s1, ev1) =>
        match k a s1 with
        | (o, s2, ev2) => (o, s2, ev1 ++ ev2)
        end
    | (Exited c, s1, ev1) => (Exited c, s1, ev1)
    | (Rejected e, s1, ev1) => (Rejected e, s1, ev1)
    end.

Definition emit (e : Event) : M DB unit := fun s => (Returned tt, s, [e]).

(** [process.exit(code)] *)
Definition exit {A} (code : Z) : M DB A := fun s => (Exited code, s, []).

Definition throw {A} (e : string) : M DB A := fun s => (Rejected e, s, []).

(** [m.catch(handler)], and [try { m } catch (e) { handler }]. *)
Definition catch {A} (m : M DB A) (handler : string -> M DB A) : M DB A :=
  fun s =>
    match m s with
    | (Rejected e, s1, ev1) =>
        match handler e s1 with
        | (o, s2, ev2) => (o, s2, ev1 ++ ev2)
        end
    | other => other
    end.

(** An async call that nobody awaits: a rejection stays unhandled and what
    follows still runs. *)
Definition detached {A} (m : M DB A) (otherwise : A) : M DB A :=
  fun s =>
    match m s with
    | (Rejected e, s1, ev1) =>
        (Returned otherwise, s1, ev1 ++ [EvUnhandledRejection e])
    | other => other
    end.

Definition log (lvl : Level) (msg : string) : M DB unit :=
  emit (EvLog lvl msg).

Definition sleep (ms : Z) : M DB unit := emit (EvSleep ms).

(** [++this.comprehensiveReviewCounter] *)
Definition increment_counter : M DB Z :=
  fun s =>
    let c := comprehensiveReviewCounter s + 1 in
    (Returned c, mkState (session s) c, []).

(** [await]: the rest of the function waits for a reply. *)
Definition await (resume : M DB (Task DB)) : M DB (Task DB) :=
  ret (Awaiting resume).

(** A task run from where it waits to its end, nothing else being resumed
    in between. *)
Fixpoint finish (t : Task DB) : M DB unit :=
  match t with
  | Settled => ret tt
  | Awaiting resume => bind resume finish
  end.

(** How a promise settles: the value it resolves to, or the error it
    rejects with. *)
Definition settles {A} (m : M DB A) : M DB (A + string) :=
  fun s =>
    match m s with
    | (Returned a, s1, ev1) => (Returned (inl a), s1, ev1)
    | (Exited c, s1, ev1) => (Exited c, s1, ev1)
    | (Rejected e, s1, ev1) => (Returned (inr e), s1, ev1)
    end.

(** The state once the database has become [d]. *)
Definition set_live (s : State DB) (d : DB) : State DB :=
  mkState (mkSession d (snapshot (session s))) (comprehensiveReviewCounter s).

(** [this.Client.release()] *)
Definition release : M DB unit := emit EvRelease.

End Monad.

Notation "x <- m ;; k" := (bind m (fun x => k))
  (at level 61, m at next level, right associativity).
Notation "m ;; k" := (bind m (fun _ => k))
  (at level 61, right associativity).

(** ** Tasks that wait side by side *)

Section Tasks.

Context {DB : Type}.

(** The pool of pending tasks without the one at place [i]. *)
Definition without {A} (i : nat) (pool : list A) : list A :=
  firstn i pool ++ skipn (S i) pool.

(** The pool once the task at place [i] has been resumed and has become
    [t]: it keeps its place while it waits, and leaves the pool when it
    has returned. *)
Definition after_turn (i : nat) (t : Task DB) (pool : list (M DB (Task DB)))
  : list (M DB (Task DB)) :=
  match t with
  | Settled => without i pool
  | Awaiting resume => firstn i pool ++ resume :: skipn (S i) pool
  end.

(** The pending tasks, each run to its end, one after the other, up to
    the first that rejects. *)
Fixpoint in_order (pool : list (M DB (Task DB))) : M DB (Settlement DB) :=
  match pool with
  | [] => ret Fulfilled
  | resume :: rest =>
      r <- settles (finish (Awaiting resume)) ;;
      match r with
      | inl _ => in_order rest
      | inr e => ret (FirstRejection e [] rest)
      end
  end.

(** [Promise.all(promises)], line 297: the pending tasks are resumed as
    their replies arrive; the whole resolves when each has returned, and
    rejects as soon as one rejects, the others being left as they are. *)
Fixpoint Promise_all (schedule : list Turn) (pool : list (M DB (Task DB)))
  : M DB (Settlement DB) :=
  match schedule with
  | [] => in_order pool
  | HandlerTurn :: schedule' => Promise_all schedule' pool
  | TaskTurn i :: schedule' =>
      match nth_error pool i with
      | None => Promise_all schedule' pool
      | Some resume =>
          r <- settles resume ;;
          match r with
          | inl t => Promise_all schedule' (after_turn i t pool)
          | inr e => ret (FirstRejection e schedule' (without i pool))
          end
      end
  end.

(** The tasks that outlive the rejection of [Promise.all]: nothing
    cancels them, and nothing hears of their rejections any more.  They
    are resumed as their replies arrive, until the turn of the handler
    comes; the answer is what is left of the schedule and of the pool. *)
Fixpoint meanwhile (schedule : list Turn) (pending : list (M DB (Task DB)))
  : M DB (list Turn * list (M DB (Task DB))) :=
  match schedule with
  | [] => ret ([], pending)
  | HandlerTurn :: schedule' => ret (schedule', pending)
  | TaskTurn i :: schedule' =>
      match nth_error pending i with
      | None => meanwhile schedule' pending
      | Some resume =>
          r <- settles resume ;;
          meanwhile schedule'
                    match r with
                    | inl t => after_turn i t pending
                    | inr _ => without i pending
                    end
      end
  end.

(** The pending tasks, each run to its end, one after the other, their
    rejections unheard. *)
Fixpoint finish_all (pool : list (M DB (Task DB))) : M DB unit :=
  match pool with
  | [] => ret tt
  | resume :: rest =>
      _ <- settles (finish (Awaiting resume)) ;; finish_all rest
  end.

(** The same tasks once no handler is left to wait for: they are resumed
    as their replies arrive, and each runs to its end. *)
Fixpoint run_out (schedule : list Turn) (pending : list (M DB (Task DB)))
  : M DB unit :=
  match schedule with
  | [] => finish_all pending
  | HandlerTurn :: schedule' => run_out schedule' pending
  | TaskTurn i :: schedule' =>
      match nth_error pending i with
      | None => run_out schedule' pending
      | Some resume =>
          r <- settles resume ;;
          run_out schedule'
                  match r with
                  | inl t => after_turn i t pending
                  | inr _ => without i pending
                  end
      end
  end.

End Tasks.

(** ** The monitor *)

Section Program.

Context {DB : Type} {monitor : Monitor DB}.

(** [this.Client.query(q)], keeping the reply as it comes. *)
Definition query_reply (q : Query) : M DB Reply :=
  fun s =>
    match exec q (live (session s)) with
    | (d, r) =>
        (Returned r, set_live s d, [EvQuery (Sql q)])
    end.

(** [await this.Client.query(q)] *)
Definition query (q : Query) : M DB (option QResult) :=
  r <- query_reply q ;;
  match r with
  | Rejects e => throw e
  | Resolves res => ret res
  end.

(** [this.Client.query('BEGIN;')] and its two siblings, keeping the
    reply.  Modelled from the spec: a statement that the driver rejects
    leaves the session as it was. *)
Definition control_reply (st : Stmt) : M DB (option string) :=
  fun s =>
    let run := match st with
               | BEGIN => run_begin
               | COMMIT => run_commit
               | ROLLBACK => run_rollback
               | Sql _ => fun x => x
               end in
    match transaction_reply st (live (session s)) with
    | Some e => (Returned (Some e), s, [EvQuery st])
    | None =>
        (Returned None,
         mkState (run (session s)) (comprehensiveReviewCounter s),
         [EvQuery st])
    end.

(** [await this.Client.query('BEGIN;')] *)
Definition control (st : Stmt) : M DB unit :=
  reply <- control_reply st ;;
  match reply with
  | Some e => throw e
  | None => ret tt
  end.

(** The reply to a query, read by the task that awaited it. *)
Definition settle (reply : Reply) : M DB (option QResult) :=
  match reply with
  | Rejects e => throw e
  | Resolves res => ret res
  end.

(** [res.rows[0].field]: a TypeError when there is no first row. *)
Definition first_row (res : QResult) : M DB Row :=
  match rows res with
  | [] => throw TypeError
  | r0 :: _ => ret r0
  end.

(** [length === parseInt(field, 10)] *)
Definition same_count (length : nat) (field : option Z) : bool :=
  match field with
  | Some z => Z.of_nat length =? z
  | None => false
  end.

(** [for (let p = lo; p < hi; p++) body(p)]; the loop makes [hi - lo]
    rounds, which is the fuel given. *)
Fixpoint for_upto (fuel : nat) (p hi : Z) (body : Z -> M DB unit) : M DB unit :=
  match fuel with
  | O => ret tt
  | S fuel' =>
      if p <? hi then body p ;; for_upto fuel' (p + 1) hi body else ret tt
  end.

Definition for_range (lo hi : Z) (body : Z -> M DB unit) : M DB unit :=
  for_upto (Z.to_nat (hi - lo)) lo hi body.

(** [this.mainLoop(k)], recorded. *)
Definition call_mainLoop (k : Z) : M DB unit := emit (EvMainLoop k).

(** [getBlock(block_number, callbacks)] up to the request it sends (lines
    142-146); the callback it registers is [getBlock_callback]. *)
Definition getBlock (block_number : Z) (callbacks : Callbacks) : M DB unit :=
  emit (EvGetBlock block_number callbacks).

(** [mainLoop], lines 86-92. *)
Definition mainLoop (block_number : Z) : M DB unit :=
  match endBlockOverride with
  | Some e =>
      if block_number >=? e
      then log Info "Reached endBlockOverride:" ;; exit 0
      else getBlock block_number cursor_callbacks
  | None => getBlock block_number cursor_callbacks
  end.

(** The handler ['atBlockchainHead'] of [mainLoop], lines 93-129. *)
Definition atBlockchainHead_handler (block_number : Z) : M DB unit :=
  c <- increment_counter ;;
  (if Z.rem c comprehensiveReviewCountMod =? 0 then
     log Info "Performing a comprehensive review of the last blocks." ;;
     for_range (block_number - comprehensiveReviewBlockLimit) (block_number - 1)
               (fun prior_block_number => getBlock prior_block_number no_callbacks) ;;
     sleep 15000
   else
     for_range (block_number - reviewBlockLimit) (block_number - 1)
               (fun prior_block_number => getBlock prior_block_number review_callbacks) ;;
     sleep 2500) ;;
  call_mainLoop block_number.

(** The handler ['blockAlreadyExists'], lines 130-134. *)
Definition blockAlreadyExists_handler (block_number : Z) (block_hash : Hash)
  : M DB unit :=
  log Info "Block with hash found, skipping." ;;
  call_mainLoop (block_number + 1).

(** The handler ['moveToNextBlock'], lines 135-138. *)
Definition moveToNextBlock_handler (block_number : Z) : M DB unit :=
  call_mainLoop (block_number + 1).

(** The handler ['foundDuringReviewBlock'], lines 117-119. *)
Definition foundDuringReviewBlock_handler (block_number : Z) (block_hash : Hash)
  : M DB unit :=
  log Info "* Found new previous block at number".

(** [flushBlock], lines 54-84. *)
Definition flushBlock (block_number : Z) : M DB unit :=
  log Info "Flushing" ;;
  _ <- query (deleteLogs blockchain_id block_number) ;;
  log Info "Logs deleted, cascading to events and related tables" ;;
  _ <- query (deleteTransactions blockchain_id block_number) ;;
  log Info "Transactions deleted" ;;
  _ <- query (deleteOmmers blockchain_id block_number) ;;
  log Info "Ommers deleted" ;;
  _ <- query (deleteBlock blockchain_id block_number) ;;
  log Info "Completed flushing".

(** [addOmmers], lines 334-348: every query is sent before any reply is
    looked at; the answer is the first rejection, if any. *)
Fixpoint addOmmers (nibling_block_hash : Hash) (ommers : list Hash)
  : M DB (option string) :=
  match ommers with
  | [] => ret None
  | o :: rest =>
      r <- query_reply (addOmmer blockchain_id o nibling_block_hash) ;;
      others <- addOmmers nibling_block_hash rest ;;
      ret match r with
          | Rejects e => Some e
          | Resolves _ => others
          end
  end.

(** [await this.cc.setDecodedLog(this.Client, log_id, log)] *)
Definition decode_log (id : Z) (l : Log) : M DB unit :=
  fun s =>
    match setDecodedLog id l (live (session s)) with
    | (d, r) =>
        (match r with Some e => Rejected e | None => Returned tt end,
         set_live s d, [EvSetDecodedLog id l])
    end.

(** The loop over [receipt.logs] of [getTransaction], lines 411-427. *)
Fixpoint addLogs (transaction : Transaction) (logs : list Log) : M DB unit :=
  match logs with
  | [] => ret tt
  | l :: rest =>
      logResult <- query (addLog (tx_hash transaction) (log_blockNumber l)
                                 (log_logIndex l) (log_address l) (log_data l)
                                 (log_topics l)) ;;
      match logResult with
      | Some res =>
          if rowCount res =? 0
          then log Error "** Could not store log" ;; addLogs transaction rest
          else r0 <- first_row res ;;
               decode_log (log_id r0) l ;;
               addLogs transaction rest
      | None => log Error "** Could not store log" ;; addLogs transaction rest
      end
  end.

(** [getTransaction], lines 350-428, from the moment the node has answered
    the receipt request. *)
Definition getTransaction (block_hash : Hash) (transaction : Transaction)
  : M DB unit :=
  match getTransactionReceipt (tx_hash transaction) with
  | ReceiptRejects e => throw e
  | ReceiptResolves None =>
      log Info "Transaction receipt not found for block. Dropping out to be re-inserted at a later iteration."
  | ReceiptResolves (Some receipt) =>
      result <- query (addTransaction block_hash transaction
                         (status_or_null (rc_status receipt))
                         (string_or_null (rc_contractAddress receipt))) ;;
      if no_rows result then
        release ;;
        log Error "No result returned for" ;;
        log Error "transaction" ;;
        log Error "^^ No result returned in block ^^" ;;
        exit 1
      else
        match rc_logs receipt with
        | None | Some [] => ret tt
        | Some logs =>
            _ <- query (deleteLogsByTransactionHash (tx_hash transaction)) ;;
            addLogs transaction logs
        end
  end.

(** [this.cc.setDecodedLog(this.Client, log_id, log)], called; its
    promise is awaited by the caller. *)
Definition decode_log_reply (id : Z) (l : Log) : M DB (option string) :=
  fun s =>
    match setDecodedLog id l (live (session s)) with
    | (d, r) => (Returned r, set_live s d, [EvSetDecodedLog id l])
    end.

(** The loop of lines 411-427 as the event loop runs it: [addLogs] cut at
    its two [await]s.  Each insert is sent, and the task waits; resumed, it
    reads the reply, calls the decoder, and waits again; resumed, it goes to
    the next log. *)
Fixpoint addLogs_task (transaction : Transaction) (logs : list Log)
  : M DB (Task DB) :=
  match logs with
  | [] => ret Settled
  | l :: rest =>
      reply <- query_reply (addLog (tx_hash transaction) (log_blockNumber l)
                                   (log_logIndex l) (log_address l) (log_data l)
                                   (log_topics l)) ;;
      await (logResult <- settle reply ;;
             match logResult with
             | Some res =>
                 if rowCount res =? 0
                 then log Error "** Could not store log" ;;
                      addLogs_task transaction rest
                 else r0 <- first_row res ;;
                      decoded <- decode_log_reply (log_id r0) l ;;
                      await match decoded with
                            | Some e => throw e
                            | None => addLogs_task transaction rest
                            end
             | None => log Error "** Could not store log" ;;
                       addLogs_task transaction rest
             end)
  end.

(** [getTransaction], lines 350-428, as the event loop runs it: the same
    code as [getTransaction], cut at each [await].  This is what runs when
    the node has answered the receipt request; it sends the insert of the
    transaction and waits. *)
Definition getTransaction_task (block_hash : Hash) (transaction : Transaction)
  : M DB (Task DB) :=
  match getTransactionReceipt (tx_hash transaction) with
  | ReceiptRejects e => throw e
  | ReceiptResolves None =>
      log Info "Transaction receipt not found for block. Dropping out to be re-inserted at a later iteration." ;;
      ret Settled
  | ReceiptResolves (Some receipt) =>
      reply <- query_reply (addTransaction block_hash transaction
                              (status_or_null (rc_status receipt))
                              (string_or_null (rc_contractAddress receipt))) ;;
      await (result <- settle reply ;;
             if no_rows result then
               release ;;
               log Error "No result returned for" ;;
               log Error "transaction" ;;
               log Error "^^ No result returned in block ^^" ;;
               exit 1
             else
               match rc_logs receipt with
               | None | Some [] => ret Settled
               | Some logs =>
                   reply' <- query_reply (deleteLogsByTransactionHash
                                            (tx_hash transaction)) ;;
                   await (_ <- settle reply' ;;
                          addLogs_task transaction logs)
               end)
  end.

(** The promise that [addOmmers] returns, awaited: [ommers] is the first
    rejection among the replies to its inserts, if any. *)
Definition addOmmers_task (ommers : option string) : M DB (Task DB) :=
  match ommers with
  | Some e => throw e
  | None => ret Settled
  end.

(** The loop of lines 293-295: each call of [getTransaction] runs up to its
    first [await], which sends the receipt request. *)
Fixpoint request_receipts (txs : list Transaction) : M DB unit :=
  match txs with
  | [] => ret tt
  | t :: rest =>
      emit (EvGetTransactionReceipt (tx_hash t)) ;; request_receipts rest
  end.

(** The [.catch] handler of [storeBlockAssocData] once it has sent its
    ROLLBACK, lines 308-329; [reply] is the reply to ROLLBACK.  The tasks
    that are [pending] are resumed as their replies arrive, in the order
    [schedule], while the handler waits: for that reply, then for its
    timer.  If ROLLBACK was rejected the handler rejects when it reads the
    reply; nothing catches that, and the pending tasks run on. *)
Definition after_rollback (reply : option string) (schedule : list Turn)
           (pending : list (M DB (Task DB))) : M DB unit :=
  rest <- meanwhile schedule pending ;;
  match reply with
  | Some e => run_out (fst rest) (snd rest) ;; throw e
  | None =>
      sleep 1000 ;;
      _ <- meanwhile (fst rest) (snd rest) ;;
      log Error "Promises failed for retrieving all block data" ;;
      log Error "Error:" ;;
      exit 1
  end.

(** The [.catch] handler of [storeBlockAssocData], lines 306-330.  It
    runs as soon as [Promise.all] or the [.then] handler rejects, and sends
    ROLLBACK at once. *)
Definition promises_failed (error : string) (schedule : list Turn)
           (pending : list (M DB (Task DB))) : M DB unit :=
  reply <- control_reply ROLLBACK ;;
  after_rollback reply schedule pending.

(** Lines 270-295 of [storeBlockAssocData]: the transaction is opened, the
    rows at the height are deleted, and the tasks are started: the inserts
    of the ommers and the receipt requests are sent.  The answer is the
    array [promises], each task waiting for its first reply. *)
Definition start_promises (block : Block) : M DB (list (M DB (Task DB))) :=
  control BEGIN ;;
  _ <- query (deleteLogs blockchain_id (number block)) ;;
  _ <- query (deleteTransactions blockchain_id (number block)) ;;
  ommers <- match uncles block with
            | Some (o :: os) =>
                first_rejection <- addOmmers (hash block) (o :: os) ;;
                ret [addOmmers_task first_rejection]
            | _ => ret []
            end ;;
  request_receipts (transactions block) ;;
  ret (ommers ++ map (getTransaction_task (hash block)) (transactions block)).

(** The [.then] handler of [storeBlockAssocData], lines 297-305. *)
Definition promises_done (callbacks : Callbacks) (block : Block) : M DB unit :=
  control COMMIT ;;
  if hasOwnProperty callbacks moveToNextBlock
  then moveToNextBlock_handler (number block)
  else ret tt.

(** [storeBlockAssocData], lines 268-331, a closure over the [callbacks]
    of the [getBlock] call it belongs to.  A rejection of the [.then]
    handler reaches the [.catch] handler like one of [Promise.all]; no
    task is pending then. *)
Definition storeBlockAssocData (callbacks : Callbacks) (block : Block)
  : M DB unit :=
  promises <- start_promises block ;;
  settlement <- Promise_all arrival promises ;;
  match settlement with
  | Fulfilled =>
      catch (promises_done callbacks block)
            (fun error => promises_failed error [] [])
  | FirstRejection error schedule pending =>
      promises_failed error schedule pending
  end.

(** Lines 194-210: the stored row agrees with the block on the number of
    transactions; the total at the height decides. *)
Definition getBlock_height_check (block_number : Z) (callbacks : Callbacks)
           (block : Block) : M DB unit :=
  numCheckRes <- query (getBlockTransactionCount blockchain_id block_number) ;;
  in_order <- match numCheckRes with
              | None => ret false
              | Some num =>
                  if rowCount num =? 0 then ret false
                  else r0 <- first_row num ;;
                       ret (same_count (List.length (transactions block)) (count r0))
              end ;;
  if in_order : bool then
    if hasOwnProperty callbacks blockAlreadyExists
    then blockAlreadyExists_handler block_number (hash block)
    else ret tt
  else
    _ <- match numCheckRes with
         | None => throw TypeError
         | Some num => first_row num
         end ;;
    log Info "At block, found stale transactions." ;;
    storeBlockAssocData callbacks block.

(** Lines 235-265: the block row is inserted, then the associated data. *)
Definition getBlock_save (callbacks : Callbacks) (block : Block) : M DB unit :=
  result <- query (addBlock blockchain_id (number block) (hash block)
                            (header block)) ;;
  if no_rows result then
    release ;;
    log Error "No result returned for" ;;
    log Error "block" ;;
    log Error "^^ No result returned ^^" ;;
    exit 1
  else storeBlockAssocData callbacks block.

(** Lines 187-265: what the callback does with a block. *)
Definition getBlock_reconcile (block_number : Z) (callbacks : Callbacks)
           (block : Block) : M DB unit :=
  checkRes <- query (getBlockByHash blockchain_id (hash block)) ;;
  if negb (no_rows checkRes) then
    r0 <- match checkRes with
          | None => throw TypeError
          | Some res => first_row res
          end ;;
    if same_count (List.length (transactions block)) (transaction_count r0) then
      getBlock_height_check block_number callbacks block
    else
      log Info "At a re-instated block, restoring data." ;;
      storeBlockAssocData callbacks block
  else
    (if hasOwnProperty callbacks foundDuringReviewBlock
     then foundDuringReviewBlock_handler block_number (hash block)
     else log Info "Found new block") ;;
    getBlock_save callbacks block.

(** The callback that [getBlock] hands to [evmClient.getBlock], lines
    146-266.  [localErrorRecovered] is the variable of line 144, which the
    callback reads and writes; its value afterwards is returned.  [err] is
    [String(err)] when [err] is set. *)
Definition getBlock_callback (block_number : Z) (callbacks : Callbacks)
           (localErrorRecovered : bool)
           (err : option string) (block : option Block) : M DB bool :=
  match err with
  | Some e =>
      if isTransient e then
        if negb localErrorRecovered then
          log Error "** JSON RPC or connection timeout failure in CacheMonitor::getBlock, cycling to next node **" ;;
          emit EvCycleNodes ;;
          call_mainLoop block_number ;;
          ret true
        else
          log Error "** Received duplicate local timeout or JSON RPC error, already cycled **" ;;
          ret localErrorRecovered
      else
        log Error "Unknown error:" ;;
        sleep 2500 ;;
        exit 1
  | None =>
      match block with
      | None =>
          (if hasOwnProperty callbacks atBlockchainHead
           then atBlockchainHead_handler block_number
           else ret tt) ;;
          ret localErrorRecovered
      | Some b =>
          getBlock_reconcile block_number callbacks b ;;
          ret localErrorRecovered
      end
  end.

(** One call of the node client's callback: [(err, block)]. *)
Record Delivery := mkDelivery {
  d_err : option string;
  d_block : option Block
}.

(** The callback of one [getBlock] call, run on each delivery in turn. *)
Fixpoint deliver (block_number : Z) (callbacks : Callbacks)
         (localErrorRecovered : bool) (ds : list Delivery) : M DB bool :=
  match ds with
  | [] => ret localErrorRecovered
  | d :: rest =>
      flag <- detached (getBlock_callback block_number callbacks
                          localErrorRecovered (d_err d) (d_block d))
                       localErrorRecovered ;;
      deliver block_number callbacks flag rest
  end.

(** One invocation of [getBlock] and the deliveries to its callback. *)
Definition getBlock_invocation (block_number : Z) (callbacks : Callbacks)
           (ds : list Delivery) : M DB bool :=
  getBlock block_number callbacks ;;
  deliver block_number callbacks false ds.

End Program.

(** ** Two database drivers to run the monitor on *)

Module Tables.

(** Modelled from the spec: the tables and the SQL of BlockQueries.js and
    TransactionQueries.js, which are not in the sources, after the query
    contracts of the spec (section 6) and its data model (section 3).  A
    block row is (number, hash); an ommer row (ommer, nibling); a
    transaction row (block hash, transaction hash); a log row
    (log id, transaction hash, block number, log index). *)
Record Tables := mkTables {
  t_blocks : list (Z * Hash);
  t_ommers : list (Hash * Hash);
  t_transactions : list (Hash * Hash);
  t_logs : list (Z * Hash * Z * Z);
  t_next_log_id : Z
}.

Definition empty : Tables := mkTables [] [] [] [] 1.

Definition hashes_at (d : Tables) (n : Z) : list Hash :=
  map snd (filter (fun b => fst b =? n) (t_blocks d)).

Definition mem (h : Hash) (l : list Hash) : bool := existsb (String.eqb h) l.

Definition transactions_of (d : Tables) (h : Hash) : list (Hash * Hash) :=
  filter (fun t => String.eqb (fst t) h) (t_transactions d).

Definition transactions_at (d : Tables) (n : Z) : list (Hash * Hash) :=
  filter (fun t => mem (fst t) (hashes_at d n)) (t_transactions d).

Definition one_row (r : Row) : Reply := Resolves (Some (mkQResult 1 [r])).
Definition zero_rows : Reply := Resolves (Some (mkQResult 0 [])).
Definition affected (k : nat) : Reply :=
  Resolves (Some (mkQResult (Z.of_nat k) [])).

Definition log_tx (l : Z * Hash * Z * Z) : Hash := snd (fst (fst l)).
Definition log_number (l : Z * Hash * Z * Z) : Z := snd (fst l).
Definition log_index (l : Z * Hash * Z * Z) : Z := snd l.

Definition run (q : Query) (d : Tables) : Tables * Reply :=
  match q with
  | getBlockByHash _ h =>
      (d, if mem h (map snd (t_blocks d))
          then one_row (mkRow (Some (Z.of_nat (List.length (transactions_of d h))))
                              None 0)
          else zero_rows)
  | getBlockTransactionCount _ n =>
      (d, one_row (mkRow None
                         (Some (Z.of_nat (List.length (transactions_at d n)))) 0))
  | addBlock _ n h _ =>
      if mem h (map snd (t_blocks d)) then (d, zero_rows)
      else (mkTables (t_blocks d ++ [(n, h)]) (t_ommers d) (t_transactions d)
                     (t_logs d) (t_next_log_id d),
            one_row (mkRow None None 0))
  | deleteBlock _ n =>
      (mkTables (filter (fun b => negb (fst b =? n)) (t_blocks d)) (t_ommers d)
                (t_transactions d) (t_logs d) (t_next_log_id d),
       affected (List.length (hashes_at d n)))
  | deleteOmmers _ n =>
      (mkTables (t_blocks d)
                (filter (fun o => negb (mem (snd o) (hashes_at d n))) (t_ommers d))
                (t_transactions d) (t_logs d) (t_next_log_id d),
       affected (List.length
                   (filter (fun o => mem (snd o) (hashes_at d n)) (t_ommers d))))
  | addOmmer _ o nb =>
      (mkTables (t_blocks d) (t_ommers d ++ [(o, nb)]) (t_transactions d)
                (t_logs d) (t_next_log_id d),
       one_row (mkRow None None 0))
  | deleteLogs _ n =>
      (mkTables (t_blocks d) (t_ommers d) (t_transactions d)
                (filter (fun l => negb (log_number l =? n)) (t_logs d))
                (t_next_log_id d),
       affected (List.length (filter (fun l => log_number l =? n) (t_logs d))))
  | deleteTransactions _ n =>
      let gone := map snd (transactions_at d n) in
      (mkTables (t_blocks d) (t_ommers d)
                (filter (fun t => negb (mem (fst t) (hashes_at d n)))
                        (t_transactions d))
                (filter (fun l => negb (mem (log_tx l) gone)) (t_logs d))
                (t_next_log_id d),
       affected (List.length gone))
  | addTransaction bh t _ _ =>
      if mem (tx_hash t) (map snd (t_transactions d)) then (d, zero_rows)
      else (mkTables (t_blocks d) (t_ommers d)
                     (t_transactions d ++ [(bh, tx_hash t)]) (t_logs d)
                     (t_next_log_id d),
            one_row (mkRow None None 0))
  | deleteLogsByTransactionHash h =>
      (mkTables (t_blocks d) (t_ommers d) (t_transactions d)
                (filter (fun l => negb (String.eqb (log_tx l) h)) (t_logs d))
                (t_next_log_id d),
       affected (List.length
                   (filter (fun l => String.eqb (log_tx l) h) (t_logs d))))
  | addLog h bn li _ _ _ =>
      if existsb (fun l => String.eqb (log_tx l) h && (log_index l =? li))%bool
                 (t_logs d)
      then (d, zero_rows)
      else (mkTables (t_blocks d) (t_ommers d) (t_transactions d)
                     (t_logs d ++ [(t_next_log_id d, h, bn, li)])
                     (t_next_log_id d + 1),
            one_row (mkRow None None (t_next_log_id d)))
  end.

(** A monitor on these tables, for a node that answers receipt requests by
    [receipts]; the log decoder writes nothing into these four tables, the
    driver accepts BEGIN, COMMIT and ROLLBACK, and the tasks of a persist
    are resumed one after the other. *)
Definition monitor (id : Z) (end_block : option Z)
           (receipts : Hash -> ReceiptReply) : Monitor Tables :=
  {| blockchain_id := id;
     endBlockOverride := end_block;
     exec := run;
     getTransactionReceipt := receipts;
     setDecodedLog := fun _ _ d => (d, None);
     transaction_reply := fun _ _ => None;
     arrival := [] |}.

End Tables.

Module Scripted.

(** A driver that answers each query from a script and keeps the list of
    the writes it was sent. *)
Definition Journal := list Query.

Definition run (script : Query -> Reply) (q : Query) (j : Journal)
  : Journal * Reply :=
  (if is_lookup q then j else j ++ [q], script q).

Definition monitor (script : Query -> Reply)
           (receipts : Hash -> ReceiptReply)
           (decoder : Z -> Log -> option string) : Monitor Journal :=
  {| blockchain_id := 1;
     endBlockOverride := None;
     exec := run script;
     getTransactionReceipt := receipts;
     setDecodedLog := fun id l j => (j, decoder id l);
     transaction_reply := fun _ _ => None;
     arrival := [] |}.

End Scripted.

(** The monitor [m] with the replies arriving in the order [schedule]. *)
Definition arriving {DB} (schedule : list Turn) (m : Monitor DB) : Monitor DB :=
  {| blockchain_id := @blockchain_id DB m;
     endBlockOverride := @endBlockOverride DB m;
     exec := @exec DB m;
     getTransactionReceipt := @getTransactionReceipt DB m;
     setDecodedLog := @setDecodedLog DB m;
     transaction_reply := @transaction_reply DB m;
     arrival := schedule |}.

(** The monitor [m] on a driver that answers BEGIN, COMMIT and ROLLBACK
    by [replies]. *)
Definition answering {DB} (replies : Stmt -> DB -> option string)
           (m : Monitor DB) : Monitor DB :=
  {| blockchain_id := @blockchain_id DB m;
     endBlockOverride := @endBlockOverride DB m;
     exec := @exec DB m;
     getTransactionReceipt := @getTransactionReceipt DB m;
     setDecodedLog := @setDecodedLog DB m;
     transaction_reply := replies;
     arrival := @arrival DB m |}.

(** ** Reading a trace *)

Definition statements (evs : list Event) : list Stmt :=
  flat_map (fun e => match e with EvQuery st => [st] | _ => [] end) evs.

Definition is_cycle (e : Event) : bool :=
  match e with EvCycleNodes => true | _ => false end.

Definition is_mainLoop (e : Event) : bool :=
  match e with EvMainLoop _ => true | _ => false end.

Definition cycles (evs : list Event) : nat := List.length (filter is_cycle evs).

Definition reentries (evs : list Event) : nat :=
  List.length (filter is_mainLoop evs).

(** The statements that insert or delete a block row. *)
Definition writes_block_row (st : Stmt) : bool :=
  match st with
  | Sql (addBlock _ _ _ _) | Sql (deleteBlock _ _) => true
  | _ => false
  end.

Definition is_write (st : Stmt) : bool :=
  match st with
  | Sql q => negb (is_lookup q)
  | _ => true
  end.

(** The heights [lo], [lo + 1], ..., [lo + k - 1]. *)
Fixpoint heights (lo : Z) (k : nat) : list Z :=
  match k with
  | O => []
  | S k' => lo :: heights (lo + 1) k'
  end.

(** Parts of a run. *)
Definition outcome_of {DB A} (r : Outcome A * State DB * list Event) : Outcome A :=
  fst (fst r).
Definition state_of {DB A} (r : Outcome A * State DB * list Event) : State DB :=
  snd (fst r).
Definition events_of {DB A} (r : Outcome A * State DB * list Event) : list Event :=
  snd r.

Definition start_state {DB} (d : DB) (c : Z) : State DB :=
  mkState (mkSession d None) c.

(** ** Properties of a piece of code *)

(** [emits P m]: every event that [m] writes satisfies [P]. *)
Definition emits {DB A} (P : Event -> bool) (m : M DB A) : Prop :=
  forall s, forallb P (events_of (m s)) = true.

(** [frames m]: [m] leaves the open transaction's snapshot and the review
    counter as they are; it may change the live database only. *)
Definition frames {DB A} (m : M DB A) : Prop :=
  forall s,
    snapshot (session (state_of (m s))) = snapshot (session s) /\
    comprehensiveReviewCounter (state_of (m s)) = comprehensiveReviewCounter s.

(** What a transaction task may emit: the inserts of the transaction and
    of its logs, the delete of its former logs, decoder calls, the release
    of the session and logging. *)
Definition task_vocabulary (e : Event) : bool :=
  match e with
  | EvQuery (Sql q) =>
      match q with
      | addTransaction _ _ _ _ | deleteLogsByTransactionHash _
      | addLog _ _ _ _ _ _ => true
      | _ => false
      end
  | EvSetDecodedLog _ _ | EvRelease | EvLog _ _ => true
  | _ => false
  end.

(** The ommers that line 289 lets through. *)
Definition ommers_of (block : Block) : list Hash :=
  match uncles block with
  | Some l => l
  | None => []
  end.

(** What a persist may emit, under the callbacks of its [getBlock] call:
    the transaction statements, the deletes and inserts of associated
    data, receipt requests, decoder calls, logging, sleeping, and the
    re-entry of the loop where the bag has ['moveToNextBlock']. *)
Definition persist_vocabulary (callbacks : Callbacks) (e : Event) : bool :=
  match e with
  | EvQuery (Sql q) =>
      match q with
      | deleteLogs _ _ | deleteTransactions _ _ | addOmmer _ _ _
      | addTransaction _ _ _ _ | deleteLogsByTransactionHash _
      | addLog _ _ _ _ _ _ => true
      | _ => false
      end
  | EvQuery _ => true
  | EvGetTransactionReceipt _ | EvSetDecodedLog _ _ | EvRelease
  | EvLog _ _ | EvSleep _ => true
  | EvMainLoop _ => hasOwnProperty callbacks moveToNextBlock
  | _ => false
  end.

(** What the callback may emit on a delivery without error: anything but
    a node cycle, and a re-entry of the loop only under the cursor's bag. *)
Definition delivery_vocabulary (callbacks : Callbacks) (e : Event) : bool :=
  match e with
  | EvCycleNodes => false
  | EvMainLoop _ =>
      match callbacks with cursor_callbacks => true | _ => false end
  | _ => true
  end.

(** ** Concrete runs

    A node, some blocks and two monitors to evaluate the code on. *)

Module Sample.

Definition header0 : Header :=
  mkHeader "0xP" "0x0" 8000000 21000 1600000000 "0xU" "0x00" "0xT" "0xR" "0xS"
           "0xM" "0xminer" "1" "0x" 540.

Definition transfer (h : Hash) (index : Z) : Transaction :=
  mkTransaction h 0 index "0xfrom" "0xto" "1" "1" 21000 "0x" "0x1b" "0xr" "0xs".

Definition event_log (block_number index : Z) : Log :=
  mkLog block_number index "0xtoken" "0x01" ["0xtopic0"; "0xtopic1"].

(** The node has no receipt yet for ["0xt1"], fails on ["0xt3"], and has
    a receipt with two logs for every other transaction: ["0xt6"] is in
    block 6, ["0xt7"] in block 7, the others in block 5. *)
Definition receipts (h : Hash) : ReceiptReply :=
  if String.eqb h "0xt1" then ReceiptResolves None
  else if String.eqb h "0xt3"
  then ReceiptRejects "Error: Returned error: header not found"
  else
    let n := if String.eqb h "0xt6" then 6
             else if String.eqb h "0xt7" then 7 else 5 in
    ReceiptResolves
      (Some (mkReceipt (Some true) None (Some [event_log n 0; event_log n 1]))).

(** Three transactions, the second without a receipt. *)
Definition block5 : Block :=
  mkBlock 5 "0xB5" header0
          [transfer "0xt0" 0; transfer "0xt1" 1; transfer "0xt2" 2]
          (Some ["0xU1"]).

(** Two transactions, the receipt request of the second rejects. *)
Definition block6 : Block :=
  mkBlock 6 "0xB6" header0 [transfer "0xt6" 0; transfer "0xt3" 1] None.

(** One transaction, already stored under block ["0xB7"]. *)
Definition block7 : Block :=
  mkBlock 7 "0xB7" header0 [transfer "0xt7" 0] None.

Definition stored7 : Tables.Tables :=
  Tables.mkTables [(7, "0xB7")] [] [("0xB7", "0xt7")] [] 1.

(** An uncled block at height 7 has left a transaction behind. *)
Definition stale7 : Tables.Tables :=
  Tables.mkTables [(7, "0xA7"); (7, "0xB7")] []
                  [("0xA7", "0xold"); ("0xB7", "0xt7")] [] 1.

(** The row of ["0xB7"] has lost its transaction. *)
Definition emptied7 : Tables.Tables :=
  Tables.mkTables [(7, "0xB7")] [] [] [] 1.

Definition on_tables : Monitor Tables.Tables :=
  Tables.monitor 1 None receipts.

(** A database that refuses every insert of a transaction or of a log
    with no row affected, and answers every other query with one row. *)
Definition refusing (q : Query) : Reply :=
  match q with
  | addTransaction _ _ _ _ | addLog _ _ _ _ _ _ => Tables.zero_rows
  | _ => Tables.one_row (mkRow None None 0)
  end.

Definition on_refusing : Monitor Scripted.Journal :=
  Scripted.monitor refusing receipts (fun _ _ => None).

(** A database whose height-wide count comes back without a row, as an
    aggregate over a grouped join does when nothing matches; the row of
    the block itself reports no transaction. *)
Definition rowless_count (q : Query) : Reply :=
  match q with
  | getBlockByHash _ _ => Tables.one_row (mkRow (Some 0) None 0)
  | getBlockTransactionCount _ _ => Tables.zero_rows
  | _ => Tables.one_row (mkRow None None 0)
  end.

Definition on_rowless_count : Monitor Scripted.Journal :=
  Scripted.monitor rowless_count receipts (fun _ _ => None).

Definition block8 : Block := mkBlock 8 "0xB8" header0 [] None.

(** A database on which every query affects one row and returns it, and
    a node whose answers to the receipt requests of block 5 arrive out of
    order: first that of the second transaction, then those of the first
    and of the third, whose tasks then take turns. *)
Definition accepts_all (q : Query) : Reply := Tables.one_row (mkRow None None 7).

Definition out_of_order : list Turn :=
  [TaskTurn 2; TaskTurn 1; TaskTurn 2; TaskTurn 1; TaskTurn 0; TaskTurn 1].

(** Block 6 with the replies arriving so: the receipt of its first
    transaction, whose insert is sent; the failure of the second receipt
    request; the reply to that insert, then the reply to ROLLBACK, then
    the replies that the first task still awaits. *)
Definition late_replies : list Turn :=
  [TaskTurn 0; TaskTurn 1; TaskTurn 0; HandlerTurn; TaskTurn 0; TaskTurn 0;
   TaskTurn 0; TaskTurn 0; TaskTurn 0].

Definition on_accepting : Monitor Scripted.Journal :=
  arriving out_of_order (Scripted.monitor accepts_all receipts (fun _ _ => None)).

End Sample.


(** ** The start of the monitor *)

(** What the latest-block query answers to the callback of [start]: the
    row count and, for each row, [parseInt(row.number, 10)], [number]
    being an integer column. *)
Record LatestBlock := mkLatestBlock {
  latest_rowCount : Z;
  latest_numbers : list Z
}.

Section Start.

Context {DB : Type} {monitor : Monitor DB}.

(** Lines 32-43 of [start]: the height to resume at.
    [startBlockOverride] is [options.startBlockOverride], [None] standing
    for [false]. *)
Definition latest_number (startBlockOverride : option Z)
           (result : option LatestBlock) : M DB Z :=
  match startBlockOverride with
  | Some n => log Info "Using start block number override:" ;; ret n
  | None =>
      match result with
      | None => log Info "No latest block, starting at 0" ;; ret 0
      | Some res =>
          if latest_rowCount res =? 0
          then log Info "No latest block, starting at 0" ;; ret 0
          else match latest_numbers res with
               | [] => throw TypeError
               | n :: _ => log Info "Retrieved latest block:" ;; ret n
               end
      end
  end.

(** The callback that [start] hands to the latest-block query, lines
    29-50: the height is chosen, flushed, and the loop entered. *)
Definition start_callback (startBlockOverride : option Z)
           (result : option LatestBlock) : M DB unit :=
  n <- latest_number startBlockOverride result ;;
  flushBlock n ;;
  mainLoop n.

End Start.

(** The four deletes of [flushBlock], in the order it sends them. *)
Definition flush_queries (id n : Z) : list Query :=
  [deleteLogs id n; deleteTransactions id n; deleteOmmers id n;
   deleteBlock id n].

Definition flush_statements (id n : Z) : list Stmt :=
  [Sql (deleteLogs id n); Sql (deleteTransactions id n);
   Sql (deleteOmmers id n); Sql (deleteBlock id n)].

Section Sending.

Context {DB : Type} {monitor : Monitor DB}.

(** Queries sent one at a time, each awaited before the next is sent, up
    to the first that is rejected: the statements sent, the database
    afterwards, and the rejection, if any. *)
Fixpoint sent_in_turn (qs : list Query) (d : DB)
  : list Stmt * DB * option string :=
  match qs with
  | [] => ([], d, None)
  | q :: rest =>
      match exec q d with
      | (d', Rejects e) => ([Sql q], d', Some e)
      | (d', Resolves _) =>
          match sent_in_turn rest d' with
          | (sent, d'', rejection) => (Sql q :: sent, d'', rejection)
          end
      end
  end.

(** Queries sent one after the other without waiting for a reply: the
    database afterwards, and the replies. *)
Fixpoint sent_at_once (qs : list Query) (d : DB) : DB * list Reply :=
  match qs with
  | [] => (d, [])
  | q :: rest =>
      match exec q d with
      | (d', r) =>
          match sent_at_once rest d' with
          | (d'', rs) => (d'', r :: rs)
          end
      end
  end.

End Sending.

(** The first rejection among replies, if any. *)
Fixpoint first_rejected (rs : list Reply) : option string :=
  match rs with
  | [] => None
  | Rejects e :: _ => Some e
  | Resolves _ :: rest => first_rejected rest
  end.

(** The events that close a persist for good: the COMMIT and the call of
    [mainLoop]. *)
Definition is_commit_or_reentry (e : Event) : bool :=
  match e with
  | EvQuery COMMIT | EvMainLoop _ => true
  | _ => false
  end.

(** What [start_promises] may emit. *)
Definition start_vocabulary (e : Event) : bool :=
  match e with
  | EvQuery BEGIN => true
  | EvQuery (Sql q) =>
      match q with
      | deleteLogs _ _ | deleteTransactions _ _ | addOmmer _ _ _ => true
      | _ => false
      end
  | EvGetTransactionReceipt _ => true
  | _ => false
  end.

(** The events that leave the block rows alone. *)
Definition keeps_block_rows (e : Event) : bool :=
  match e with
  | EvQuery st => negb (writes_block_row st)
  | _ => true
  end.

(** The statements a transaction task sends when every insert affects a
    row: the insert of the transaction and, when the receipt has logs,
    the delete of its former logs and one insert per log. *)
Definition task_statements (block_hash : Hash) (t : Transaction)
           (receipt : Receipt) : list Stmt :=
  Sql (addTransaction block_hash t (status_or_null (rc_status receipt))
                      (string_or_null (rc_contractAddress receipt)))
  :: match rc_logs receipt with
     | None | Some [] => []
     | Some logs =>
         Sql (deleteLogsByTransactionHash (tx_hash t))
         :: map (fun l => Sql (addLog (tx_hash t) (log_blockNumber l)
                                      (log_logIndex l) (log_address l)
                                      (log_data l) (log_topics l))) logs
     end.


(** The requests for a block sent to the node. *)
Definition is_fetch (e : Event) : bool :=
  match e with EvGetBlock _ _ => true | _ => false end.

(** Whether [mainLoop] stops at height [n] (line 87). *)
Definition end_reached {DB : Type} {monitor : Monitor DB} (n : Z) : bool :=
  match endBlockOverride with
  | Some e => n >=? e
  | None => false
  end.


(** The line the reconciler logs for a block it has no row for: the
    ['foundDuringReviewBlock'] handler where the bag has it, the plain
    line otherwise (lines 228-232). *)
Definition new_block_signal (callbacks : Callbacks) : Event :=
  if hasOwnProperty callbacks foundDuringReviewBlock
  then EvLog Info "* Found new previous block at number"
  else EvLog Info "Found new block".

(** A database that rejects every insert of an ommer. *)
Definition rejecting_ommers (q : Query) : Reply :=
  match q with
  | addOmmer _ _ _ => Rejects "error: insert or update on table ommer violates foreign key constraint"
  | _ => Tables.one_row (mkRow None None 0)
  end.

Definition on_rejecting_ommers : Monitor Scripted.Journal :=
  Scripted.monitor rejecting_ommers Sample.receipts (fun _ _ => None).

(** A database that rejects the delete of the ommers at a height. *)
Definition rejecting_ommer_delete (q : Query) : Reply :=
  match q with
  | deleteOmmers _ _ => Rejects "error: canceling statement due to statement timeout"
  | _ => Tables.one_row (mkRow None None 0)
  end.

Definition on_rejecting_ommer_delete : Monitor Scripted.Journal :=
  Scripted.monitor rejecting_ommer_delete Sample.receipts (fun _ _ => None).


(** ** The contract identifier (ContractIdentifier.js)

    [determineStandardByCode], [determineStandardByCall] and the callback
    of [determineStandard].  A JavaScript object used as a map is a list
    of its keys with their values, in the order [for ... in] visits them. *)

Module ContractIdentifier.

(** [toLowerCase], on ASCII text: it acts on the letters A-Z. *)
Definition lower_ascii (c : ascii) : ascii :=
  let n := nat_of_ascii c in
  if (Nat.leb 65 n && Nat.leb n 90)%bool then ascii_of_nat (n + 32) else c.

Fixpoint toLowerCase (s : string) : string :=
  match s with
  | EmptyString => EmptyString
  | String c s' => String (lower_ascii c) (toLowerCase s')
  end.

(** [s.slice(2)] *)
Definition slice2 (s : string) : string :=
  match s with
  | String _ (String _ rest) => rest
  | _ => EmptyString
  end.

(** An entry of an ABI: the two fields the identifier reads, and the
    types of the inputs, which only web3 reads. *)
Record AbiEntry := mkAbiEntry {
  abi_type : string;
  abi_name : string;
  abi_inputs : list string
}.

(** The object exported by config/abi.js. *)
Record AbiConfig := mkAbiConfig {
  contracts : list string;
  abis : list (string * list AbiEntry);
  functions : list (string * list string);
  events : list (string * list string)
}.

(** What the identifier takes from elsewhere: the configuration, the two
    signature encoders of [web3.eth.abi], which answer a hexadecimal
    string that starts with "0x", and the conversion of util/
    byteaBufferToHex.js. *)
Class Identifier := {
  abiCfg : AbiConfig;
  encodeFunctionSignature : AbiEntry -> string;
  encodeEventSignature : AbiEntry -> string;
  byteaBufferToHex : string -> string
}.

(** [o[k]] *)
Fixpoint property {A : Type} (k : string) (o : list (string * A)) : option A :=
  match o with
  | [] => None
  | (k', v) :: rest => if String.eqb k' k then Some v else property k rest
  end.

(** [matches.indexOf(contractType) !== -1] *)
Definition listed (contractType : string) (matches : list string) : bool :=
  existsb (String.eqb contractType) matches.

(** [matches.splice(matches.indexOf(contractType), 1)], [contractType]
    being listed. *)
Fixpoint splice_out (contractType : string) (matches : list string)
  : list string :=
  match matches with
  | [] => []
  | m :: rest =>
      if String.eqb m contractType then rest
      else m :: splice_out contractType rest
  end.

(** A line of [log.debug]: the contract type, "function" or "event", the
    name of the entry, and whether its signature was found. *)
Record Debug := mkDebug {
  dbg_contract : string;
  dbg_kind : string;
  dbg_name : string;
  dbg_found : bool
}.

Section Loops.

Context {identifier : Identifier}.

(** [encode(entry).slice(2).toLowerCase()] *)
Definition signature (encode : AbiEntry -> string) (e : AbiEntry) : string :=
  toLowerCase (slice2 (encode e)).

(** An entry of the kind and the name whose signature the input lacks. *)
Definition lacking (kind : string) (encode : AbiEntry -> string)
           (input name : string) (e : AbiEntry) : bool :=
  String.eqb (abi_type e) kind && String.eqb (abi_name e) name
  && (indexOf input (signature encode e) =? -1).

(** The loop over [abis[contractType]] for one required name (lines
    566-580 for functions, 592-606 for events).  The answer is [true] when
    the loop has met an entry of the kind and the name whose signature the
    input lacks, at which point the code splices the type out and breaks
    out of the labelled loop; with it come the debug lines. *)
Fixpoint signature_missing (verbose : bool) (kind : string)
         (encode : AbiEntry -> string) (input contractType name : string)
         (entries : list AbiEntry) : bool * list Debug :=
  match entries with
  | [] => (false, [])
  | e :: rest =>
      if negb (String.eqb (abi_type e) kind)
      then signature_missing verbose kind encode input contractType name rest
      else if negb (String.eqb (abi_name e) name)
      then signature_missing verbose kind encode input contractType name rest
      else
        let found := negb (indexOf input (signature encode e) =? -1) in
        let line := if verbose
                    then [mkDebug contractType kind (abi_name e) found]
                    else [] in
        if found
        then let (missing, lines) :=
               signature_missing verbose kind encode input contractType name
                                 rest in
             (missing, line ++ lines)
        else (true, line)
  end.

(** The labelled loop over the required names of one contract type. *)
Fixpoint requirement_missing (verbose : bool) (kind : string)
         (encode : AbiEntry -> string) (input contractType : string)
         (entries : list AbiEntry) (names : list string) : bool * list Debug :=
  match names with
  | [] => (false, [])
  | name :: rest =>
      let (missing, lines) :=
        signature_missing verbose kind encode input contractType name entries in
      if missing then (true, lines)
      else let (missing', lines') :=
             requirement_missing verbose kind encode input contractType
                                 entries rest in
           (missing', lines ++ lines')
  end.

(** One of the two loops over the contract types of [required] (lines
    559-582 and 585-608).  The result is [None] when
    [abis[contractType]] is undefined for a listed type with a required
    name: reading its [length] throws a TypeError. *)
Fixpoint prune (verbose : bool) (kind : string) (encode : AbiEntry -> string)
         (input : string) (required : list (string * list string))
         (matches : list string) : option (list string) * list Debug :=
  match required with
  | [] => (Some matches, [])
  | (contractType, names) :: rest =>
      if negb (listed contractType matches)
      then prune verbose kind encode input rest matches
      else
        match names with
        | [] => prune verbose kind encode input rest matches
        | _ :: _ =>
            match property contractType (abis abiCfg) with
            | None => (None, [])
            | Some entries =>
                let (missing, lines) :=
                  requirement_missing verbose kind encode input contractType
                                      entries names in
                let (result, lines') :=
                  prune verbose kind encode input rest
                        (if missing then splice_out contractType matches
                         else matches) in
                (result, lines ++ lines')
            end
        end
  end.

(** [determineStandardByCode(input, verbose)], lines 547-611. *)
Definition determineStandardByCode (input : string) (verbose : bool)
  : option (list string) * list Debug :=
  let input := toLowerCase input in
  let (by_function, lines) :=
    prune verbose "function" encodeFunctionSignature input (functions abiCfg)
          (contracts abiCfg) in
  match by_function with
  | None => (None, lines)
  | Some matches =>
      let (by_event, lines') :=
        prune verbose "event" encodeEventSignature input (events abiCfg)
              matches in
      (by_event, lines ++ lines')
  end.

(** [determineStandardByCall(address, verbose)], lines 613-615. *)
Definition determineStandardByCall (address : string) (verbose : bool) : bool :=
  false.

(** What the contract-code query answers to the callback of
    [determineStandard]: the row count and, for each row, its [input]
    column, [None] standing for null. *)
Record CodeResult := mkCodeResult {
  code_rowCount : Z;
  code_inputs : list (option string)
}.

(** The object handed to the caller's callback. *)
Record Identified := mkIdentified {
  id_address : string;
  id_code_results : list string;
  id_call_results : bool;
  id_standard : option string
}.

Inductive IdEvent :=
| IdRelease
| IdError (msg : string)
| IdCallback (found : Identified).

(** How the callback of [determineStandard] ends: it returns [false], it
    returns nothing, or it throws. *)
Inductive Ending :=
| ReturnsFalse
| ReturnsUndefined
| Throws (e : string).

(** The callback that [determineStandard] hands to the contract-code
    query, lines 512-543.  [result = None] stands for a null result. *)
Definition determineStandard_callback (address : string)
           (result : option CodeResult) : list IdEvent * Ending :=
  match result with
  | None => ([IdRelease], Throws TypeError)
  | Some res =>
      if code_rowCount res =? 0
      then ([IdRelease;
             IdError "does not have contract creation transaction stored in the database."],
            ReturnsFalse)
      else
        match code_inputs res with
        | [] => ([IdRelease], Throws TypeError)
        | None :: _ =>
            ([IdRelease;
              IdError "does not have contract creation transaction stored in the database."],
             ReturnsFalse)
        | Some buffer :: _ =>
            let code := byteaBufferToHex buffer in
            match fst (determineStandardByCode code false) with
            | None => ([IdRelease], Throws TypeError)
            | Some code_results =>
                match code_results with
                | _ :: _ :: _ =>
                    ([IdRelease; IdError "Ambiguous code analysis result"],
                     ReturnsFalse)
                | _ =>
                    ([IdRelease;
                      IdCallback
                        (mkIdentified address code_results
                           (determineStandardByCall address false)
                           (match code_results with
                            | [standard] => Some standard
                            | _ => None
                            end))],
                     ReturnsUndefined)
                end
            end
        end
  end.

End Loops.

(** What the analysis asks of the code for it to keep a contract type:
    every entry of the kind in the type's ABI that bears a required name
    has its signature in the code. *)
Definition satisfied {identifier : Identifier} (kind : string)
           (encode : AbiEntry -> string) (input : string)
           (required : list (string * list string)) (contractType : string)
  : Prop :=
  forall names entries name e,
    In (contractType, names) required ->
    property contractType (abis abiCfg) = Some entries ->
    In name names ->
    In e entries ->
    abi_type e = kind ->
    abi_name e = name ->
    contains input (signature encode e).

(** Every listed type that has a required name has an ABI. *)
Definition has_abis {identifier : Identifier}
           (required : list (string * list string)) : Prop :=
  forall contractType names,
    In (contractType, names) required ->
    names <> [] ->
    property contractType (abis abiCfg) <> None.

End ContractIdentifier.


(** An identifier to evaluate the analysis on: two standards, and a
    stand-in for web3's encoders that knows the selectors of the entries
    below. *)
Module IdentifierSample.

Import ContractIdentifier.

Definition transfer_function : AbiEntry :=
  mkAbiEntry "function" "transfer" ["address"; "uint256"].
Definition ownerOf_function : AbiEntry :=
  mkAbiEntry "function" "ownerOf" ["uint256"].
Definition transfer_event : AbiEntry :=
  mkAbiEntry "event" "Transfer" ["address"; "address"; "uint256"].

Definition config : AbiConfig :=
  mkAbiConfig ["erc20"; "erc721"]
              [("erc20", [transfer_function; transfer_event]);
               ("erc721", [ownerOf_function; transfer_event])]
              [("erc20", ["transfer"]); ("erc721", ["ownerOf"])]
              [("erc20", ["Transfer"]); ("erc721", ["Transfer"])].

Definition selector (e : AbiEntry) : string :=
  if String.eqb (abi_name e) "transfer" then "0xA9059CBB"
  else if String.eqb (abi_name e) "ownerOf" then "0x6352211E"
  else "0xDDF252AD1BE2C89B69C2B068FC378DAA952BA7F163C4A11628F55A4DF523B3EF".

Definition identifier : Identifier :=
  {| abiCfg := config;
     encodeFunctionSignature := selector;
     encodeEventSignature := selector;
     byteaBufferToHex := fun buffer => buffer |}.

(** Code that holds the selector of [transfer] and the topic of
    [Transfer], and not the selector of [ownerOf]. *)
Definition token_code : string :=
  "0x6080a9059cbb6040ddf252ad1be2c89b69c2b068fc378daa952ba7f163c4a11628f55a4df523b3ef00".

End IdentifierSample.


(** A run that carries the cursor loop on: either it returns, having
    called [mainLoop] once, as its last act and at a height that [P]
    allows, or it does not return and has not called [mainLoop]. *)
Definition carries_on {DB A : Type} (P : Z -> Prop)
           (r : Outcome A * State DB * list Event) : Prop :=
  match outcome_of r with
  | Returned _ =>
      exists pre k,
        events_of r = pre ++ [EvMainLoop k] /\ reentries pre = 0%nat /\ P k
  | _ => reentries (events_of r) = 0%nat
  end.

(** The heights at which a delivery to the cursor's fetch at [n] may
    re-enter the loop: [n], [n + 1], or one more than the number the
    delivered block bears. *)
Definition next_height (n : Z) (block : option Block) (k : Z) : Prop :=
  k = n \/ k = n + 1
  \/ exists b, block = Some b /\ k = number b + 1.

(** [m] leaves the review counter as it is. *)
Definition keeps_counter {DB A : Type} (m : M DB A) : Prop :=
  forall s,
    comprehensiveReviewCounter (state_of (m s)) = comprehensiveReviewCounter s.


(** [m] ends the process with the status [code], if it ends it. *)
Definition exits_with {DB A : Type} (code : Z) (m : M DB A) : Prop :=
  forall s c, outcome_of (m s) = Exited c -> c = code.

(** Whatever [m] returns satisfies [R]. *)
Definition yields {DB A : Type} (R : A -> Prop) (m : M DB A) : Prop :=
  forall s a, outcome_of (m s) = Returned a -> R a.

(** [orderly m]: [m] writes within the vocabulary of a transaction task,
    leaves the snapshot of the open transaction and the review counter as
    they are, and ends the process with status 1 if it ends it. *)
Definition orderly {DB A : Type} (m : M DB A) : Prop :=
  emits task_vocabulary m /\ frames m /\ exits_with 1 m.

(** A task each step of which is orderly. *)
Inductive orderly_task {DB : Type} : Task DB -> Prop :=
| orderly_settled : orderly_task Settled
| orderly_awaiting resume :
    orderly resume ->
    (forall s t, outcome_of (resume s) = Returned t -> orderly_task t) ->
    orderly_task (Awaiting resume).

(** A step of a task that is orderly, as are the steps that follow. *)
Definition orderly_step {DB : Type} (resume : M DB (Task DB)) : Prop :=
  orderly resume /\ yields orderly_task resume.

(** [m] does not return: it throws or ends the process. *)
Definition never_returns {DB A : Type} (m : M DB A) : Prop :=
  forall s a, outcome_of (m s) <> Returned a.

(** [m] does not throw. *)
Definition never_rejects {DB A : Type} (m : M DB A) : Prop :=
  forall s e, outcome_of (m s) <> Rejected e.

Definition orderly_pool {DB : Type} (pool : list (M DB (Task DB))) : Prop :=
  Forall (fun resume => orderly_task (Awaiting resume)) pool.

(** [owes t l]: whatever is resumed in between, the task [t] goes on to
    its end without failing, and [l] is the list of the statements it
    sends on the way. *)
Inductive owes {DB : Type} : Task DB -> list Stmt -> Prop :=
| owes_settled : owes Settled []
| owes_awaiting resume l1 l2 :
    (forall s, exists t,
        outcome_of (resume s) = Returned t
        /\ statements (events_of (resume s)) = l1) ->
    (forall s t, outcome_of (resume s) = Returned t -> owes t l2) ->
    owes (Awaiting resume) (l1 ++ l2).

(** [gives Q l m]: [m] returns a value that satisfies [Q], having sent
    the statements [l]. *)
Definition gives {DB A : Type} (Q : A -> Prop) (l : list Stmt) (m : M DB A)
  : Prop :=
  forall s, exists a,
    outcome_of (m s) = Returned a /\ Q a /\ statements (events_of (m s)) = l.

(** A step of a task that sends [l1], the steps after it owing [l2]. *)
Definition sends {DB : Type} (l1 l2 : list Stmt) (resume : M DB (Task DB))
  : Prop :=
  gives (fun t => owes t l2) l1 resume.

(** Each task of the pool with the statements it owes. *)
Definition owing {DB : Type} (pool : list (M DB (Task DB)))
           (ls : list (list Stmt)) : Prop :=
  Forall2 (fun resume l => owes (Awaiting resume) l) pool ls.

(** Whether a statement is about the transaction of hash [h]: its insert,
    the delete of its logs, or the insert of one of its logs. *)
Definition about (h : Hash) (st : Stmt) : bool :=
  match st with
  | Sql (addTransaction _ t _ _) => String.eqb (tx_hash t) h
  | Sql (deleteLogsByTransactionHash h') => String.eqb h' h
  | Sql (addLog h' _ _ _ _ _) => String.eqb h' h
  | _ => false
  end.

Section Acceptance.

Context {DB : Type} {monitor : Monitor DB}.

(** The statements that the task of a transaction sends when nothing
    fails: none when the node has no receipt for it. *)
Definition sent_for (block_hash : Hash) (t : Transaction) : list Stmt :=
  match getTransactionReceipt (tx_hash t) with
  | ReceiptResolves (Some receipt) => task_statements block_hash t receipt
  | _ => []
  end.

(** What a reply must be for the task that reads it to go on: an insert
    of a transaction affects a row, and an insert of a log that affects a
    row returns it. *)
Definition goes_on (q : Query) (res : option QResult) : Prop :=
  match q with
  | addTransaction _ _ _ _ => no_rows res = false
  | addLog _ _ _ _ _ _ =>
      forall r, res = Some r -> (rowCount r =? 0) = false -> rows r <> []
  | _ => True
  end.

(** The persist of [block] meets no failure: the driver accepts BEGIN,
    COMMIT and ROLLBACK, the database resolves every query with a reply
    on which the tasks go on, the decoder resolves, and the node answers
    every receipt request of the block. *)
Definition accepting (block : Block) : Prop :=
  (forall st d, transaction_reply st d = None)
  /\ (forall q d, exists res, snd (exec q d) = Resolves res /\ goes_on q res)
  /\ (forall id l d, snd (setDecodedLog id l d) = None)
  /\ (forall t e, In t (transactions block) ->
                  getTransactionReceipt (tx_hash t) <> ReceiptRejects e).

End Acceptance.

(** What [Promise.all] leaves pending, if anything. *)
Definition left_pending {DB : Type} (st : Settlement DB)
  : list (M DB (Task DB)) :=
  match st with
  | Fulfilled => []
  | FirstRejection _ _ pending => pending
  end.

(** ** Facts on strings *)

Module JsStringFacts.

Lemma prefix_app (p s : string) :
  String.prefix p s = true <-> exists b, s = (p ++ b)%string.
Proof.
  revert s; induction p as [|c p IH]; intros s; simpl.
  - destruct s; split; intros _; try reflexivity; eexists; reflexivity.
  - destruct s as [|c' s].
    + split; [discriminate | intros [b Hb]; discriminate].
    + simpl. destruct (ascii_dec c c') as [->|Hne].
      * split.
        -- intros H. apply IH in H. destruct H as [b Hb]. exists b. now rewrite Hb.
        -- intros [b Hb]. apply IH. exists b. now injection Hb.
      * split; [discriminate | intros [b Hb]; injection Hb; congruence].
Qed.

Lemma indexOf_from_range (pat s : string) (i : Z) :
  indexOf_from pat s i = -1 \/ i <= indexOf_from pat s i.
Proof.
  revert i; induction s as [|c s IH]; intros i; cbn [indexOf_from].
  - destruct (String.prefix pat ""); [right; lia | now left].
  - destruct (String.prefix pat (String c s)); [right; lia|].
    destruct (IH (i + 1)) as [H|H]; [now left | right; lia].
Qed.

Lemma indexOf_from_found (pat s : string) (i : Z) :
  0 <= i -> indexOf_from pat s i <> -1 -> contains s pat.
Proof.
  revert i; induction s as [|c s IH]; intros i Hi; cbn [indexOf_from].
  - destruct (String.prefix pat "") eqn:Hp; [|congruence].
    intros _. apply prefix_app in Hp. destruct Hp as [b Hb].
    exists "", b. exact Hb.
  - destruct (String.prefix pat (String c s)) eqn:Hp.
    + intros _. apply prefix_app in Hp. destruct Hp as [b Hb].
      exists "", b. exact Hb.
    + intros H. destruct (IH (i + 1) ltac:(lia) H) as (a & b & Hab).
      exists (String c a), b. simpl. now rewrite Hab.
Qed.

Lemma indexOf_from_contains (pat s : string) (i : Z) :
  0 <= i -> contains s pat -> indexOf_from pat s i <> -1.
Proof.
  intros Hi (a & b & Hab). revert s i Hi Hab.
  induction a as [|c a IH]; intros s i Hi Hab.
  - simpl in Hab.
    assert (Hp : String.prefix pat s = true) by (apply prefix_app; eauto).
    destruct s; cbn [indexOf_from]; rewrite Hp; lia.
  - destruct s as [|c' s]; [discriminate|].
    simpl in Hab. injection Hab as -> Hs. cbn [indexOf_from].
    destruct (String.prefix pat (String c s)); [lia|].
    apply IH; [lia | exact Hs].
Qed.

Lemma indexOf_contains (s pat : string) :
  negb (indexOf s pat =? -1) = true <-> contains s pat.
Proof.
  unfold indexOf. rewrite negb_true_iff, Z.eqb_neq. split.
  - apply indexOf_from_found; lia.
  - apply indexOf_from_contains; lia.
Qed.

Lemma toUpperCase_app (a b : string) :
  toUpperCase (a ++ b) = (toUpperCase a ++ toUpperCase b)%string.
Proof. induction a as [|c a IH]; simpl; [reflexivity | now rewrite IH]. Qed.

Lemma toUpperCase_split (s x y : string) :
  toUpperCase s = (x ++ y)%string ->
  exists s1 s2, s = (s1 ++ s2)%string /\ toUpperCase s1 = x /\ toUpperCase s2 = y.
Proof.
  revert s; induction x as [|c x IH]; intros s H.
  - exists "", s. auto.
  - destruct s as [|c' s]; [discriminate|].
    simpl in H. injection H as Hc Hs.
    destruct (IH _ Hs) as (s1 & s2 & -> & H1 & H2).
    exists (String c' s1), s2. simpl. rewrite H1, Hc. auto.
Qed.

(** Searching the upper-cased message for an upper-case pattern is
    searching the message with letter case ignored. *)
Lemma contains_toUpperCase (s pat : string) :
  toUpperCase pat = pat ->
  contains (toUpperCase s) pat <-> contains_ci s pat.
Proof.
  intros Hpat. split.
  - intros (a & b & H).
    destruct (toUpperCase_split _ _ _ H) as (s1 & s2 & -> & H1 & H2).
    destruct (toUpperCase_split _ _ _ H2) as (m & s3 & -> & H3 & H4).
    exists s1, m, s3. split; [reflexivity | congruence].
  - intros (a & m & b & -> & Hm).
    exists (toUpperCase a), (toUpperCase b).
    rewrite !toUpperCase_app. congruence.
Qed.

Lemma isTransient_spec (err : string) :
  isTransient err = true <->
  contains err "Invalid JSON RPC response" \/ contains_ci err "CONNECTION TIMEOUT".
Proof.
  unfold isTransient. rewrite orb_true_iff, !indexOf_contains.
  now rewrite contains_toUpperCase by reflexivity.
Qed.

End JsStringFacts.

(** ** Facts on the monad *)

Section MonadFacts.

Context {DB : Type}.

Lemma bind_Returned {A B} (m : M DB A) (k : A -> M DB B) s a s1 ev1 :
  m s = (Returned a, s1, ev1) ->
  bind m k s = (outcome_of (k a s1), state_of (k a s1), ev1 ++ events_of (k a s1)).
Proof.
  intros H. unfold bind. rewrite H. now destruct (k a s1) as [[o s2] ev2].
Qed.

Lemma bind_Exited {A B} (m : M DB A) (k : A -> M DB B) s c s1 ev1 :
  m s = (Exited c, s1, ev1) -> bind m k s = (Exited c, s1, ev1).
Proof. intros H. unfold bind. now rewrite H. Qed.

Lemma bind_Rejected {A B} (m : M DB A) (k : A -> M DB B) s e s1 ev1 :
  m s = (Rejected e, s1, ev1) -> bind m k s = (Rejected e, s1, ev1).
Proof. intros H. unfold bind. now rewrite H. Qed.

Lemma run_eta {A} (r : Outcome A * State DB * list Event) :
  r = (outcome_of r, state_of r, events_of r).
Proof. now destruct r as [[o s] ev]. Qed.

Lemma emits_ret {A} P (a : A) : emits P (@ret DB A a).
Proof. intros s. reflexivity. Qed.

Lemma emits_exit {A} P c : emits P (@exit DB A c).
Proof. intros s. reflexivity. Qed.

Lemma emits_throw {A} P e : emits P (@throw DB A e).
Proof. intros s. reflexivity. Qed.

Lemma emits_emit P e : P e = true -> emits P (@emit DB e).
Proof. intros H s. simpl. now rewrite H. Qed.

Lemma emits_increment P : emits P (@increment_counter DB).
Proof. intros s. reflexivity. Qed.

Lemma emits_bind {A B} P (m : M DB A) (k : A -> M DB B) :
  emits P m -> (forall a, emits P (k a)) -> emits P (bind m k).
Proof.
  intros Hm Hk s. specialize (Hm s). unfold bind.
  destruct (m s) as [[[a|c|e] s1] ev1]; try exact Hm.
  specialize (Hk a s1). destruct (k a s1) as [[o s2] ev2].
  unfold events_of in *; simpl in *. now rewrite forallb_app, Hm, Hk.
Qed.

Lemma emits_catch {A} P (m : M DB A) (h : string -> M DB A) :
  emits P m -> (forall e, emits P (h e)) -> emits P (catch m h).
Proof.
  intros Hm Hh s. specialize (Hm s). unfold catch.
  destruct (m s) as [[[a|c|e] s1] ev1]; try exact Hm.
  specialize (Hh e s1). destruct (h e s1) as [[o s2] ev2].
  unfold events_of in *; simpl in *. now rewrite forallb_app, Hm, Hh.
Qed.

Lemma emits_detached {A} P (m : M DB A) (a : A) :
  emits P m -> (forall e, P (EvUnhandledRejection e) = true) ->
  emits P (detached m a).
Proof.
  intros Hm HP s. specialize (Hm s). unfold detached.
  destruct (m s) as [[[x|c|e] s1] ev1]; try exact Hm.
  unfold events_of in *; simpl in *. rewrite forallb_app, Hm. simpl.
  now rewrite HP.
Qed.

Lemma emits_weaken {A} (P Q : Event -> bool) (m : M DB A) :
  (forall e, P e = true -> Q e = true) -> emits P m -> emits Q m.
Proof.
  intros HPQ Hm s. specialize (Hm s). rewrite forallb_forall in *. auto.
Qed.

Lemma frames_ret {A} (a : A) : frames (@ret DB A a).
Proof. intros s. now split. Qed.

Lemma frames_exit {A} c : frames (@exit DB A c).
Proof. intros s. now split. Qed.

Lemma frames_throw {A} e : frames (@throw DB A e).
Proof. intros s. now split. Qed.

Lemma frames_emit e : frames (@emit DB e).
Proof. intros s. now split. Qed.

Lemma frames_bind {A B} (m : M DB A) (k : A -> M DB B) :
  frames m -> (forall a, frames (k a)) -> frames (bind m k).
Proof.
  intros Hm Hk s. specialize (Hm s). unfold bind.
  destruct (m s) as [[[a|c|e] s1] ev1]; try exact Hm.
  specialize (Hk a s1). destruct (k a s1) as [[o s2] ev2].
  unfold state_of in *; simpl in *. destruct Hm, Hk. split; congruence.
Qed.

Lemma bind_inv_Returned {A B} (m : M DB A) (k : A -> M DB B) s b s2 ev :
  bind m k s = (Returned b, s2, ev) ->
  exists a s1 ev1 ev2,
    m s = (Returned a, s1, ev1) /\ k a s1 = (Returned b, s2, ev2) /\
    ev = ev1 ++ ev2.
Proof.
  unfold bind. destruct (m s) as [[[a|c|e] s1] ev1]; try discriminate.
  destruct (k a s1) as [[o s3] ev2] eqn:Hk. intros H. injection H as -> -> <-.
  now exists a, s1, ev1, ev2.
Qed.

Lemma bind_ret {A B} (a : A) (k : A -> M DB B) s : bind (ret a) k s = k a s.
Proof. unfold bind, ret. now destruct (k a s) as [[o s2] ev2]. Qed.

Lemma bind_emit {B} (e : Event) (k : unit -> M DB B) s :
  bind (emit e) k s =
  (outcome_of (k tt s), state_of (k tt s), e :: events_of (k tt s)).
Proof. unfold bind, emit. now destruct (k tt s) as [[o s2] ev2]. Qed.

Lemma settles_run {A} (m : M DB A) s :
  settles m s =
  (match outcome_of (m s) with
   | Returned a => Returned (inl a)
   | Exited c => Exited c
   | Rejected e => Returned (inr e)
   end, state_of (m s), events_of (m s)).
Proof. unfold settles. now destruct (m s) as [[[a|c|e] s1] ev1]. Qed.

Lemma emits_settles {A} P (m : M DB A) : emits P m -> emits P (settles m).
Proof. intros H s. rewrite settles_run. apply H. Qed.

Lemma frames_settles {A} (m : M DB A) : frames m -> frames (settles m).
Proof. intros H s. rewrite settles_run. apply H. Qed.

Lemma exits_with_settles {A} c (m : M DB A) :
  exits_with c m -> exits_with c (settles m).
Proof.
  intros H s c'. rewrite settles_run. unfold outcome_of at 1. cbn [fst].
  specialize (H s c'). destruct (outcome_of (m s)); try discriminate.
  intros E. injection E as ->. now apply H.
Qed.

Lemma exits_with_bind {A B} c (m : M DB A) (k : A -> M DB B) :
  exits_with c m ->
  (forall s a, outcome_of (m s) = Returned a -> exits_with c (k a)) ->
  exits_with c (bind m k).
Proof.
  intros Hm Hk s c'. specialize (Hm s c'). specialize (Hk s). unfold bind.
  destruct (m s) as [[[a|c0|e] s1] ev1]; unfold outcome_of in *; cbn [fst] in *;
    [|intros E; injection E as ->; now apply Hm|discriminate].
  specialize (Hk a eq_refl s1 c').
  destruct (k a s1) as [[o s2] ev2]. exact Hk.
Qed.

Lemma emits_bind_run {A B} P (m : M DB A) (k : A -> M DB B) :
  emits P m ->
  (forall s a, outcome_of (m s) = Returned a -> emits P (k a)) ->
  emits P (bind m k).
Proof.
  intros Hm Hk s. specialize (Hm s). specialize (Hk s). unfold bind.
  destruct (m s) as [[[a|c|e] s1] ev1]; try exact Hm.
  specialize (Hk a eq_refl s1). destruct (k a s1) as [[o s2] ev2].
  unfold events_of in *; simpl in *. now rewrite forallb_app, Hm, Hk.
Qed.

Lemma frames_bind_run {A B} (m : M DB A) (k : A -> M DB B) :
  frames m ->
  (forall s a, outcome_of (m s) = Returned a -> frames (k a)) ->
  frames (bind m k).
Proof.
  intros Hm Hk s. specialize (Hm s). specialize (Hk s). unfold bind.
  destruct (m s) as [[[a|c|e] s1] ev1]; try exact Hm.
  specialize (Hk a eq_refl s1). destruct (k a s1) as [[o s2] ev2].
  unfold state_of in *; simpl in *. destruct Hm, Hk. split; congruence.
Qed.

Lemma orderly_bind_run {A B} (m : M DB A) (k : A -> M DB B) :
  orderly m ->
  (forall s a, outcome_of (m s) = Returned a -> orderly (k a)) ->
  orderly (bind m k).
Proof.
  intros (He & Hf & Hx) Hk. split; [|split].
  - apply emits_bind_run; [exact He|]. intros s a H. apply (Hk s a H).
  - apply frames_bind_run; [exact Hf|]. intros s a H. apply (Hk s a H).
  - apply exits_with_bind; [exact Hx|]. intros s a H. apply (Hk s a H).
Qed.

Lemma orderly_bind {A B} (m : M DB A) (k : A -> M DB B) :
  orderly m -> (forall a, orderly (k a)) -> orderly (bind m k).
Proof. intros Hm Hk. apply orderly_bind_run; auto. Qed.

Lemma orderly_ret {A} (a : A) : orderly (@ret DB A a).
Proof.
  split; [|split]; [apply emits_ret | apply frames_ret | intros s c; discriminate].
Qed.

Lemma orderly_throw {A} e : orderly (@throw DB A e).
Proof.
  split; [|split]; [apply emits_throw | apply frames_throw | intros s c; discriminate].
Qed.

Lemma orderly_exit {A} : orderly (@exit DB A 1).
Proof.
  split; [|split]; [apply emits_exit | apply frames_exit|].
  intros s c H. now injection H.
Qed.

Lemma orderly_emit e : task_vocabulary e = true -> orderly (@emit DB e).
Proof.
  intros H. split; [|split];
    [now apply emits_emit | apply frames_emit | intros s c; discriminate].
Qed.

Lemma orderly_settles {A} (m : M DB A) : orderly m -> orderly (settles m).
Proof.
  intros (He & Hf & Hx). split; [|split];
    [now apply emits_settles | now apply frames_settles
    | now apply exits_with_settles].
Qed.

Lemma yields_bind {A B} (R : B -> Prop) (m : M DB A) (k : A -> M DB B) :
  (forall a, yields R (k a)) -> yields R (bind m k).
Proof.
  intros Hk s b. unfold bind.
  destruct (m s) as [[[a|c|e] s1] ev1]; try discriminate.
  specialize (Hk a s1 b). destruct (k a s1) as [[o s2] ev2]. exact Hk.
Qed.

Lemma yields_ret {A} (R : A -> Prop) (a : A) : R a -> yields R (@ret DB A a).
Proof. intros H s a' E. injection E as <-. exact H. Qed.

Lemma yields_throw {A} (R : A -> Prop) e : yields R (@throw DB A e).
Proof. intros s a. discriminate. Qed.

Lemma yields_exit {A} (R : A -> Prop) c : yields R (@exit DB A c).
Proof. intros s a. discriminate. Qed.

(** A step of a task that awaits [resume] is as orderly as [resume]. *)
Lemma orderly_await (resume : M DB (Task DB)) :
  orderly resume -> yields orderly_task resume ->
  orderly (await resume) /\ yields orderly_task (await resume).
Proof.
  intros Ho Hy. split; [apply orderly_ret|].
  apply yields_ret. now constructor.
Qed.

Lemma orderly_finish (t : Task DB) : orderly_task t -> orderly (finish t).
Proof.
  induction 1 as [|resume Ho _ IH]; [apply orderly_ret|].
  cbn [finish]. apply orderly_bind_run; [exact Ho|]. exact IH.
Qed.

Lemma Forall_firstn {A} (P : A -> Prop) i (l : list A) :
  Forall P l -> Forall P (firstn i l).
Proof.
  intros H. revert i. induction H as [|x l Hx _ IH]; intros [|i]; cbn;
    constructor; auto.
Qed.

Lemma Forall_skipn {A} (P : A -> Prop) i (l : list A) :
  Forall P l -> Forall P (skipn i l).
Proof.
  intros H. revert i. induction H as [|x l Hx Hl IH]; intros [|i]; cbn;
    try constructor; auto.
Qed.

Lemma Forall_nth_error {A} (P : A -> Prop) i (l : list A) x :
  Forall P l -> nth_error l i = Some x -> P x.
Proof.
  intros H E. rewrite Forall_forall in H. apply H.
  now apply nth_error_In with (n := i).
Qed.

Lemma orderly_pool_without i (pool : list (M DB (Task DB))) :
  orderly_pool pool -> orderly_pool (without i pool).
Proof.
  intros H. apply Forall_app. split;
    [now apply Forall_firstn | now apply Forall_skipn].
Qed.

Lemma orderly_pool_after_turn i t (pool : list (M DB (Task DB))) :
  orderly_pool pool -> orderly_task t -> orderly_pool (after_turn i t pool).
Proof.
  intros H Ht. destruct t as [|resume]; cbn [after_turn].
  - now apply orderly_pool_without.
  - apply Forall_app. split; [now apply Forall_firstn|].
    constructor; [exact Ht | now apply Forall_skipn].
Qed.

(** What a turn of a pending task leaves of an orderly pool. *)
Lemma orderly_turn i resume (pool : list (M DB (Task DB))) :
  orderly_pool pool -> nth_error pool i = Some resume ->
  orderly (settles resume)
  /\ forall s r, outcome_of (settles resume s) = Returned r ->
       orderly_pool match r with
                    | inl t => after_turn i t pool
                    | inr _ => without i pool
                    end.
Proof.
  intros H E. pose proof (Forall_nth_error _ _ _ _ H E) as Hr.
  inversion Hr as [|r Ho Hy]; subst. split; [now apply orderly_settles|].
  intros s r. rewrite settles_run. unfold outcome_of at 1. cbn [fst].
  destruct (outcome_of (resume s)) as [t|c|e] eqn:Ht; try discriminate.
  - intros E'. injection E' as <-. apply orderly_pool_after_turn; [exact H|].
    now apply (Hy s).
  - intros E'. injection E' as <-. now apply orderly_pool_without.
Qed.

Lemma orderly_in_order (pool : list (M DB (Task DB))) :
  orderly_pool pool ->
  orderly (in_order pool)
  /\ yields (fun st => orderly_pool (left_pending st)) (in_order pool).
Proof.
  induction 1 as [|resume rest Hr Hrest [IHo IHy]]; cbn [in_order].
  - split; [apply orderly_ret | apply yields_ret; constructor].
  - split.
    + apply orderly_bind; [now apply orderly_settles, orderly_finish|].
      intros [u|e]; [exact IHo | apply orderly_ret].
    + apply yields_bind. intros [u|e]; [exact IHy | now apply yields_ret].
Qed.

Lemma orderly_Promise_all schedule :
  forall pool : list (M DB (Task DB)),
    orderly_pool pool ->
    orderly (Promise_all schedule pool)
    /\ yields (fun st => orderly_pool (left_pending st))
              (Promise_all schedule pool).
Proof.
  induction schedule as [|[i|] schedule IH]; intros pool H; cbn [Promise_all].
  - now apply orderly_in_order.
  - destruct (nth_error pool i) as [resume|] eqn:E; [|now apply IH].
    destruct (orderly_turn i resume pool H E) as [Ho Hp]. split.
    + apply orderly_bind_run; [exact Ho|]. intros s [t|e] Hr.
      * apply IH. exact (Hp s (inl t) Hr).
      * apply orderly_ret.
    + intros s st. unfold bind.
      specialize (Hp s). destruct (settles resume s) as [[[r|c|e] s1] ev1];
        try discriminate.
      specialize (Hp r eq_refl). destruct r as [t|e].
      * destruct (IH _ Hp) as [_ Hy]. specialize (Hy s1 st).
        destruct (Promise_all schedule (after_turn i t pool) s1) as [[o s2] ev2].
        exact Hy.
      * cbn. intros E'. injection E' as <-. exact Hp.
  - now apply IH.
Qed.

Lemma orderly_meanwhile schedule :
  forall pending : list (M DB (Task DB)),
    orderly_pool pending ->
    orderly (meanwhile schedule pending)
    /\ yields (fun rest => orderly_pool (snd rest)) (meanwhile schedule pending).
Proof.
  induction schedule as [|[i|] schedule IH]; intros pool H; cbn [meanwhile].
  - split; [apply orderly_ret | now apply yields_ret].
  - destruct (nth_error pool i) as [resume|] eqn:E; [|now apply IH].
    destruct (orderly_turn i resume pool H E) as [Ho Hp]. split.
    + apply orderly_bind_run; [exact Ho|]. intros s r Hr.
      apply IH. exact (Hp s r Hr).
    + intros s st. unfold bind.
      specialize (Hp s). destruct (settles resume s) as [[[r|c|e] s1] ev1];
        try discriminate.
      specialize (Hp r eq_refl).
      destruct (IH _ Hp) as [_ Hy]. specialize (Hy s1 st).
      match goal with |- context [meanwhile schedule ?p s1] =>
        destruct (meanwhile schedule p s1) as [[o s2] ev2] end.
      exact Hy.
  - split; [apply orderly_ret | now apply yields_ret].
Qed.

Lemma orderly_finish_all (pool : list (M DB (Task DB))) :
  orderly_pool pool -> orderly (finish_all pool).
Proof.
  induction 1 as [|resume rest Hr Hrest IH]; cbn [finish_all].
  - apply orderly_ret.
  - apply orderly_bind; [now apply orderly_settles, orderly_finish|].
    intros _. exact IH.
Qed.

Lemma orderly_run_out schedule :
  forall pending : list (M DB (Task DB)),
    orderly_pool pending -> orderly (run_out schedule pending).
Proof.
  induction schedule as [|[i|] schedule IH]; intros pool H; cbn [run_out].
  - now apply orderly_finish_all.
  - destruct (nth_error pool i) as [resume|] eqn:E; [|now apply IH].
    destruct (orderly_turn i resume pool H E) as [Ho Hp].
    apply orderly_bind_run; [exact Ho|]. intros s r Hr.
    apply IH. exact (Hp s r Hr).
  - now apply IH.
Qed.

Lemma yields_bind_from {A B} (Q : A -> Prop) (R : B -> Prop)
      (m : M DB A) (k : A -> M DB B) :
  yields Q m -> (forall a, Q a -> yields R (k a)) -> yields R (bind m k).
Proof.
  intros Hm Hk s b. specialize (Hm s). unfold bind.
  destruct (m s) as [[[a|c|e] s1] ev1]; try discriminate.
  specialize (Hk a (Hm a eq_refl) s1 b).
  destruct (k a s1) as [[o s2] ev2]. exact Hk.
Qed.

Lemma emits_bind_yields {A B} P (Q : A -> Prop) (m : M DB A) (k : A -> M DB B) :
  emits P m -> yields Q m -> (forall a, Q a -> emits P (k a)) ->
  emits P (bind m k).
Proof.
  intros Hm Hy Hk. apply emits_bind_run; [exact Hm|].
  intros s a H. apply Hk. exact (Hy s a H).
Qed.

Lemma never_returns_bind {A B} (m : M DB A) (k : A -> M DB B) :
  (forall a, never_returns (k a)) -> never_returns (bind m k).
Proof.
  intros Hk s b. unfold bind.
  destruct (m s) as [[[a|c|e] s1] ev1]; try discriminate.
  specialize (Hk a s1 b). destruct (k a s1) as [[o s2] ev2]. exact Hk.
Qed.

Lemma never_returns_throw {A} e : never_returns (@throw DB A e).
Proof. intros s a. discriminate. Qed.

Lemma never_returns_exit {A} c : never_returns (@exit DB A c).
Proof. intros s a. discriminate. Qed.

Lemma bind_events {A B} (m : M DB A) (k : A -> M DB B) s :
  exists tl, events_of (bind m k s) = events_of (m s) ++ tl.
Proof.
  unfold bind. destruct (m s) as [[[a|c|e] s1] ev1].
  - destruct (k a s1) as [[o s2] ev2]. now exists ev2.
  - exists []. unfold events_of. cbn. now rewrite app_nil_r.
  - exists []. unfold events_of. cbn. now rewrite app_nil_r.
Qed.

Lemma never_rejects_settles {A} (m : M DB A) : never_rejects (settles m).
Proof.
  intros s e. rewrite settles_run. unfold outcome_of at 1. cbn [fst].
  destruct (outcome_of (m s)); discriminate.
Qed.

Lemma never_rejects_bind {A B} (m : M DB A) (k : A -> M DB B) :
  never_rejects m -> (forall a, never_rejects (k a)) -> never_rejects (bind m k).
Proof.
  intros Hm Hk s e. specialize (Hm s e). unfold bind.
  destruct (m s) as [[[a|c|e'] s1] ev1]; unfold outcome_of in *; cbn [fst] in *;
    [|discriminate|congruence].
  specialize (Hk a s1 e). destruct (k a s1) as [[o s2] ev2]. exact Hk.
Qed.

Lemma never_rejects_ret {A} (a : A) : never_rejects (@ret DB A a).
Proof. intros s e. discriminate. Qed.

Lemma meanwhile_never_rejects schedule :
  forall pending : list (M DB (Task DB)),
    never_rejects (meanwhile schedule pending).
Proof.
  induction schedule as [|[i|] schedule IH]; intros pending; cbn [meanwhile].
  - apply never_rejects_ret.
  - destruct (nth_error pending i) as [resume|]; [|apply IH].
    apply never_rejects_bind; [apply never_rejects_settles|]. intros r. apply IH.
  - apply never_rejects_ret.
Qed.

(** With no task pending, the handler has nothing to wait for but its
    own replies. *)
Lemma meanwhile_nothing schedule (s : State DB) :
  exists schedule',
    meanwhile schedule [] s = (Returned (schedule', []), s, []).
Proof.
  induction schedule as [|[i|] schedule IH]; cbn [meanwhile].
  - now exists [].
  - destruct i; exact IH.
  - now exists schedule.
Qed.

Lemma statements_app a b : statements (a ++ b) = statements a ++ statements b.
Proof. unfold statements. apply flat_map_app. Qed.

Lemma gives_ret {A} (Q : A -> Prop) (a : A) : Q a -> gives Q [] (@ret DB A a).
Proof. intros H s. now exists a. Qed.

Lemma gives_bind {A B} (Q : A -> Prop) (R : B -> Prop) la lb
      (m : M DB A) (k : A -> M DB B) :
  gives Q la m -> (forall a, Q a -> gives R lb (k a)) ->
  gives R (la ++ lb) (bind m k).
Proof.
  intros Hm Hk s. destruct (Hm s) as (a & Ha & HQ & Hla). unfold bind.
  destruct (m s) as [[o s1] ev1]. unfold outcome_of, events_of in Ha, Hla.
  cbn [fst snd] in Ha, Hla. subst o.
  destruct (Hk a HQ s1) as (b & Hb & HR & Hlb).
  destruct (k a s1) as [[o s2] ev2]. unfold outcome_of, events_of in *.
  cbn [fst snd] in *. exists b. now rewrite statements_app, Hla, Hlb.
Qed.

Lemma gives_log {A} (R : A -> Prop) l lvl msg (k : unit -> M DB A) :
  gives R l (k tt) -> gives R l (bind (log lvl msg) k).
Proof.
  intros H. change l with ([] ++ l).
  apply gives_bind with (Q := fun _ => True); [|now intros []].
  intros s. now exists tt.
Qed.

Lemma owes_step l1 l2 (resume : M DB (Task DB)) :
  sends l1 l2 resume -> owes (Awaiting resume) (l1 ++ l2).
Proof.
  intros H. constructor.
  - intros s. destruct (H s) as (t & Ht & _ & Hl). now exists t.
  - intros s t Ht. destruct (H s) as (t' & Ht' & Ho & _). congruence.
Qed.

Lemma owes_sends l (resume : M DB (Task DB)) :
  owes (Awaiting resume) l -> exists l1 l2, l = l1 ++ l2 /\ sends l1 l2 resume.
Proof.
  intros H. inversion H as [|r l1 l2 Hgo Hnext]; subst.
  exists l1, l2. split; [reflexivity|]. intros s.
  destruct (Hgo s) as (t & Ht & Hl). exists t. eauto.
Qed.

Lemma owes_finish (t : Task DB) l :
  owes t l ->
  forall s, outcome_of (finish t s) = Returned tt
            /\ statements (events_of (finish t s)) = l.
Proof.
  induction 1 as [|resume l1 l2 Hgo _ IH]; intros s; [now split|].
  cbn [finish]. destruct (Hgo s) as (t & Ht & Hl). specialize (IH s t Ht).
  unfold bind. destruct (resume s) as [[o s1] ev1].
  unfold outcome_of, events_of in Ht, Hl. cbn [fst snd] in Ht, Hl. subst o.
  specialize (IH s1). destruct (finish t s1) as [[o s2] ev2].
  unfold outcome_of, events_of in *. cbn [fst snd] in *.
  destruct IH as [-> IH]. now rewrite statements_app, Hl, IH.
Qed.

Lemma in_order_owing (pool : list (M DB (Task DB))) ls :
  owing pool ls ->
  forall s, exists s' evs,
    in_order pool s = (Returned Fulfilled, s', evs)
    /\ statements evs = List.concat ls.
Proof.
  induction 1 as [|resume l pool ls Hr _ IH]; intros s; cbn [in_order].
  - now exists s, [].
  - destruct (owes_finish _ _ Hr s) as [Ho Hl].
    unfold bind. rewrite settles_run, Ho.
    destruct (IH (state_of (finish (Awaiting resume) s))) as (s' & evs & E & Hst).
    rewrite E. exists s', (events_of (finish (Awaiting resume) s) ++ evs).
    split; [reflexivity|]. cbn [List.concat]. now rewrite statements_app, Hl, Hst.
Qed.

Lemma firstn_middle {A} (p1 p2 : list A) x :
  firstn (List.length p1) (p1 ++ x :: p2) = p1.
Proof. induction p1 as [|a p1 IH]; cbn; congruence. Qed.

Lemma skipn_middle {A} (p1 p2 : list A) x :
  skipn (S (List.length p1)) (p1 ++ x :: p2) = p2.
Proof. induction p1 as [|a p1 IH]; cbn in *; congruence. Qed.

Lemma after_turn_split t (p1 p2 : list (M DB (Task DB))) resume :
  after_turn (List.length p1) t (p1 ++ resume :: p2)
  = p1 ++ match t with Settled => [] | Awaiting r => [r] end ++ p2.
Proof.
  destruct t; cbn [after_turn]; unfold without;
    now rewrite firstn_middle, skipn_middle.
Qed.

(** Tasks that do not fail: under any order of arrival [Promise.all]
    resolves, and what has been sent is what each task owed. *)
Lemma Promise_all_owing schedule :
  forall (pool : list (M DB (Task DB))) ls (s : State DB),
    owing pool ls ->
    exists s' evs,
      Promise_all schedule pool s = (Returned Fulfilled, s', evs)
      /\ Permutation (statements evs) (List.concat ls).
Proof.
  induction schedule as [|[i|] schedule IH]; intros pool ls s H;
    cbn [Promise_all].
  - destruct (in_order_owing pool ls H s) as (s' & evs & E & Hst).
    exists s', evs. split; [exact E|]. now rewrite Hst.
  - destruct (nth_error pool i) as [resume|] eqn:E; [|now apply IH].
    apply nth_error_split in E. destruct E as (p1 & p2 & -> & <-).
    apply Forall2_app_inv_l in H. destruct H as (ls1 & ls2' & H1 & H2 & ->).
    inversion H2 as [|r l p2' ls2 Hr H2']; subst.
    inversion Hr as [|r' l1 l2 Hgo Hnext]; subst.
    destruct (Hgo s) as (t & Ht & Hst). specialize (Hnext s t Ht).
    rewrite concat_app. cbn [List.concat].
    assert (Hpool : owing (after_turn (List.length p1) t (p1 ++ resume :: p2))
                          (ls1 ++ match t with Settled => [] | _ => [l2] end
                               ++ ls2)).
    { rewrite after_turn_split. apply Forall2_app; [exact H1|].
      destruct t as [|r']; [exact H2' | now constructor]. }
    assert (Hconcat : List.concat (ls1 ++ match t with Settled => [] | _ => [l2] end
                                  ++ ls2)
                      = List.concat ls1 ++ l2 ++ List.concat ls2).
    { rewrite concat_app. f_equal. destruct t as [|r']; [|reflexivity].
      inversion Hnext. reflexivity. }
    unfold bind. rewrite settles_run, Ht.
    destruct (IH _ _ (state_of (resume s)) Hpool) as (s' & evs & E & Hperm).
    rewrite E. exists s', (events_of (resume s) ++ evs).
    split; [reflexivity|].
    rewrite statements_app, Hst. rewrite Hconcat in Hperm.
    rewrite <- app_assoc.
    apply Permutation_trans with (l' := l1 ++ List.concat ls1 ++ l2 ++ List.concat ls2).
    + now apply Permutation_app_head.
    + apply Permutation_app_swap_app.
  - now apply IH.
Qed.

Lemma bind_assoc {A B C} (m : M DB A) (k : A -> M DB B) (h : B -> M DB C) s :
  bind (bind m k) h s = bind m (fun a => bind (k a) h) s.
Proof.
  unfold bind. destruct (m s) as [[[a|c|e] s1] ev1]; try reflexivity.
  destruct (k a s1) as [[[b|c|e] s2] ev2]; try reflexivity.
  destruct (h b s2) as [[o s3] ev3]. now rewrite app_assoc.
Qed.

Lemma bind_ext {A B} (m : M DB A) (k k' : A -> M DB B) s :
  (forall a s', k a s' = k' a s') -> bind m k s = bind m k' s.
Proof.
  intros H. unfold bind. destruct (m s) as [[[a|c|e] s1] ev1]; try reflexivity.
  now rewrite H.
Qed.

End MonadFacts.

(** ** Facts on the monitor *)

Ltac emits_step :=
  match goal with
  | |- emits _ (bind _ _) => apply emits_bind; [|intros ?]
  | |- emits _ (catch _ _) => apply emits_catch; [|intros ?]
  | |- emits _ (ret _) => apply emits_ret
  | |- emits _ (exit _) => apply emits_exit
  | |- emits _ (throw _) => apply emits_throw
  | |- emits _ increment_counter => apply emits_increment
  | |- emits _ (if ?b then _ else _) => destruct b
  | |- emits _ (match ?x with _ => _ end) => destruct x
  | |- emits _ _ => apply emits_emit; reflexivity
  end.

Ltac frames_step :=
  match goal with
  | |- frames (bind _ _) => apply frames_bind; [|intros ?]
  | |- frames (ret _) => apply frames_ret
  | |- frames (exit _) => apply frames_exit
  | |- frames (throw _) => apply frames_throw
  | |- frames (if ?b then _ else _) => destruct b
  | |- frames (match ?x with _ => _ end) => destruct x
  | |- frames _ => apply frames_emit
  end.

Section ProgramFacts.

Context {DB : Type} {monitor : Monitor DB}.

Lemma query_Resolves q (s : State DB) d r :
  exec q (live (session s)) = (d, Resolves r) ->
  query q s = (Returned r, set_live s d, [EvQuery (Sql q)]).
Proof. intros H. unfold query, bind, query_reply. now rewrite H. Qed.

Lemma query_Rejects q (s : State DB) d e :
  exec q (live (session s)) = (d, Rejects e) ->
  query q s = (Rejected e, set_live s d, [EvQuery (Sql q)]).
Proof. intros H. unfold query, bind, query_reply. now rewrite H. Qed.

Lemma emits_query_reply P q :
  P (EvQuery (Sql q)) = true -> emits P (query_reply q).
Proof.
  intros H s. unfold query_reply.
  destruct (exec q (live (session s))) as [d r]. simpl. now rewrite H.
Qed.

Lemma emits_query P q : P (EvQuery (Sql q)) = true -> emits P (query q).
Proof.
  intros H. unfold query. apply emits_bind.
  - now apply emits_query_reply.
  - intros r. repeat emits_step.
Qed.

Lemma emits_first_row P res : emits P (first_row (DB:=DB) res).
Proof. unfold first_row. repeat emits_step. Qed.

Lemma emits_decode_log P id l :
  P (EvSetDecodedLog id l) = true -> emits P (decode_log id l).
Proof.
  intros H s. unfold decode_log.
  destruct (setDecodedLog id l (live (session s))) as [d r]. simpl.
  now rewrite H.
Qed.

Lemma frames_query_reply q : frames (query_reply q).
Proof.
  intros s. unfold query_reply.
  destruct (exec q (live (session s))) as [d r]. now split.
Qed.

Lemma frames_query q : frames (query q).
Proof.
  unfold query. apply frames_bind.
  - apply frames_query_reply.
  - intros r. repeat frames_step.
Qed.

Lemma frames_first_row res : frames (first_row (DB:=DB) res).
Proof. unfold first_row. repeat frames_step. Qed.

Lemma frames_decode_log id l : frames (decode_log id l).
Proof.
  intros s. unfold decode_log.
  destruct (setDecodedLog id l (live (session s))) as [d r]. now split.
Qed.

Lemma emits_addLogs t logs : emits task_vocabulary (addLogs t logs).
Proof.
  induction logs as [|l rest IH]; simpl; [apply emits_ret|].
  apply emits_bind; [now apply emits_query|]. intros logResult.
  destruct logResult as [res|].
  - destruct (rowCount res =? 0).
    + apply emits_bind; [apply emits_emit; reflexivity | intros; exact IH].
    + apply emits_bind; [apply emits_first_row|]. intros r0.
      apply emits_bind; [now apply emits_decode_log | intros; exact IH].
  - apply emits_bind; [apply emits_emit; reflexivity | intros; exact IH].
Qed.

Lemma frames_addLogs t logs : frames (addLogs t logs).
Proof.
  induction logs as [|l rest IH]; simpl; [apply frames_ret|].
  apply frames_bind; [apply frames_query|]. intros logResult.
  destruct logResult as [res|].
  - destruct (rowCount res =? 0).
    + apply frames_bind; [apply frames_emit | intros; exact IH].
    + apply frames_bind; [apply frames_first_row|]. intros r0.
      apply frames_bind; [apply frames_decode_log | intros; exact IH].
  - apply frames_bind; [apply frames_emit | intros; exact IH].
Qed.

Lemma emits_getTransaction bh t :
  emits task_vocabulary (getTransaction bh t).
Proof.
  unfold getTransaction.
  destruct (getTransactionReceipt (tx_hash t)) as [e|[receipt|]];
    [apply emits_throw| |apply emits_emit; reflexivity].
  apply emits_bind; [now apply emits_query|]. intros result.
  destruct (no_rows result).
  - unfold release. repeat emits_step.
  - destruct (rc_logs receipt) as [[|l logs]|]; try apply emits_ret.
    apply emits_bind; [now apply emits_query|]. intros _.
    apply emits_addLogs.
Qed.

Lemma frames_getTransaction bh t : frames (getTransaction bh t).
Proof.
  unfold getTransaction.
  destruct (getTransactionReceipt (tx_hash t)) as [e|[receipt|]];
    [apply frames_throw| |apply frames_emit].
  apply frames_bind; [apply frames_query|]. intros result.
  destruct (no_rows result).
  - unfold release. repeat frames_step.
  - destruct (rc_logs receipt) as [[|l logs]|]; try apply frames_ret.
    apply frames_bind; [apply frames_query|]. intros _.
    apply frames_addLogs.
Qed.

Lemma request_receipts_run txs (s : State DB) :
  request_receipts txs s =
  (Returned tt, s, map (fun t => EvGetTransactionReceipt (tx_hash t)) txs).
Proof.
  induction txs as [|t rest IH]; [reflexivity|].
  simpl. unfold bind. simpl. now rewrite IH.
Qed.

Lemma frames_addOmmers nibling ommers : frames (addOmmers nibling ommers).
Proof.
  induction ommers as [|o rest IH]; simpl; [apply frames_ret|].
  apply frames_bind; [apply frames_query_reply|]. intros r.
  apply frames_bind; [exact IH | intros; apply frames_ret].
Qed.

Lemma emits_addOmmers callbacks nibling ommers :
  emits (persist_vocabulary callbacks) (addOmmers nibling ommers).
Proof.
  induction ommers as [|o rest IH]; simpl; [apply emits_ret|].
  apply emits_bind; [now apply emits_query_reply|]. intros r.
  apply emits_bind; [exact IH | intros; apply emits_ret].
Qed.

Lemma task_in_persist callbacks e :
  task_vocabulary e = true -> persist_vocabulary callbacks e = true.
Proof.
  destruct e as [| | |[| | |q]| | | | | |]; simpl; try discriminate;
    try reflexivity.
  destruct q; simpl; intros; congruence.
Qed.

Lemma persist_in_delivery callbacks e :
  persist_vocabulary callbacks e = true -> delivery_vocabulary callbacks e = true.
Proof.
  destruct e, callbacks; simpl; try reflexivity; try discriminate.
  all: destruct s; simpl; try discriminate; destruct q; discriminate.
Qed.

Lemma query_events q (s : State DB) : events_of (query q s) = [EvQuery (Sql q)].
Proof.
  unfold query, bind, query_reply.
  destruct (exec q (live (session s))) as [d [e|r]]; reflexivity.
Qed.

Lemma control_run st (s : State DB) :
  control st s =
  match transaction_reply st (live (session s)) with
  | Some e => (Rejected e, s, [EvQuery st])
  | None =>
      (Returned tt,
       mkState (match st with
                | BEGIN => run_begin
                | COMMIT => run_commit
                | ROLLBACK => run_rollback
                | Sql _ => fun x => x
                end (session s)) (comprehensiveReviewCounter s),
       [EvQuery st])
  end.
Proof.
  unfold control, bind, control_reply.
  destruct (transaction_reply st (live (session s))); reflexivity.
Qed.

Lemma emits_control_reply P st :
  P (EvQuery st) = true -> emits P (control_reply st).
Proof.
  intros H s. unfold control_reply.
  destruct (transaction_reply st (live (session s))); simpl; now rewrite H.
Qed.

Lemma emits_control P st : P (EvQuery st) = true -> emits P (control st).
Proof.
  intros H s. rewrite control_run.
  destruct (transaction_reply st (live (session s))); simpl; now rewrite H.
Qed.

Lemma orderly_query_reply q :
  task_vocabulary (EvQuery (Sql q)) = true -> orderly (query_reply q).
Proof.
  intros H. split; [|split].
  - now apply emits_query_reply.
  - apply frames_query_reply.
  - intros s c. unfold query_reply.
    destruct (exec q (live (session s))) as [d r]. discriminate.
Qed.

Lemma orderly_settle reply : orderly (@settle DB reply).
Proof. destruct reply; [apply orderly_throw | apply orderly_ret]. Qed.

Lemma orderly_first_row res : orderly (@first_row DB res).
Proof.
  unfold first_row. destruct (rows res); [apply orderly_throw | apply orderly_ret].
Qed.

Lemma orderly_decode_log_reply id l : orderly (decode_log_reply id l).
Proof.
  split; [|split]; intros s; unfold decode_log_reply;
    destruct (setDecodedLog id l (live (session s))) as [d r].
  - reflexivity.
  - now split.
  - intros c. discriminate.
Qed.

Lemma orderly_log lvl msg : orderly (@log DB lvl msg).
Proof. now apply orderly_emit. Qed.

Lemma step_bind {A} (m : M DB A) (k : A -> M DB (Task DB)) :
  orderly m -> (forall a, orderly_step (k a)) -> orderly_step (bind m k).
Proof.
  intros Hm Hk. split.
  - apply orderly_bind; [exact Hm|]. intros a. apply Hk.
  - apply yields_bind. intros a. apply Hk.
Qed.

Lemma step_await (resume : M DB (Task DB)) :
  orderly_step resume -> orderly_step (await resume).
Proof. intros [Ho Hy]. now apply orderly_await. Qed.

Lemma step_settled : orderly_step (@ret DB _ Settled).
Proof. split; [apply orderly_ret | apply yields_ret; constructor]. Qed.

Lemma step_throw e : orderly_step (@throw DB _ e).
Proof. split; [apply orderly_throw | apply yields_throw]. Qed.

Lemma step_exit : orderly_step (@exit DB _ 1).
Proof. split; [apply orderly_exit | apply yields_exit]. Qed.

Lemma step_task (resume : M DB (Task DB)) :
  orderly_step resume -> orderly_task (Awaiting resume).
Proof. intros [Ho Hy]. now constructor. Qed.

Lemma addLogs_task_step t logs : orderly_step (addLogs_task t logs).
Proof.
  induction logs as [|l rest IH]; cbn [addLogs_task]; [apply step_settled|].
  apply step_bind; [now apply orderly_query_reply|]. intros reply.
  apply step_await, step_bind; [apply orderly_settle|]. intros [res|].
  - destruct (rowCount res =? 0).
    + apply step_bind; [apply orderly_log | intros _; exact IH].
    + apply step_bind; [apply orderly_first_row|]. intros r0.
      apply step_bind; [apply orderly_decode_log_reply|]. intros [e|].
      * apply step_await, step_throw.
      * apply step_await, IH.
  - apply step_bind; [apply orderly_log | intros _; exact IH].
Qed.

Lemma getTransaction_task_step bh t : orderly_step (getTransaction_task bh t).
Proof.
  unfold getTransaction_task.
  destruct (getTransactionReceipt (tx_hash t)) as [e|[receipt|]].
  - apply step_throw.
  - apply step_bind; [now apply orderly_query_reply|]. intros reply.
    apply step_await, step_bind; [apply orderly_settle|]. intros result.
    destruct (no_rows result).
    + unfold release, log.
      repeat (apply step_bind; [now apply orderly_emit | intros _]).
      apply step_exit.
    + destruct (rc_logs receipt) as [[|l logs]|]; try apply step_settled.
      apply step_bind; [now apply orderly_query_reply|]. intros reply'.
      apply step_await, step_bind; [apply orderly_settle|]. intros _.
      apply addLogs_task_step.
  - apply step_bind; [apply orderly_log | intros _; apply step_settled].
Qed.

(** A task that nothing interrupts does what the function does when it is
    read through: [addLogs_task] and [getTransaction_task], run alone to
    their end, are [addLogs] and [getTransaction]. *)
Lemma addLogs_alone t logs :
  forall s : State DB, bind (addLogs_task t logs) finish s = addLogs t logs s.
Proof.
  induction logs as [|l rest IH]; intros s; [reflexivity|].
  cbn [addLogs_task addLogs]. unfold query. rewrite !bind_assoc.
  apply bind_ext. intros reply s1.
  unfold await. rewrite bind_ret. cbn [finish]. rewrite bind_assoc.
  apply bind_ext. intros logResult s2.
  assert (Hskip : bind (log Error "** Could not store log" ;;
                        addLogs_task t rest) finish s2
                  = (log Error "** Could not store log" ;; addLogs t rest) s2).
  { rewrite bind_assoc. apply bind_ext. intros _ s3. apply IH. }
  destruct logResult as [res|]; [|exact Hskip].
  destruct (rowCount res =? 0); [exact Hskip|].
  rewrite bind_assoc. apply bind_ext. intros r0 s3. rewrite bind_assoc.
  unfold bind at 1 3, decode_log_reply, decode_log.
  destruct (setDecodedLog (log_id r0) l (live (session s3))) as [d [e|]].
  - rewrite bind_ret. reflexivity.
  - rewrite bind_ret. cbn [finish]. rewrite IH.
    now destruct (addLogs t rest (set_live s3 d)) as [[o s4] ev4].
Qed.

Lemma getTransaction_alone bh t (s : State DB) :
  finish (Awaiting (getTransaction_task bh t)) s = getTransaction bh t s.
Proof.
  cbn [finish]. unfold getTransaction_task, getTransaction.
  destruct (getTransactionReceipt (tx_hash t)) as [e|[receipt|]];
    try reflexivity.
  unfold query. rewrite !bind_assoc. apply bind_ext. intros reply s1.
  unfold await. rewrite bind_ret. cbn [finish]. rewrite bind_assoc.
  apply bind_ext. intros result s2.
  destruct (no_rows result); [reflexivity|].
  destruct (rc_logs receipt) as [[|l logs]|]; try reflexivity.
  rewrite !bind_assoc. apply bind_ext. intros reply' s3.
  rewrite bind_ret. cbn [finish]. rewrite bind_assoc.
  apply bind_ext. intros _ s4. apply addLogs_alone.
Qed.

Lemma addOmmers_task_step r : orderly_step (@addOmmers_task DB r).
Proof. destruct r; [apply step_throw | apply step_settled]. Qed.

Lemma addOmmers_run nibling ommers :
  forall s : State DB,
  exists r s',
    addOmmers nibling ommers s =
    (Returned r, s',
     map (fun o => EvQuery (Sql (addOmmer blockchain_id o nibling))) ommers).
Proof.
  induction ommers as [|o rest IH]; intros s.
  - now exists None, s.
  - cbn [addOmmers map]. unfold bind at 1, query_reply.
    destruct (exec (addOmmer blockchain_id o nibling) (live (session s)))
      as [d r].
    destruct (IH (set_live s d)) as (r' & s' & Hrest).
    rewrite (bind_Returned _ _ _ _ _ _ Hrest). unfold ret.
    unfold outcome_of, state_of, events_of. cbn [fst snd app].
    rewrite app_nil_r. eexists; eexists; reflexivity.
Qed.

(** The pool that [start_promises] hands to [Promise.all] is orderly. *)
Lemma start_promises_pool block : yields orderly_pool (start_promises block).
Proof.
  unfold start_promises.
  apply yields_bind; intros _. apply yields_bind; intros _.
  apply yields_bind; intros _.
  apply yields_bind_from with (Q := orderly_pool).
  - destruct (uncles block) as [[|o os]|]; try (apply yields_ret; constructor).
    apply yields_bind. intros r. apply yields_ret. constructor; [|constructor].
    apply step_task, addOmmers_task_step.
  - intros ommers Ho. apply yields_bind. intros _. apply yields_ret.
    apply Forall_app. split; [exact Ho|].
    apply Forall_forall. intros r Hr. apply in_map_iff in Hr.
    destruct Hr as (t & <- & _). apply step_task, getTransaction_task_step.
Qed.

Lemma frames_start_promises_rest block :
  frames (_ <- query (deleteLogs blockchain_id (number block)) ;;
          _ <- query (deleteTransactions blockchain_id (number block)) ;;
          ommers <- match uncles block with
                    | Some (o :: os) =>
                        first_rejection <- addOmmers (hash block) (o :: os) ;;
                        ret [@addOmmers_task DB first_rejection]
                    | _ => ret []
                    end ;;
          request_receipts (transactions block) ;;
          ret (ommers ++ map (getTransaction_task (hash block))
                             (transactions block))).
Proof.
  apply frames_bind; [apply frames_query|]. intros _.
  apply frames_bind; [apply frames_query|]. intros _.
  apply frames_bind.
  - destruct (uncles block) as [[|o os]|]; try apply frames_ret.
    apply frames_bind; [apply frames_addOmmers | intros; apply frames_ret].
  - intros ommers. apply frames_bind; [|intros; apply frames_ret].
    intros x. rewrite request_receipts_run. now split.
Qed.

(** Once the tasks are started, BEGIN has been accepted: the snapshot is
    that of BEGIN. *)
Lemma start_promises_frame block (s s1 : State DB) promises ev1 :
  start_promises block s = (Returned promises, s1, ev1) ->
  transaction_reply BEGIN (live (session s)) = None
  /\ snapshot (session s1) = snapshot (run_begin (session s))
  /\ comprehensiveReviewCounter s1 = comprehensiveReviewCounter s.
Proof.
  unfold start_promises. intros H.
  apply bind_inv_Returned in H. destruct H as ([] & sa & eva & ev' & Ha & H & ->).
  rewrite control_run in Ha.
  destruct (transaction_reply BEGIN (live (session s))); [discriminate|].
  injection Ha as <- <-. split; [reflexivity|].
  pose proof (frames_start_promises_rest block
                (mkState (run_begin (session s)) (comprehensiveReviewCounter s)))
    as F.
  rewrite H in F. exact F.
Qed.

Lemma ommers_started block (s : State DB) :
  events_of ((match uncles block with
              | Some (o :: os) =>
                  first_rejection <- addOmmers (hash block) (o :: os) ;;
                  ret [@addOmmers_task DB first_rejection]
              | _ => ret []
              end) s)
  = map (fun o => EvQuery (Sql (addOmmer blockchain_id o (hash block))))
        (ommers_of block).
Proof.
  unfold ommers_of. destruct (uncles block) as [[|o os]|]; try reflexivity.
  destruct (addOmmers_run (hash block) (o :: os) s) as (r & s' & H).
  rewrite (bind_Returned _ _ _ _ _ _ H). unfold events_of. cbn [snd ret].
  now rewrite app_nil_r.
Qed.

Lemma start_promises_events block (s s1 : State DB) promises ev1 :
  start_promises block s = (Returned promises, s1, ev1) ->
  ev1 = [EvQuery BEGIN; EvQuery (Sql (deleteLogs blockchain_id (number block)));
         EvQuery (Sql (deleteTransactions blockchain_id (number block)))]
        ++ map (fun o => EvQuery (Sql (addOmmer blockchain_id o (hash block))))
               (ommers_of block)
        ++ map (fun t => EvGetTransactionReceipt (tx_hash t)) (transactions block).
Proof.
  unfold start_promises. intros H.
  apply bind_inv_Returned in H. destruct H as (? & sa & eva & ev' & Ha & H & ->).
  assert (eva = [EvQuery BEGIN]) as ->.
  { rewrite control_run in Ha.
    destruct (transaction_reply BEGIN (live (session s))); now injection Ha. }
  apply bind_inv_Returned in H. destruct H as (? & sb & evb & ev'' & Hb & H & ->).
  apply (f_equal events_of) in Hb. rewrite query_events in Hb.
  apply bind_inv_Returned in H. destruct H as (? & sc & evc & ev3 & Hc & H & ->).
  apply (f_equal events_of) in Hc. rewrite query_events in Hc.
  apply bind_inv_Returned in H. destruct H as (? & sd & evd & ev4 & Hd & H & ->).
  apply bind_inv_Returned in H. destruct H as (? & se & eve & ev5 & He & H & ->).
  rewrite request_receipts_run in He.
  assert (eve = map (fun t => EvGetTransactionReceipt (tx_hash t))
                    (transactions block)) as -> by (now injection He).
  assert (ev5 = []) as -> by (now injection H).
  apply (f_equal events_of) in Hd. rewrite ommers_started in Hd.
  unfold events_of in *; simpl in *. subst evb evc evd. simpl.
  now rewrite app_nil_r.
Qed.

Lemma emits_start_promises callbacks block :
  emits (persist_vocabulary callbacks) (start_promises block).
Proof.
  unfold start_promises.
  apply emits_bind; [now apply emits_control|]. intros _.
  apply emits_bind; [now apply emits_query|]. intros _.
  apply emits_bind; [now apply emits_query|]. intros _.
  apply emits_bind.
  - destruct (uncles block) as [[|o os]|]; try apply emits_ret.
    apply emits_bind; [apply emits_addOmmers | intros; apply emits_ret].
  - intros ommers. apply emits_bind; [|intros; apply emits_ret].
    intros x. rewrite request_receipts_run. unfold events_of. simpl.
    induction (transactions block); simpl; auto.
Qed.

Lemma emits_tasks {A} P (m : M DB A) :
  (forall e, task_vocabulary e = true -> P e = true) ->
  orderly m -> emits P m.
Proof. intros HP [He _]. now apply emits_weaken with (P := task_vocabulary). Qed.

(** The handler of a failed persist writes, besides what the pending
    tasks write, its ROLLBACK, its sleep and its two error lines. *)
Lemma emits_after_rollback P reply (schedule : list Turn) (pending : list (M DB (Task DB))) :
  (forall e, task_vocabulary e = true -> P e = true) ->
  P (EvSleep 1000) = true ->
  orderly_pool pending ->
  emits P (after_rollback reply schedule pending).
Proof.
  intros HP Hsleep Hpend. unfold after_rollback.
  destruct (orderly_meanwhile schedule pending Hpend) as [Ho Hy].
  apply emits_bind_yields with (Q := fun rest => orderly_pool (snd rest));
    [now apply emits_tasks | exact Hy |].
  intros rest Hrest. destruct reply as [e|].
  - apply emits_bind; [|intros; apply emits_throw].
    now apply emits_tasks, orderly_run_out.
  - unfold sleep, log.
    apply emits_bind; [now apply emits_emit|]. intros _.
    apply emits_bind;
      [now apply emits_tasks, (orderly_meanwhile (fst rest) (snd rest))|].
    intros _.
    apply emits_bind; [now apply emits_emit, HP|]. intros _.
    apply emits_bind; [now apply emits_emit, HP|]. intros _.
    apply emits_exit.
Qed.

Lemma emits_promises_failed P e (schedule : list Turn) (pending : list (M DB (Task DB))) :
  (forall e, task_vocabulary e = true -> P e = true) ->
  P (EvQuery ROLLBACK) = true ->
  P (EvSleep 1000) = true ->
  orderly_pool pending ->
  emits P (promises_failed e schedule pending).
Proof.
  intros HP Hrollback Hsleep Hpend. unfold promises_failed.
  apply emits_bind; [now apply emits_control_reply|]. intros reply.
  now apply emits_after_rollback.
Qed.

Lemma after_rollback_never_returns reply schedule pending :
  never_returns (@after_rollback DB reply schedule pending).
Proof.
  unfold after_rollback. apply never_returns_bind. intros rest.
  destruct reply as [e|].
  - apply never_returns_bind. intros _. apply never_returns_throw.
  - repeat (apply never_returns_bind; intros ?). apply never_returns_exit.
Qed.

Lemma promises_failed_never_returns e schedule pending :
  never_returns (promises_failed e schedule pending).
Proof.
  unfold promises_failed. apply never_returns_bind. intros reply.
  apply after_rollback_never_returns.
Qed.

Lemma emits_promises_done callbacks block :
  emits (persist_vocabulary callbacks) (promises_done callbacks block).
Proof.
  unfold promises_done, moveToNextBlock_handler, call_mainLoop.
  apply emits_bind; [now apply emits_control|]. intros _.
  destruct callbacks; cbn [hasOwnProperty]; repeat emits_step.
Qed.

Lemma emits_storeBlockAssocData callbacks block :
  emits (persist_vocabulary callbacks) (storeBlockAssocData callbacks block).
Proof.
  unfold storeBlockAssocData.
  apply emits_bind_yields with (Q := orderly_pool);
    [apply emits_start_promises | apply start_promises_pool |].
  intros promises Hp.
  destruct (orderly_Promise_all arrival promises Hp) as [Ho Hy].
  apply emits_bind_yields with (Q := fun st => orderly_pool (left_pending st));
    [apply emits_tasks; [apply task_in_persist | exact Ho] | exact Hy |].
  intros [|e schedule pending] Hpend; cbn [left_pending] in Hpend.
  - apply emits_catch; [apply emits_promises_done|]. intros e.
    apply emits_promises_failed;
      [apply task_in_persist | reflexivity | reflexivity | constructor].
  - apply emits_promises_failed;
      [apply task_in_persist | reflexivity | reflexivity | exact Hpend].
Qed.

Lemma statements_requests txs :
  statements (map (fun t => EvGetTransactionReceipt (tx_hash t)) txs) = [].
Proof. induction txs; simpl; auto. Qed.

Lemma getTransaction_no_receipt bh t (s : State DB) :
  getTransactionReceipt (tx_hash t) = ReceiptResolves None ->
  getTransaction bh t s =
  (Returned tt, s,
   [EvLog Info "Transaction receipt not found for block. Dropping out to be re-inserted at a later iteration."]).
Proof. intros H. unfold getTransaction. now rewrite H. Qed.

Lemma heights_In lo k p : In p (heights lo k) <-> lo <= p < lo + Z.of_nat k.
Proof.
  revert lo; induction k as [|k IH]; intros lo; simpl heights.
  - simpl. lia.
  - simpl In. rewrite IH. lia.
Qed.

Lemma for_upto_getBlock callbacks fuel p hi (s : State DB) :
  p + Z.of_nat fuel <= hi ->
  for_upto fuel p hi (fun q => getBlock q callbacks) s =
  (Returned tt, s, map (fun q => EvGetBlock q callbacks) (heights p fuel)).
Proof.
  revert p; induction fuel as [|fuel IH]; intros p Hp; [reflexivity|].
  cbn [for_upto heights map].
  destruct (p <? hi) eqn:E; [|apply Z.ltb_ge in E; lia].
  unfold bind, getBlock, emit. now rewrite IH by lia.
Qed.

Lemma for_range_getBlock callbacks lo hi (s : State DB) :
  lo <= hi ->
  for_range lo hi (fun q => getBlock q callbacks) s =
  (Returned tt, s,
   map (fun q => EvGetBlock q callbacks) (heights lo (Z.to_nat (hi - lo)))).
Proof. intros H. unfold for_range. apply for_upto_getBlock. lia. Qed.

Lemma atBlockchainHead_handler_run n (s : State DB) :
  atBlockchainHead_handler n s =
  (Returned tt,
   mkState (session s) (comprehensiveReviewCounter s + 1),
   if Z.rem (comprehensiveReviewCounter s + 1) comprehensiveReviewCountMod =? 0
   then EvLog Info "Performing a comprehensive review of the last blocks."
        :: map (fun p => EvGetBlock p no_callbacks) (heights (n - 100) 99)
        ++ [EvSleep 15000; EvMainLoop n]
   else map (fun p => EvGetBlock p review_callbacks) (heights (n - 15) 14)
        ++ [EvSleep 2500; EvMainLoop n]).
Proof.
  unfold atBlockchainHead_handler, bind at 1, increment_counter.
  set (s1 := mkState (session s) (comprehensiveReviewCounter s + 1)).
  unfold comprehensiveReviewBlockLimit, reviewBlockLimit.
  destruct (Z.rem _ _ =? 0).
  - unfold bind, log, sleep, call_mainLoop, emit.
    rewrite for_range_getBlock by lia.
    replace (n - 1 - (n - 100)) with 99 by lia. reflexivity.
  - unfold bind, log, sleep, call_mainLoop, emit.
    rewrite for_range_getBlock by lia.
    replace (n - 1 - (n - 15)) with 14 by lia.
    cbn [app]. now rewrite <- app_assoc.
Qed.

Lemma cycles_app a b : cycles (a ++ b) = (cycles a + cycles b)%nat.
Proof. unfold cycles. now rewrite filter_app, length_app. Qed.

Lemma reentries_app a b : reentries (a ++ b) = (reentries a + reentries b)%nat.
Proof. unfold reentries. now rewrite filter_app, length_app. Qed.

Lemma delivery_vocabulary_cycles callbacks evs :
  forallb (delivery_vocabulary callbacks) evs = true -> cycles evs = 0%nat.
Proof.
  unfold cycles. induction evs as [|e evs IH]; [reflexivity|].
  simpl. intros H. apply andb_prop in H. destruct H as [He H].
  destruct e; simpl in *; auto; discriminate.
Qed.

Lemma delivery_vocabulary_reentries callbacks evs :
  callbacks <> cursor_callbacks ->
  forallb (delivery_vocabulary callbacks) evs = true -> reentries evs = 0%nat.
Proof.
  intros Hc. unfold reentries. induction evs as [|e evs IH]; [reflexivity|].
  simpl. intros H. apply andb_prop in H. destruct H as [He H].
  destruct e; simpl in *; auto. destruct callbacks; congruence.
Qed.

Lemma emits_storeBlockAssocData_delivery callbacks block :
  emits (delivery_vocabulary callbacks) (storeBlockAssocData callbacks block).
Proof.
  apply emits_weaken with (P := persist_vocabulary callbacks);
    [apply persist_in_delivery | apply emits_storeBlockAssocData].
Qed.

Lemma forallb_fetches callbacks l tl :
  forallb (delivery_vocabulary cursor_callbacks) tl = true ->
  forallb (delivery_vocabulary cursor_callbacks)
          (map (fun p => EvGetBlock p callbacks) l ++ tl) = true.
Proof.
  intros H. rewrite forallb_app, H, andb_true_r.
  induction l as [|p l IH]; [reflexivity|]. cbn [map forallb]. now rewrite IH.
Qed.

Lemma emits_atBlockchainHead_handler n :
  emits (DB := DB) (delivery_vocabulary cursor_callbacks)
        (atBlockchainHead_handler n).
Proof.
  intros s. rewrite atBlockchainHead_handler_run. unfold events_of. cbn [snd].
  destruct (Z.rem _ _ =? 0).
  - cbn [forallb delivery_vocabulary andb]. now apply forallb_fetches.
  - now apply forallb_fetches.
Qed.

Lemma emits_getBlock_height_check n callbacks block :
  emits (delivery_vocabulary callbacks)
        (getBlock_height_check n callbacks block).
Proof.
  unfold getBlock_height_check.
  apply emits_bind; [now apply emits_query|]. intros numCheckRes.
  apply emits_bind.
  - destruct numCheckRes as [num|]; [|apply emits_ret].
    destruct (rowCount num =? 0); [apply emits_ret|].
    apply emits_bind; [apply emits_first_row | intros; apply emits_ret].
  - intros [|].
    + unfold blockAlreadyExists_handler, call_mainLoop, log.
      destruct callbacks; cbn [hasOwnProperty]; repeat emits_step.
    + apply emits_bind.
      * destruct numCheckRes; [apply emits_first_row | apply emits_throw].
      * intros _. apply emits_bind; [now apply emits_emit|]. intros _.
        apply emits_storeBlockAssocData_delivery.
Qed.

Lemma emits_getBlock_save callbacks block :
  emits (delivery_vocabulary callbacks) (getBlock_save callbacks block).
Proof.
  unfold getBlock_save.
  apply emits_bind; [now apply emits_query|]. intros result.
  destruct (no_rows result).
  - unfold release, log. repeat emits_step.
  - apply emits_storeBlockAssocData_delivery.
Qed.

Lemma emits_getBlock_reconcile n callbacks block :
  emits (delivery_vocabulary callbacks) (getBlock_reconcile n callbacks block).
Proof.
  unfold getBlock_reconcile.
  apply emits_bind; [now apply emits_query|]. intros checkRes.
  destruct (negb (no_rows checkRes)).
  - apply emits_bind.
    + destruct checkRes; [apply emits_first_row | apply emits_throw].
    + intros r0. destruct (same_count _ _).
      * apply emits_getBlock_height_check.
      * apply emits_bind; [now apply emits_emit|]. intros _.
        apply emits_storeBlockAssocData_delivery.
  - apply emits_bind; [|intros _; apply emits_getBlock_save].
    unfold foundDuringReviewBlock_handler, log.
    destruct callbacks; cbn [hasOwnProperty]; repeat emits_step.
Qed.

(** A delivery without error: no node cycle, and the flag is left alone. *)
Lemma emits_getBlock_callback n callbacks flag block :
  emits (delivery_vocabulary callbacks)
        (getBlock_callback n callbacks flag None block).
Proof.
  unfold getBlock_callback. destruct block as [b|].
  - apply emits_bind; [apply emits_getBlock_reconcile | intros; apply emits_ret].
  - apply emits_bind; [|intros; apply emits_ret].
    destruct callbacks; cbn [hasOwnProperty];
      [apply emits_atBlockchainHead_handler | apply emits_ret | apply emits_ret].
Qed.

Lemma getBlock_callback_flag n callbacks flag block (s : State DB) f :
  outcome_of (getBlock_callback n callbacks flag None block s) = Returned f ->
  f = flag.
Proof.
  unfold getBlock_callback. destruct block as [b|]; unfold bind.
  - destruct (getBlock_reconcile n callbacks b s) as [[[a|c|e] s1] ev1];
      unfold outcome_of; simpl; congruence.
  - destruct ((if hasOwnProperty callbacks atBlockchainHead
               then atBlockchainHead_handler n else ret tt) s)
      as [[[a|c|e] s1] ev1]; unfold outcome_of; simpl; congruence.
Qed.

Lemma deliver_cycles n callbacks ds :
  forall flag (s : State DB),
    (cycles (events_of (deliver n callbacks flag ds s))
     <= if flag then 0 else 1)%nat.
Proof.
  induction ds as [|d ds IH]; intros flag s.
  - destruct flag; cbn; lia.
  - cbn [deliver]. unfold bind at 1, detached.
    destruct (d_err d) as [e|] eqn:Herr.
    + unfold getBlock_callback. destruct (isTransient e).
      * destruct flag; cbn.
        -- specialize (IH true s).
           destruct (deliver n callbacks true ds s) as [[o s'] ev].
           unfold events_of in *. cbn in *. exact IH.
        -- specialize (IH true s).
           destruct (deliver n callbacks true ds s) as [[o s'] ev].
           unfold events_of in *. cbn in *. lia.
      * cbn. destruct flag; lia.
    + pose proof (emits_getBlock_callback n callbacks flag (d_block d) s) as Hq.
      apply delivery_vocabulary_cycles in Hq.
      pose proof (getBlock_callback_flag n callbacks flag (d_block d) s) as Hf.
      destruct (getBlock_callback n callbacks flag None (d_block d) s)
        as [[[f|c|e] s1] ev1]; unfold events_of, outcome_of in *;
        cbn [fst snd] in *.
      * rewrite (Hf f eq_refl). specialize (IH flag s1).
        destruct (deliver n callbacks flag ds s1) as [[o s'] ev].
        cbn [fst snd] in *. rewrite cycles_app, Hq. exact IH.
      * rewrite Hq. lia.
      * specialize (IH flag s1).
        destruct (deliver n callbacks flag ds s1) as [[o s'] ev].
        cbn [fst snd] in *. rewrite !cycles_app, Hq. exact IH.
Qed.

Lemma set_live_same (s : State DB) : set_live s (live (session s)) = s.
Proof. now destruct s as [[d sn] c]. Qed.

Lemma set_live_twice (s : State DB) d1 d2 :
  set_live (set_live s d1) d2 = set_live s d2.
Proof. reflexivity. Qed.

Lemma storeBlockAssocData_head callbacks block (s : State DB) :
  (exists tl,
      events_of (storeBlockAssocData callbacks block s) = EvQuery BEGIN :: tl)
  /\ (transaction_reply BEGIN (live (session s)) = None ->
      exists tl,
        events_of (storeBlockAssocData callbacks block s) =
        EvQuery BEGIN
        :: EvQuery (Sql (deleteLogs blockchain_id (number block))) :: tl).
Proof.
  unfold storeBlockAssocData.
  destruct (bind_events (start_promises block)
              (fun promises =>
                 settlement <- Promise_all arrival promises ;;
                 match settlement with
                 | Fulfilled =>
                     catch (promises_done callbacks block)
                           (fun error => promises_failed error [] [])
                 | FirstRejection error schedule pending =>
                     promises_failed error schedule pending
                 end) s) as [tl ->].
  unfold start_promises.
  match goal with |- context [bind (control BEGIN) ?k] => set (K := k) end.
  split.
  - destruct (bind_events (control BEGIN) K s) as [tl' ->].
    rewrite control_run.
    destruct (transaction_reply BEGIN (live (session s)));
      eexists; reflexivity.
  - intros Hbegin.
    pose proof (control_run BEGIN s) as Hc. rewrite Hbegin in Hc.
    rewrite (bind_Returned _ _ _ _ _ _ Hc). unfold events_of at 1. cbn [snd].
    subst K. cbv beta.
    match goal with |- context [events_of (bind ?m ?k ?x)] =>
      destruct (bind_events m k x) as [tl' ->] end.
    rewrite query_events. eexists; reflexivity.
Qed.

Lemma storeBlockAssocData_keeps_block_rows callbacks block (s : State DB) :
  forallb (fun st => negb (writes_block_row st))
          (statements (events_of (storeBlockAssocData callbacks block s))) = true.
Proof.
  pose proof (emits_storeBlockAssocData callbacks block s) as H.
  induction (events_of (storeBlockAssocData callbacks block s)) as [|e evs IH];
    [reflexivity|].
  simpl in H. apply andb_prop in H. destruct H as [He H].
  unfold statements in *. simpl. rewrite forallb_app, (IH H), andb_true_r.
  destruct e; simpl; auto.
  destruct s0; simpl; auto. destruct q; simpl in *; auto; discriminate.
Qed.

(** The height-wide lookup has answered with a first row. *)
Lemma getBlock_height_check_row n callbacks block (s : State DB) d num r1 tl :
  exec (getBlockTransactionCount blockchain_id n) (live (session s))
    = (d, Resolves (Some num)) ->
  rows num = r1 :: tl ->
  getBlock_height_check n callbacks block s =
  if negb (rowCount num =? 0)
     && same_count (List.length (transactions block)) (count r1)
  then (Returned tt, set_live s d,
        EvQuery (Sql (getBlockTransactionCount blockchain_id n))
        :: if hasOwnProperty callbacks blockAlreadyExists
           then [EvLog Info "Block with hash found, skipping.";
                 EvMainLoop (n + 1)]
           else [])
  else (outcome_of (storeBlockAssocData callbacks block (set_live s d)),
        state_of (storeBlockAssocData callbacks block (set_live s d)),
        [EvQuery (Sql (getBlockTransactionCount blockchain_id n));
         EvLog Info "At block, found stale transactions."]
        ++ events_of (storeBlockAssocData callbacks block (set_live s d))).
Proof.
  intros Hq Hrows. unfold getBlock_height_check.
  rewrite (bind_Returned _ _ _ _ _ _ (query_Resolves _ _ _ _ Hq)).
  unfold first_row. rewrite Hrows.
  unfold blockAlreadyExists_handler, call_mainLoop, bind, ret, log, emit,
    throw, outcome_of, state_of, events_of.
  destruct (rowCount num =? 0); cbn;
    [|destruct (same_count _ (count r1)); cbn];
    try (destruct callbacks; reflexivity);
    destruct (storeBlockAssocData callbacks block (set_live s d))
      as [[o s2] ev2]; reflexivity.
Qed.

(** The height-wide lookup has answered without any row. *)
Lemma getBlock_height_check_no_row n callbacks block (s : State DB) d num :
  exec (getBlockTransactionCount blockchain_id n) (live (session s))
    = (d, Resolves (Some num)) ->
  rows num = [] ->
  getBlock_height_check n callbacks block s =
  (Rejected TypeError, set_live s d,
   [EvQuery (Sql (getBlockTransactionCount blockchain_id n))]).
Proof.
  intros Hq Hrows. unfold getBlock_height_check.
  rewrite (bind_Returned _ _ _ _ _ _ (query_Resolves _ _ _ _ Hq)).
  unfold first_row. rewrite Hrows.
  destruct (rowCount num =? 0); reflexivity.
Qed.

(** The stored row of the hash agrees with the block on the count. *)
Lemma getBlock_reconcile_same_count n callbacks block (s : State DB)
      d res r0 tl :
  exec (getBlockByHash blockchain_id (hash block)) (live (session s))
    = (d, Resolves (Some res)) ->
  (rowCount res =? 0) = false ->
  rows res = r0 :: tl ->
  same_count (List.length (transactions block)) (transaction_count r0) = true ->
  getBlock_reconcile n callbacks block s =
  (outcome_of (getBlock_height_check n callbacks block (set_live s d)),
   state_of (getBlock_height_check n callbacks block (set_live s d)),
   EvQuery (Sql (getBlockByHash blockchain_id (hash block)))
   :: events_of (getBlock_height_check n callbacks block (set_live s d))).
Proof.
  intros Hq Hcount Hrows Hsame. unfold getBlock_reconcile.
  rewrite (bind_Returned _ _ _ _ _ _ (query_Resolves _ _ _ _ Hq)).
  cbn [no_rows]. rewrite Hcount. cbn [negb].
  unfold first_row. rewrite Hrows, !bind_ret, Hsame. reflexivity.
Qed.

(** The stored row of the hash disagrees with the block on the count. *)
Lemma getBlock_reconcile_other_count n callbacks block (s : State DB)
      d res r0 tl :
  exec (getBlockByHash blockchain_id (hash block)) (live (session s))
    = (d, Resolves (Some res)) ->
  (rowCount res =? 0) = false ->
  rows res = r0 :: tl ->
  same_count (List.length (transactions block)) (transaction_count r0) = false ->
  getBlock_reconcile n callbacks block s =
  (outcome_of (storeBlockAssocData callbacks block (set_live s d)),
   state_of (storeBlockAssocData callbacks block (set_live s d)),
   [EvQuery (Sql (getBlockByHash blockchain_id (hash block)));
    EvLog Info "At a re-instated block, restoring data."]
   ++ events_of (storeBlockAssocData callbacks block (set_live s d))).
Proof.
  intros Hq Hcount Hrows Hsame. unfold getBlock_reconcile.
  rewrite (bind_Returned _ _ _ _ _ _ (query_Resolves _ _ _ _ Hq)).
  cbn [no_rows]. rewrite Hcount. cbn [negb].
  unfold first_row. rewrite Hrows, !bind_ret, Hsame. unfold log.
  rewrite !bind_emit. reflexivity.
Qed.

Lemma owes_ext (r r' : M DB (Task DB)) l :
  (forall s, r s = r' s) -> owes (Awaiting r') l -> owes (Awaiting r) l.
Proof.
  intros E H. inversion H as [|x l1 l2 Hgo Hnext]; subst. constructor.
  - intros s. rewrite E. apply Hgo.
  - intros s t. rewrite E. apply Hnext.
Qed.

Section Accepted.

Variable block : Block.
Hypothesis accepted : accepting block.

Lemma gives_query_reply q :
  gives (fun reply => exists res, reply = Resolves res /\ goes_on q res)
        [Sql q] (query_reply q).
Proof.
  intros s. unfold query_reply.
  destruct accepted as (_ & Hq & _). specialize (Hq q (live (session s))).
  destruct (exec q (live (session s))) as [d r]. cbn [snd] in Hq.
  destruct Hq as (res & -> & Hg). exists (Resolves res).
  split; [reflexivity|]. split; [eauto | reflexivity].
Qed.

Lemma gives_decode_log_reply id l :
  gives (fun r => r = None) [] (decode_log_reply id l).
Proof.
  intros s. unfold decode_log_reply.
  destruct accepted as (_ & _ & Hd & _). specialize (Hd id l (live (session s))).
  destruct (setDecodedLog id l (live (session s))) as [d r]. cbn [snd] in Hd.
  subst r. now exists None.
Qed.

Lemma query_accepted q (s : State DB) :
  exists d res,
    exec q (live (session s)) = (d, Resolves res) /\ goes_on q res.
Proof.
  destruct accepted as (_ & Hq & _). specialize (Hq q (live (session s))).
  destruct (exec q (live (session s))) as [d r]. cbn [snd] in Hq.
  destruct Hq as (res & -> & Hg). now exists d, res.
Qed.

Lemma addLogs_task_owes t logs :
  owes (Awaiting (addLogs_task t logs))
       (map (fun l => Sql (addLog (tx_hash t) (log_blockNumber l)
                                  (log_logIndex l) (log_address l)
                                  (log_data l) (log_topics l))) logs).
Proof.
  induction logs as [|l rest IH]; cbn [addLogs_task map].
  - apply (owes_step [] []). apply gives_ret. constructor.
  - match goal with |- owes _ (?x :: ?r) => apply (owes_step [x] r) end.
    unfold sends.
    match goal with |- gives ?R [?x] _ =>
      eapply (gives_bind _ R [x] []); [apply gives_query_reply|] end.
    intros reply (res & -> & Hg). apply gives_ret.
    destruct (owes_sends _ _ IH) as (l1 & l2 & Hl & Hs).
    assert (Hskip : owes (Awaiting (log Error "** Could not store log" ;;
                                    addLogs_task t rest))
                         (map (fun l => Sql (addLog (tx_hash t) (log_blockNumber l)
                                                    (log_logIndex l) (log_address l)
                                                    (log_data l) (log_topics l)))
                              rest)).
    { rewrite Hl. apply owes_step. unfold sends. now apply gives_log. }
    eapply owes_ext; [intros s; apply bind_ret|]. cbv beta.
    destruct res as [r|]; [|exact Hskip].
    destruct (rowCount r =? 0) eqn:Hc; [exact Hskip|].
    cbn [goes_on] in Hg. specialize (Hg r eq_refl Hc).
    unfold first_row. destruct (rows r) as [|r0 tl]; [contradiction|].
    eapply owes_ext; [intros s; apply bind_ret|]. cbv beta.
    apply (owes_step [] _). unfold sends.
    match goal with |- gives ?R [] _ =>
      apply (gives_bind (fun r => r = None) R [] []);
        [apply gives_decode_log_reply|] end.
    intros decoded ->. apply gives_ret. exact IH.
Qed.

Lemma getTransaction_task_owes bh t :
  In t (transactions block) ->
  owes (Awaiting (getTransaction_task bh t)) (sent_for bh t).
Proof.
  intros Hin. unfold getTransaction_task, sent_for.
  destruct (getTransactionReceipt (tx_hash t)) as [e|[receipt|]] eqn:Hr.
  - destruct accepted as (_ & _ & _ & Hn). now destruct (Hn t e Hin).
  - unfold task_statements.
    match goal with |- owes _ (?x :: ?r) => apply (owes_step [x] r) end.
    unfold sends.
    match goal with |- gives ?R [?x] _ =>
      eapply (gives_bind _ R [x] []); [apply gives_query_reply|] end.
    intros reply (res & -> & Hg). apply gives_ret.
    eapply owes_ext; [intros s; apply bind_ret|]. cbv beta.
    cbn [goes_on] in Hg. rewrite Hg.
    destruct (rc_logs receipt) as [[|l logs]|];
      try (apply (owes_step [] []); apply gives_ret; constructor).
    match goal with |- owes _ (?x :: ?r) => apply (owes_step [x] r) end.
    unfold sends.
    match goal with |- gives ?R [?x] _ =>
      eapply (gives_bind _ R [x] []); [apply gives_query_reply|] end.
    intros reply' (res' & -> & _). apply gives_ret.
    eapply owes_ext; [intros s; apply bind_ret|]. cbv beta.
    apply addLogs_task_owes.
  - apply (owes_step [] []). unfold sends. apply gives_log, gives_ret.
    constructor.
Qed.

Lemma addOmmers_accepted nibling ommers :
  forall s : State DB,
  exists s',
    addOmmers nibling ommers s =
    (Returned None, s',
     map (fun o => EvQuery (Sql (addOmmer blockchain_id o nibling))) ommers).
Proof.
  induction ommers as [|o rest IH]; intros s.
  - now exists s.
  - cbn [addOmmers map]. unfold bind at 1, query_reply.
    destruct (query_accepted (addOmmer blockchain_id o nibling) s)
      as (d & res & -> & _).
    destruct (IH (set_live s d)) as (s' & Hrest).
    rewrite (bind_Returned _ _ _ _ _ _ Hrest). unfold ret.
    unfold outcome_of, state_of, events_of. cbn [fst snd app].
    rewrite app_nil_r. eexists; reflexivity.
Qed.

Lemma start_promises_accepted (s : State DB) :
  exists pool s1 ls,
    start_promises block s =
    (Returned pool, s1,
     [EvQuery BEGIN; EvQuery (Sql (deleteLogs blockchain_id (number block)));
      EvQuery (Sql (deleteTransactions blockchain_id (number block)))]
     ++ map (fun o => EvQuery (Sql (addOmmer blockchain_id o (hash block))))
            (ommers_of block)
     ++ map (fun t => EvGetTransactionReceipt (tx_hash t)) (transactions block))
    /\ owing pool ls
    /\ List.concat ls = flat_map (sent_for (hash block)) (transactions block).
Proof.
  unfold start_promises.
  pose proof (control_run BEGIN s) as Hb.
  destruct accepted as (Ht & _). rewrite Ht in Hb.
  rewrite (bind_Returned _ _ _ _ _ _ Hb). clear Hb.
  set (s0 := mkState _ _).
  destruct (query_accepted (deleteLogs blockchain_id (number block)) s0)
    as (d1 & r1 & H1 & _).
  rewrite (bind_Returned _ _ _ _ _ _ (query_Resolves _ _ _ _ H1)).
  destruct (query_accepted (deleteTransactions blockchain_id (number block))
              (set_live s0 d1)) as (d2 & r2 & H2 & _).
  rewrite (bind_Returned _ _ _ _ _ _ (query_Resolves _ _ _ _ H2)).
  assert (Htasks : owing (map (getTransaction_task (hash block))
                              (transactions block))
                         (map (sent_for (hash block)) (transactions block))).
  { assert (G : forall txs, (forall t, In t txs -> In t (transactions block)) ->
                  owing (map (getTransaction_task (hash block)) txs)
                        (map (sent_for (hash block)) txs)).
    { induction txs as [|t txs IH]; intros Hsub; [constructor|].
      cbn [map]. constructor.
      - apply getTransaction_task_owes, Hsub. now left.
      - apply IH. intros t' Ht'. apply Hsub. now right. }
    apply G. auto. }
  unfold ommers_of. destruct (uncles block) as [[|o os]|].
  - rewrite bind_ret.
    rewrite (bind_Returned _ _ _ _ _ _ (request_receipts_run _ _)).
    unfold outcome_of, state_of, events_of, ret. cbn [fst snd app map].
    rewrite ?app_nil_r.
    eexists; eexists; exists (map (sent_for (hash block)) (transactions block)).
    split; [reflexivity|]. split; [exact Htasks|].
    symmetry. apply flat_map_concat_map.
  - destruct (addOmmers_accepted (hash block) (o :: os) (set_live (set_live s0 d1) d2))
      as (s' & Ho).
    assert (Hfirst :
              (first_rejection <- addOmmers (hash block) (o :: os) ;;
               ret [@addOmmers_task DB first_rejection])
                (set_live (set_live s0 d1) d2)
              = (Returned [@addOmmers_task DB None], s',
                 map (fun o => EvQuery (Sql (addOmmer blockchain_id o (hash block))))
                     (o :: os))).
    { rewrite (bind_Returned _ _ _ _ _ _ Ho).
      unfold outcome_of, state_of, events_of, ret. cbn [fst snd].
      now rewrite app_nil_r. }
    rewrite (bind_Returned _ _ _ _ _ _ Hfirst).
    rewrite (bind_Returned _ _ _ _ _ _ (request_receipts_run _ _)).
    unfold outcome_of, state_of, events_of, ret. cbn [fst snd app].
    rewrite ?app_nil_r.
    eexists; eexists;
      exists ([] :: map (sent_for (hash block)) (transactions block)).
    split; [reflexivity|]. split.
    + constructor; [|exact Htasks].
      apply (owes_step [] []). apply gives_ret. constructor.
    + cbn [List.concat app]. symmetry. apply flat_map_concat_map.
  - rewrite bind_ret.
    rewrite (bind_Returned _ _ _ _ _ _ (request_receipts_run _ _)).
    unfold outcome_of, state_of, events_of, ret. cbn [fst snd app map].
    rewrite ?app_nil_r.
    eexists; eexists; exists (map (sent_for (hash block)) (transactions block)).
    split; [reflexivity|]. split; [exact Htasks|].
    symmetry. apply flat_map_concat_map.
Qed.

(** A persist that meets no failure, under any order of arrival: it
    returns, having sent what each task owed between the statements that
    open the transaction and COMMIT. *)
Lemma storeBlockAssocData_accepted callbacks (s : State DB) :
  exists s' body,
    storeBlockAssocData callbacks block s =
    (Returned tt, s',
     ([EvQuery BEGIN; EvQuery (Sql (deleteLogs blockchain_id (number block)));
       EvQuery (Sql (deleteTransactions blockchain_id (number block)))]
      ++ map (fun o => EvQuery (Sql (addOmmer blockchain_id o (hash block))))
             (ommers_of block)
      ++ map (fun t => EvGetTransactionReceipt (tx_hash t)) (transactions block))
     ++ body
     ++ EvQuery COMMIT
        :: if hasOwnProperty callbacks moveToNextBlock
           then [EvMainLoop (number block + 1)]
           else [])
    /\ Permutation (statements body)
                   (flat_map (sent_for (hash block)) (transactions block))
    /\ forallb task_vocabulary body = true.
Proof.
  destruct (start_promises_accepted s) as (pool & s1 & ls & Hstart & Hpool & Hls).
  destruct (Promise_all_owing arrival pool ls s1 Hpool) as (s2 & body & Hall & Hperm).
  pose proof (start_promises_pool block s pool) as Ho.
  rewrite Hstart in Ho. specialize (Ho eq_refl).
  destruct (orderly_Promise_all arrival pool Ho) as [(He & _ & _) _].
  specialize (He s1). rewrite Hall in He.
  unfold storeBlockAssocData.
  rewrite (bind_Returned _ _ _ _ _ _ Hstart), (bind_Returned _ _ _ _ _ _ Hall).
  unfold outcome_of at 1 2, state_of at 1 2, events_of at 1 2. cbn [fst snd].
  pose proof (control_run COMMIT s2) as Hc.
  destruct accepted as (Ht & _). rewrite Ht in Hc.
  unfold catch, promises_done. rewrite (bind_Returned _ _ _ _ _ _ Hc).
  unfold moveToNextBlock_handler, call_mainLoop, emit, ret.
  eexists; exists body. split; [|split; [|exact He]].
  - destruct (hasOwnProperty callbacks moveToNextBlock);
      unfold outcome_of, state_of, events_of; cbn [fst snd app]; reflexivity.
  - now rewrite <- Hls.
Qed.

End Accepted.

(** A persist one of whose tasks is the first to reject: ROLLBACK is sent
    at once and, accepted, makes the database what it was at BEGIN; the
    run goes on from there. *)
Lemma storeBlockAssocData_rollback callbacks block (s s1 s2 : State DB)
      promises ev1 e schedule pending ev2 :
  snapshot (session s) = None ->
  start_promises block s = (Returned promises, s1, ev1) ->
  Promise_all arrival promises s1
    = (Returned (FirstRejection e schedule pending), s2, ev2) ->
  transaction_reply ROLLBACK (live (session s2)) = None ->
  storeBlockAssocData callbacks block s =
  (outcome_of (after_rollback None schedule pending
                 (mkState (mkSession (live (session s)) None)
                          (comprehensiveReviewCounter s))),
   state_of (after_rollback None schedule pending
               (mkState (mkSession (live (session s)) None)
                        (comprehensiveReviewCounter s))),
   ev1 ++ ev2
   ++ EvQuery ROLLBACK
      :: events_of (after_rollback None schedule pending
                      (mkState (mkSession (live (session s)) None)
                               (comprehensiveReviewCounter s)))).
Proof.
  intros Hs H1 H2 Hr.
  destruct (start_promises_frame block s s1 promises ev1 H1) as (_ & Hsnap & Hc).
  pose proof (start_promises_pool block s promises) as Hpool.
  rewrite H1 in Hpool. specialize (Hpool eq_refl).
  destruct (orderly_Promise_all arrival promises Hpool) as [(_ & Hf & _) _].
  destruct (Hf s1) as [Hsnap2 Hc2]. rewrite H2 in Hsnap2, Hc2.
  unfold state_of in Hsnap2, Hc2. cbn [fst snd] in Hsnap2, Hc2.
  unfold storeBlockAssocData.
  rewrite (bind_Returned _ _ _ _ _ _ H1), (bind_Returned _ _ _ _ _ _ H2).
  unfold outcome_of at 1 2, state_of at 1 2, events_of at 1 2. cbn [fst snd].
  assert (Hcr : control_reply ROLLBACK s2 =
                (Returned None,
                 mkState (mkSession (live (session s)) None)
                         (comprehensiveReviewCounter s),
                 [EvQuery ROLLBACK])).
  { unfold control_reply. rewrite Hr. unfold run_rollback.
    rewrite Hsnap2, Hsnap. unfold run_begin. rewrite Hs. cbn [snapshot].
    now rewrite Hc2, Hc. }
  unfold promises_failed. rewrite (bind_Returned _ _ _ _ _ _ Hcr).
  unfold outcome_of at 1, state_of at 1, events_of at 1. cbn [fst snd app].
  reflexivity.
Qed.

(** What the handler does once its ROLLBACK is accepted: the process
    ends with status 1, after the sleep and the two error lines unless a
    pending task ends it before. *)
Lemma after_rollback_resolved schedule (pending : list (M DB (Task DB)))
      (s : State DB) :
  orderly_pool pending ->
  outcome_of (after_rollback None schedule pending s) = Exited 1
  /\ exists t1 t2,
      forallb task_vocabulary t1 = true /\ forallb task_vocabulary t2 = true
      /\ (events_of (after_rollback None schedule pending s) = t1
          \/ events_of (after_rollback None schedule pending s)
             = t1 ++ EvSleep 1000 :: t2
          \/ events_of (after_rollback None schedule pending s)
             = t1 ++ EvSleep 1000 :: t2
               ++ [EvLog Error "Promises failed for retrieving all block data";
                   EvLog Error "Error:"]).
Proof.
  intros Hpend. unfold after_rollback.
  destruct (orderly_meanwhile schedule pending Hpend) as [(He & _ & Hx) Hy].
  pose proof (meanwhile_never_rejects schedule pending s) as Hn.
  specialize (He s). specialize (Hx s). specialize (Hy s).
  destruct (meanwhile schedule pending s) as [[[rest|c|e] s1] ev1] eqn:E1;
    unfold outcome_of, events_of in He, Hx, Hy, Hn; cbn [fst snd] in *.
  - rewrite (bind_Returned _ _ _ _ _ _ E1). unfold sleep. rewrite bind_emit.
    specialize (Hy rest eq_refl).
    destruct (orderly_meanwhile (fst rest) (snd rest) Hy) as [(He2 & _ & Hx2) _].
    pose proof (meanwhile_never_rejects (fst rest) (snd rest) s1) as Hn2.
    specialize (He2 s1). specialize (Hx2 s1).
    destruct (meanwhile (fst rest) (snd rest) s1) as [[[rest2|c|e] s2] ev2] eqn:E2;
      unfold outcome_of, events_of in He2, Hx2, Hn2; cbn [fst snd] in *.
    + rewrite (bind_Returned _ _ _ _ _ _ E2).
      unfold outcome_of, state_of, events_of. cbn.
      split; [reflexivity|]. exists ev1, ev2. auto.
    + rewrite (bind_Exited _ _ _ _ _ _ E2).
      unfold outcome_of, state_of, events_of. cbn.
      rewrite (Hx2 c eq_refl). split; [reflexivity|]. exists ev1, ev2. auto.
    + now destruct (Hn2 e).
  - rewrite (bind_Exited _ _ _ _ _ _ E1).
    unfold outcome_of, events_of. cbn [fst snd].
    rewrite (Hx c eq_refl). split; [reflexivity|]. exists ev1, []. auto.
  - now destruct (Hn e).
Qed.

(** A pending task whose reply arrives first after the ROLLBACK is
    resumed, in the state that the ROLLBACK has left. *)
Lemma after_rollback_resumes reply i schedule
      (pending : list (M DB (Task DB))) resume (s : State DB) :
  nth_error pending i = Some resume ->
  exists tl,
    events_of (after_rollback reply (TaskTurn i :: schedule) pending s)
    = events_of (resume s) ++ tl.
Proof.
  intros H. unfold after_rollback.
  match goal with |- context [events_of (bind ?m ?k s)] =>
    destruct (bind_events m k s) as [tl1 ->] end.
  cbn [meanwhile]. rewrite H.
  match goal with |- context [events_of (bind ?m ?k s)] =>
    destruct (bind_events m k s) as [tl2 ->] end.
  rewrite settles_run. unfold events_of at 1. cbn [snd].
  exists (tl2 ++ tl1). now rewrite app_assoc.
Qed.

(** When no pending task is resumed after the ROLLBACK, the database is
    at the exit what it was at BEGIN. *)
Lemma after_rollback_alone schedule (pending : list (M DB (Task DB)))
      (s : State DB) :
  schedule = [] \/ pending = [] ->
  after_rollback None schedule pending s =
  (Exited 1, s,
   [EvSleep 1000;
    EvLog Error "Promises failed for retrieving all block data";
    EvLog Error "Error:"]).
Proof.
  intros [->| ->]; [reflexivity|].
  unfold after_rollback.
  destruct (meanwhile_nothing schedule s) as [schedule' H1].
  rewrite (bind_Returned _ _ _ _ _ _ H1). cbn [fst snd].
  unfold sleep. rewrite bind_emit.
  destruct (meanwhile_nothing schedule' s) as [schedule'' H2].
  rewrite (bind_Returned _ _ _ _ _ _ H2). reflexivity.
Qed.

Lemma statements_ommers id h (l : list Hash) :
  statements (map (fun o => EvQuery (Sql (addOmmer id o h))) l)
  = map (fun o => Sql (addOmmer id o h)) l.
Proof.
  unfold statements. induction l as [|o l IH]; [reflexivity|].
  cbn [map flat_map app]. now rewrite IH.
Qed.

Lemma ommers_not_about h id nibling (l : list Hash) :
  forallb (fun st => negb (about h st))
          (map (fun o => Sql (addOmmer id o nibling)) l) = true.
Proof. induction l as [|o l IH]; [reflexivity | exact IH]. Qed.

Lemma sent_for_not_about bh t t' st :
  getTransactionReceipt (tx_hash t) = ReceiptResolves None ->
  In st (sent_for bh t') -> about (tx_hash t) st = false.
Proof.
  intros Hnull. unfold sent_for, task_statements.
  destruct (getTransactionReceipt (tx_hash t')) as [e|[receipt|]] eqn:Hr;
    [intros [] | | intros []].
  assert (Hne : String.eqb (tx_hash t') (tx_hash t) = false).
  { destruct (String.eqb (tx_hash t') (tx_hash t)) eqn:E; [|reflexivity].
    apply String.eqb_eq in E. congruence. }
  intros [<-|Hin]; [exact Hne|].
  destruct (rc_logs receipt) as [[|l logs]|]; try (now destruct Hin).
  destruct Hin as [<-|Hin]; [exact Hne|].
  apply in_map_iff in Hin. destruct Hin as (l' & <- & _). exact Hne.
Qed.

End ProgramFacts.

(** ** The persister *)




(** Evaluates the left-hand side of an equation whose right-hand side is
    still to be determined. *)
Ltac by_evaluation :=
  match goal with
  | |- ?l = _ =>
      let v := eval vm_compute in l in
      transitivity v; [vm_compute; reflexivity | reflexivity]
  end.

(** A task that outlives the ROLLBACK, run: the first task of block 6 has
    sent the insert of its transaction when the receipt request of the
    second fails.  ROLLBACK undoes that insert; the first task then goes
    on, and the delete and the two log inserts it sends after ROLLBACK
    are kept: at the exit the database holds the block row and two log
    rows of a transaction that it does not hold. *)
Example persist_rollback_leaves_later_writes :
  let r := getBlock_save (monitor := arriving Sample.late_replies Sample.on_tables)
                         cursor_callbacks Sample.block6
                         (start_state Tables.empty 0) in
  outcome_of r = Exited 1
  /\ statements (events_of r)
     = [Sql (addBlock 1 6 "0xB6" Sample.header0); BEGIN;
        Sql (deleteLogs 1 6); Sql (deleteTransactions 1 6);
        Sql (addTransaction "0xB6" (Sample.transfer "0xt6" 0) (Some true) None);
        ROLLBACK;
        Sql (deleteLogsByTransactionHash "0xt6");
        Sql (addLog "0xt6" 6 0 "0xtoken" "0x01" ["0xtopic0"; "0xtopic1"]);
        Sql (addLog "0xt6" 6 1 "0xtoken" "0x01" ["0xtopic0"; "0xtopic1"])]
  /\ session (state_of r)
     = mkSession (Tables.mkTables [(6, "0xB6")] [] []
                                  [(1, "0xt6", 6, 0); (2, "0xt6", 6, 1)] 3)
                 None.
Proof. cbv zeta. repeat split; vm_compute; reflexivity. Qed.


(** C8.  In [getTransaction], an insert of the transaction that affects no
    row is fatal: the session is released and the process exits with
    status 1.  An insert of a log that affects no row is logged, and the
    loop goes on with the next log. *)
Theorem zero_row_inserts
        {DB : Type} {monitor : Monitor DB} (block_hash : Hash)
        (t : Transaction) (receipt : Receipt) (s s' : State DB) (d d' : DB)
        (result logResult : option QResult) (l : Log) (rest : list Log) :
  getTransactionReceipt (tx_hash t) = ReceiptResolves (Some receipt) ->
  exec (addTransaction block_hash t (status_or_null (rc_status receipt))
                       (string_or_null (rc_contractAddress receipt)))
       (live (session s)) = (d, Resolves result) ->
  no_rows result = true ->
  exec (addLog (tx_hash t) (log_blockNumber l) (log_logIndex l)
               (log_address l) (log_data l) (log_topics l))
       (live (session s')) = (d', Resolves logResult) ->
  no_rows logResult = true ->
  getTransaction block_hash t s =
    (Exited 1, set_live s d,
     [EvQuery (Sql (addTransaction block_hash t
                      (status_or_null (rc_status receipt))
                      (string_or_null (rc_contractAddress receipt))));
      EvRelease;
      EvLog Error "No result returned for";
      EvLog Error "transaction";
      EvLog Error "^^ No result returned in block ^^"])
  /\ addLogs t (l :: rest) s' =
     (outcome_of (addLogs t rest (set_live s' d')),
      state_of (addLogs t rest (set_live s' d')),
      [EvQuery (Sql (addLog (tx_hash t) (log_blockNumber l) (log_logIndex l)
                            (log_address l) (log_data l) (log_topics l)));
       EvLog Error "** Could not store log"]
      ++ events_of (addLogs t rest (set_live s' d'))).
Proof.
  intros Hreceipt Htx Hzero Hlog Hzero'. split.
  - unfold getTransaction. rewrite Hreceipt.
    rewrite (bind_Returned _ _ _ _ _ _ (query_Resolves _ _ _ _ Htx)).
    rewrite Hzero. reflexivity.
  - cbn [addLogs].
    rewrite (bind_Returned _ _ _ _ _ _ (query_Resolves _ _ _ _ Hlog)).
    destruct logResult as [res|]; simpl in Hzero'; [rewrite Hzero'|];
      unfold bind, log, emit;
      destruct (addLogs t rest (set_live s' d')) as [[o s2] ev2]; reflexivity.
Qed.

Lemma zero_row_inserts_witness :
  outcome_of (getTransaction (monitor := Sample.on_refusing) "0xB5"
                (Sample.transfer "0xt0" 0) (start_state [] 0)) = Exited 1
  /\ outcome_of (addLogs (monitor := Sample.on_refusing)
                   (Sample.transfer "0xt0" 0)
                   [Sample.event_log 5 0; Sample.event_log 5 1]
                   (start_state [] 0)) = Returned tt.
Proof.
  destruct (zero_row_inserts
              (monitor := Sample.on_refusing) "0xB5" (Sample.transfer "0xt0" 0)
              (mkReceipt (Some true) None
                         (Some [Sample.event_log 5 0; Sample.event_log 5 1]))
              (start_state [] 0) (start_state [] 0)
              [addTransaction "0xB5" (Sample.transfer "0xt0" 0) (Some true) None]
              [addLog "0xt0" 5 0 "0xtoken" "0x01" ["0xtopic0"; "0xtopic1"]]
              (Some (mkQResult 0 [])) (Some (mkQResult 0 []))
              (Sample.event_log 5 0) [Sample.event_log 5 1]
              eq_refl eq_refl eq_refl eq_refl eq_refl) as [Htx Hlog].
  split.
  - now rewrite Htx.
  - rewrite Hlog. reflexivity.
Defined.



(** Scenario 5 of the specification, run: the block row and the first and
    third transactions with their logs are committed, the second is
    absent. *)
Example missing_receipt_run :
  let r := getBlock_save (monitor := Sample.on_tables) cursor_callbacks
                         Sample.block5 (start_state Tables.empty 0) in
  outcome_of r = Returned tt
  /\ session (state_of r)
     = mkSession (Tables.mkTables
                    [(5, "0xB5")] [("0xU1", "0xB5")]
                    [("0xB5", "0xt0"); ("0xB5", "0xt2")]
                    [(1, "0xt0", 5, 0); (2, "0xt0", 5, 1);
                     (3, "0xt2", 5, 0); (4, "0xt2", 5, 1)] 5) None
  /\ last (events_of r) EvRelease = EvMainLoop 6.
Proof. cbv zeta. repeat split; vm_compute; reflexivity. Qed.

(** The same block with the replies out of order, the tasks of the first
    and of the third transaction taking turns: the same rows are
    committed. *)
Example missing_receipt_out_of_order_run :
  let r := getBlock_save (monitor := arriving Sample.out_of_order Sample.on_tables)
                         cursor_callbacks Sample.block5
                         (start_state Tables.empty 0) in
  outcome_of r = Returned tt
  /\ statements (events_of r)
     = [Sql (addBlock 1 5 "0xB5" Sample.header0); BEGIN;
        Sql (deleteLogs 1 5); Sql (deleteTransactions 1 5);
        Sql (addOmmer 1 "0xU1" "0xB5");
        Sql (addTransaction "0xB5" (Sample.transfer "0xt0" 0) (Some true) None);
        Sql (addTransaction "0xB5" (Sample.transfer "0xt2" 2) (Some true) None);
        Sql (deleteLogsByTransactionHash "0xt0");
        Sql (deleteLogsByTransactionHash "0xt2");
        Sql (addLog "0xt0" 5 0 "0xtoken" "0x01" ["0xtopic0"; "0xtopic1"]);
        Sql (addLog "0xt0" 5 1 "0xtoken" "0x01" ["0xtopic0"; "0xtopic1"]);
        Sql (addLog "0xt2" 5 0 "0xtoken" "0x01" ["0xtopic0"; "0xtopic1"]);
        Sql (addLog "0xt2" 5 1 "0xtoken" "0x01" ["0xtopic0"; "0xtopic1"]);
        COMMIT]
  /\ session (state_of r)
     = mkSession (Tables.mkTables
                    [(5, "0xB5")] [("0xU1", "0xB5")]
                    [("0xB5", "0xt0"); ("0xB5", "0xt2")]
                    [(1, "0xt0", 5, 0); (2, "0xt0", 5, 1);
                     (3, "0xt2", 5, 0); (4, "0xt2", 5, 1)] 5) None
  /\ last (events_of r) EvRelease = EvMainLoop 6.
Proof. cbv zeta. repeat split; vm_compute; reflexivity. Qed.

(** ** The block fetcher *)

(** C3, as amended.  An error of the node client's [getBlock] is transient
    when its text contains "Invalid JSON RPC response", letter case kept,
    or "CONNECTION TIMEOUT", letter case ignored.  On the first delivery of
    an error to a [getBlock] call, a transient one makes the fetcher call
    [cycleNodes] and re-enter the loop at the same height; any other makes
    it sleep 2500 ms and exit with status 1. *)
Theorem transient_errors_cycle_others_exit
        {DB : Type} {monitor : Monitor DB} (n : Z) (callbacks : Callbacks)
        (err : string) (block : option Block) (s : State DB) :
  (isTransient err = true <->
   contains err "Invalid JSON RPC response"
   \/ contains_ci err "CONNECTION TIMEOUT")
  /\ getBlock_callback n callbacks false (Some err) block s =
     if isTransient err
     then (Returned true, s,
           [EvLog Error "** JSON RPC or connection timeout failure in CacheMonitor::getBlock, cycling to next node **";
            EvCycleNodes; EvMainLoop n])
     else (Exited 1, s, [EvLog Error "Unknown error:"; EvSleep 2500]).
Proof.
  split.
  - apply JsStringFacts.isTransient_spec.
  - unfold getBlock_callback. destruct (isTransient err); reflexivity.
Qed.

(** C3, as stated, fails: "invalid json rpc response" in lower case is
    "Invalid JSON RPC response" with letter case ignored, and the fetcher
    takes it for a fatal error. *)
Lemma lower_case_rpc_error_is_fatal :
  contains_ci "Error: invalid json rpc response" "Invalid JSON RPC response"
  /\ getBlock_callback (monitor := Sample.on_tables) 1000 cursor_callbacks
       false (Some "Error: invalid json rpc response") None
       (start_state Tables.empty 0)
     = (Exited 1, start_state Tables.empty 0,
        [EvLog Error "Unknown error:"; EvSleep 2500]).
Proof.
  split; [|vm_compute; reflexivity].
  exists "Error: ", "invalid json rpc response", "".
  split; vm_compute; reflexivity.
Qed.

(** C7.  Within one invocation of [getBlock], whatever the node client
    delivers to the callback and however often, [cycleNodes] is called at
    most once; when a transient error is delivered twice, the first
    delivery cycles and re-enters the loop, the second is only logged. *)
Theorem at_most_one_cycle_per_fetch
        {DB : Type} {monitor : Monitor DB} (n : Z) (callbacks : Callbacks)
        (ds : list Delivery) (e1 e2 : string) (b1 b2 : option Block)
        (s : State DB) :
  isTransient e1 = true ->
  isTransient e2 = true ->
  (cycles (events_of (getBlock_invocation n callbacks ds s)) <= 1)%nat
  /\ getBlock_invocation n callbacks
       [mkDelivery (Some e1) b1; mkDelivery (Some e2) b2] s
     = (Returned true, s,
        [EvGetBlock n callbacks;
         EvLog Error "** JSON RPC or connection timeout failure in CacheMonitor::getBlock, cycling to next node **";
         EvCycleNodes; EvMainLoop n;
         EvLog Error "** Received duplicate local timeout or JSON RPC error, already cycled **"]).
Proof.
  intros H1 H2. split.
  - unfold getBlock_invocation, bind, getBlock, emit.
    pose proof (deliver_cycles n callbacks ds false s) as H.
    destruct (deliver n callbacks false ds s) as [[o s'] ev].
    unfold events_of in *. cbn in *. exact H.
  - unfold getBlock_invocation, deliver, detached, getBlock_callback, bind.
    cbn. rewrite H1. cbn. rewrite H2. reflexivity.
Qed.

Lemma at_most_one_cycle_per_fetch_witness :
  cycles (events_of
            (getBlock_invocation (monitor := Sample.on_tables) 1000
               cursor_callbacks
               [mkDelivery (Some "Error: Invalid JSON RPC response") None;
                mkDelivery (Some "Error: connection timeout") None]
               (start_state Tables.empty 0))) = 1%nat.
Proof.
  rewrite (proj2 (at_most_one_cycle_per_fetch
                    (monitor := Sample.on_tables) 1000 cursor_callbacks []
                    "Error: Invalid JSON RPC response"
                    "Error: connection timeout" None None
                    (start_state Tables.empty 0)
                    ltac:(vm_compute; reflexivity)
                    ltac:(vm_compute; reflexivity))).
  vm_compute. reflexivity.
Defined.

(** ** The review scheduler *)

(** C1, at the input where the code departs from it.  A review fetch at a
    prior height [p] that meets a transient node error cycles the node and
    calls [mainLoop(p)]: a cursor loop is entered at [p], under any bag of
    callbacks, the two of the review scheduler included. *)
Theorem review_fetch_error_enters_loop_at_prior_height
        {DB : Type} {monitor : Monitor DB} (p : Z) (callbacks : Callbacks)
        (s : State DB) :
  getBlock_callback p callbacks false
                    (Some "Error: Invalid JSON RPC response") None s
  = (Returned true, s,
     [EvLog Error "** JSON RPC or connection timeout failure in CacheMonitor::getBlock, cycling to next node **";
      EvCycleNodes; EvMainLoop p])
  /\ getBlock_callback p callbacks false
                       (Some "Error: CONNECTION TIMEOUT") None s
     = (Returned true, s,
        [EvLog Error "** JSON RPC or connection timeout failure in CacheMonitor::getBlock, cycling to next node **";
         EvCycleNodes; EvMainLoop p]).
Proof. split; vm_compute; reflexivity. Qed.

(** C4.  The handler of [atHead] increments the review counter once; when
    the new value is a multiple of 250 it sends review fetches for the
    heights [n - 100] to [n - 2] and sleeps 15000 ms, otherwise for the
    heights [n - 15] to [n - 2] and sleeps 2500 ms; it then re-enters the
    loop at [n]. *)
Theorem review_schedule {DB : Type} (n : Z) (s : State DB) :
  atBlockchainHead_handler n s =
    (Returned tt,
     mkState (session s) (comprehensiveReviewCounter s + 1),
     if Z.rem (comprehensiveReviewCounter s + 1) comprehensiveReviewCountMod =? 0
     then EvLog Info "Performing a comprehensive review of the last blocks."
          :: map (fun p => EvGetBlock p no_callbacks) (heights (n - 100) 99)
          ++ [EvSleep 15000; EvMainLoop n]
     else map (fun p => EvGetBlock p review_callbacks) (heights (n - 15) 14)
          ++ [EvSleep 2500; EvMainLoop n])
  /\ ((Z.rem (comprehensiveReviewCounter s + 1) comprehensiveReviewCountMod
       =? 0) = true
      <-> (250 | comprehensiveReviewCounter s + 1))
  /\ (forall p, In p (heights (n - 100) 99)
                <-> n - comprehensiveReviewBlockLimit <= p < n - 1)
  /\ (forall p, In p (heights (n - 15) 14)
                <-> n - reviewBlockLimit <= p < n - 1).
Proof.
  split; [|split; [|split]].
  - apply atBlockchainHead_handler_run.
  - rewrite Z.eqb_eq. apply Z.rem_divide. discriminate.
  - intros p. rewrite heights_In.
    unfold comprehensiveReviewBlockLimit. lia.
  - intros p. rewrite heights_In. unfold reviewBlockLimit. lia.
Qed.

(** ** The reconciler *)

(** C5.  When the hash of the fetched block has a stored row whose
    transaction count is that of the block, and the total at the height is
    that count too, the callback sends the two lookups and nothing else to
    the database, which it leaves as it was, and calls ['blockAlreadyExists']
    where the bag has it; under the cursor's bag this re-enters the loop at
    [n + 1]. *)
Theorem stored_block_is_left_alone
        {DB : Type} {monitor : Monitor DB} (n : Z) (callbacks : Callbacks)
        (flag : bool) (block : Block) (s : State DB) (d1 d2 : DB)
        (res num : QResult) (r0 r1 : Row) (tl tl' : list Row) :
  (forall q d, is_lookup q = true -> fst (exec q d) = d) ->
  exec (getBlockByHash blockchain_id (hash block)) (live (session s))
    = (d1, Resolves (Some res)) ->
  (rowCount res =? 0) = false ->
  rows res = r0 :: tl ->
  transaction_count r0 = Some (Z.of_nat (List.length (transactions block))) ->
  exec (getBlockTransactionCount blockchain_id n) d1
    = (d2, Resolves (Some num)) ->
  (rowCount num =? 0) = false ->
  rows num = r1 :: tl' ->
  count r1 = Some (Z.of_nat (List.length (transactions block))) ->
  getBlock_callback n callbacks flag None (Some block) s =
    (Returned flag, s,
     [EvQuery (Sql (getBlockByHash blockchain_id (hash block)));
      EvQuery (Sql (getBlockTransactionCount blockchain_id n))]
     ++ if hasOwnProperty callbacks blockAlreadyExists
        then [EvLog Info "Block with hash found, skipping."; EvMainLoop (n + 1)]
        else [])
  /\ getBlock_callback n cursor_callbacks flag None (Some block) s =
     (Returned flag, s,
      [EvQuery (Sql (getBlockByHash blockchain_id (hash block)));
       EvQuery (Sql (getBlockTransactionCount blockchain_id n));
       EvLog Info "Block with hash found, skipping."; EvMainLoop (n + 1)]).
Proof.
  intros Hread Hq1 Hc1 Hrows1 Htc Hq2 Hc2 Hrows2 Hcount.
  assert (d1 = live (session s)) as ->.
  { now rewrite <- (Hread (getBlockByHash blockchain_id (hash block))
                          (live (session s)) eq_refl), Hq1. }
  assert (d2 = live (session s)) as ->.
  { now rewrite <- (Hread (getBlockTransactionCount blockchain_id n)
                          (live (session s)) eq_refl), Hq2. }
  assert (Hsame : same_count (List.length (transactions block))
                             (transaction_count r0) = true)
    by (rewrite Htc; apply Z.eqb_refl).
  assert (Hsame' : same_count (List.length (transactions block))
                              (count r1) = true)
    by (rewrite Hcount; apply Z.eqb_refl).
  assert (G : forall cbs,
             getBlock_callback n cbs flag None (Some block) s =
             (Returned flag, s,
              [EvQuery (Sql (getBlockByHash blockchain_id (hash block)));
               EvQuery (Sql (getBlockTransactionCount blockchain_id n))]
              ++ if hasOwnProperty cbs blockAlreadyExists
                 then [EvLog Info "Block with hash found, skipping.";
                       EvMainLoop (n + 1)]
                 else [])).
  { intros cbs. unfold getBlock_callback.
    assert (R : getBlock_reconcile n cbs block s =
                (Returned tt, s,
                 [EvQuery (Sql (getBlockByHash blockchain_id (hash block)));
                  EvQuery (Sql (getBlockTransactionCount blockchain_id n))]
                 ++ if hasOwnProperty cbs blockAlreadyExists
                    then [EvLog Info "Block with hash found, skipping.";
                          EvMainLoop (n + 1)]
                    else [])).
    { rewrite (getBlock_reconcile_same_count n cbs block s _ res r0 tl
                 Hq1 Hc1 Hrows1 Hsame).
      rewrite set_live_same.
      rewrite (getBlock_height_check_row n cbs block s _ num r1 tl'
                 Hq2 Hrows2).
      rewrite Hc2, Hsame', set_live_same. reflexivity. }
    rewrite (bind_Returned _ _ _ _ _ _ R). cbn. now rewrite app_nil_r. }
  split; [apply G | apply (G cursor_callbacks)].
Qed.

Lemma stored_block_is_left_alone_witness :
  getBlock_callback (monitor := Sample.on_tables) 7 cursor_callbacks false
                    None (Some Sample.block7) (start_state Sample.stored7 0)
  = (Returned false, start_state Sample.stored7 0,
     [EvQuery (Sql (getBlockByHash 1 "0xB7"));
      EvQuery (Sql (getBlockTransactionCount 1 7));
      EvLog Info "Block with hash found, skipping."; EvMainLoop 8]).
Proof.
  refine (proj2 (stored_block_is_left_alone
                   (monitor := Sample.on_tables) 7 cursor_callbacks false
                   Sample.block7 (start_state Sample.stored7 0)
                   Sample.stored7 Sample.stored7
                   (mkQResult 1 [mkRow (Some 1) None 0])
                   (mkQResult 1 [mkRow None (Some 1) 0])
                   (mkRow (Some 1) None 0) (mkRow None (Some 1) 0) [] []
                   _ _ _ _ _ _ _ _ _)).
  - intros q d H. destruct q; try discriminate H; reflexivity.
  - vm_compute. reflexivity.
  - reflexivity.
  - reflexivity.
  - reflexivity.
  - vm_compute. reflexivity.
  - reflexivity.
  - reflexivity.
  - reflexivity.
Defined.

(** C6.  In both re-persist cases, the stored count of the hash differing
    from the block's, or agreeing with it while the total at the height
    does not, the reconciler goes from its lookups straight to
    [storeBlockAssocData]: the next statement is BEGIN, then, BEGIN being
    accepted, the delete of the logs at the height, and no statement that
    inserts or deletes a block row is sent. *)
Theorem repersist_inserts_no_block_row
        {DB : Type} {monitor : Monitor DB} (n : Z) (callbacks : Callbacks)
        (block : Block) (s : State DB) (d1 : DB) (res : QResult) (r0 : Row)
        (tl : list Row) :
  exec (getBlockByHash blockchain_id (hash block)) (live (session s))
    = (d1, Resolves (Some res)) ->
  (rowCount res =? 0) = false ->
  rows res = r0 :: tl ->
  (same_count (List.length (transactions block)) (transaction_count r0) = false ->
   getBlock_reconcile n callbacks block s =
   (outcome_of (storeBlockAssocData callbacks block (set_live s d1)),
    state_of (storeBlockAssocData callbacks block (set_live s d1)),
    [EvQuery (Sql (getBlockByHash blockchain_id (hash block)));
     EvLog Info "At a re-instated block, restoring data."]
    ++ events_of (storeBlockAssocData callbacks block (set_live s d1))))
  /\ (forall d2 num r1 tl',
      same_count (List.length (transactions block)) (transaction_count r0) = true ->
      exec (getBlockTransactionCount blockchain_id n) d1
        = (d2, Resolves (Some num)) ->
      rows num = r1 :: tl' ->
      negb (rowCount num =? 0)
      && same_count (List.length (transactions block)) (count r1) = false ->
      getBlock_reconcile n callbacks block s =
      (outcome_of (storeBlockAssocData callbacks block (set_live s d2)),
       state_of (storeBlockAssocData callbacks block (set_live s d2)),
       [EvQuery (Sql (getBlockByHash blockchain_id (hash block)));
        EvQuery (Sql (getBlockTransactionCount blockchain_id n));
        EvLog Info "At block, found stale transactions."]
       ++ events_of (storeBlockAssocData callbacks block (set_live s d2))))
  /\ (forall s',
      (exists rest,
         events_of (storeBlockAssocData callbacks block s')
         = EvQuery BEGIN :: rest)
      /\ (transaction_reply BEGIN (live (session s')) = None ->
          exists rest,
            events_of (storeBlockAssocData callbacks block s') =
            EvQuery BEGIN
            :: EvQuery (Sql (deleteLogs blockchain_id (number block))) :: rest)
      /\ forallb (fun st => negb (writes_block_row st))
                 (statements (events_of (storeBlockAssocData callbacks block s')))
         = true).
Proof.
  intros Hq1 Hc1 Hrows1. split; [|split].
  - intros Hsame.
    exact (getBlock_reconcile_other_count n callbacks block s d1 res r0 tl
             Hq1 Hc1 Hrows1 Hsame).
  - intros d2 num r1 tl' Hsame Hq2 Hrows2 Hstale.
    rewrite (getBlock_reconcile_same_count n callbacks block s d1 res r0 tl
               Hq1 Hc1 Hrows1 Hsame).
    rewrite (getBlock_height_check_row n callbacks block (set_live s d1) d2
               num r1 tl' Hq2 Hrows2).
    rewrite Hstale. reflexivity.
  - intros s'. split; [|split].
    + apply storeBlockAssocData_head.
    + apply storeBlockAssocData_head.
    + apply storeBlockAssocData_keeps_block_rows.
Qed.

Lemma repersist_inserts_no_block_row_witness :
  statements (events_of (getBlock_reconcile (monitor := Sample.on_tables) 7
                           cursor_callbacks Sample.block7
                           (start_state Sample.emptied7 0)))
  = [Sql (getBlockByHash 1 "0xB7"); BEGIN; Sql (deleteLogs 1 7);
     Sql (deleteTransactions 1 7);
     Sql (addTransaction "0xB7" (Sample.transfer "0xt7" 0) (Some true) None);
     Sql (deleteLogsByTransactionHash "0xt7");
     Sql (addLog "0xt7" 7 0 "0xtoken" "0x01" ["0xtopic0"; "0xtopic1"]);
     Sql (addLog "0xt7" 7 1 "0xtoken" "0x01" ["0xtopic0"; "0xtopic1"]);
     COMMIT]
  /\ statements (events_of (getBlock_reconcile (monitor := Sample.on_tables) 7
                              cursor_callbacks Sample.block7
                              (start_state Sample.stale7 0)))
     = [Sql (getBlockByHash 1 "0xB7"); Sql (getBlockTransactionCount 1 7);
        BEGIN; Sql (deleteLogs 1 7); Sql (deleteTransactions 1 7);
        Sql (addTransaction "0xB7" (Sample.transfer "0xt7" 0) (Some true) None);
        Sql (deleteLogsByTransactionHash "0xt7");
        Sql (addLog "0xt7" 7 0 "0xtoken" "0x01" ["0xtopic0"; "0xtopic1"]);
        Sql (addLog "0xt7" 7 1 "0xtoken" "0x01" ["0xtopic0"; "0xtopic1"]);
        COMMIT].
Proof.
  split.
  - rewrite (proj1 (repersist_inserts_no_block_row
                      (monitor := Sample.on_tables) 7 cursor_callbacks
                      Sample.block7 (start_state Sample.emptied7 0)
                      Sample.emptied7 (mkQResult 1 [mkRow (Some 0) None 0])
                      (mkRow (Some 0) None 0) []
                      ltac:(vm_compute; reflexivity) eq_refl eq_refl)
                   eq_refl).
    vm_compute. reflexivity.
  - rewrite (proj1 (proj2 (repersist_inserts_no_block_row
                      (monitor := Sample.on_tables) 7 cursor_callbacks
                      Sample.block7 (start_state Sample.stale7 0)
                      Sample.stale7 (mkQResult 1 [mkRow (Some 1) None 0])
                      (mkRow (Some 1) None 0) []
                      ltac:(vm_compute; reflexivity) eq_refl eq_refl))
                   Sample.stale7 (mkQResult 1 [mkRow None (Some 2) 0])
                   (mkRow None (Some 2) 0) []
                   eq_refl ltac:(vm_compute; reflexivity) eq_refl eq_refl).
    vm_compute. reflexivity.
Defined.

(** C10.  When the stored row of the hash agrees with the block on the
    transaction count, the reconciler reads the first row of the
    height-wide count.  If that result has no row, the read throws a
    TypeError and nothing is persisted: no statement follows the two
    lookups.  If it has a row, the read succeeds, and the reconciler either
    reports the block as stored or persists it again. *)
Theorem height_count_needs_a_row
        {DB : Type} {monitor : Monitor DB} (n : Z) (callbacks : Callbacks)
        (block : Block) (s : State DB) (d1 d2 : DB) (res num : QResult)
        (r0 : Row) (tl : list Row) :
  exec (getBlockByHash blockchain_id (hash block)) (live (session s))
    = (d1, Resolves (Some res)) ->
  (rowCount res =? 0) = false ->
  rows res = r0 :: tl ->
  same_count (List.length (transactions block)) (transaction_count r0) = true ->
  exec (getBlockTransactionCount blockchain_id n) d1
    = (d2, Resolves (Some num)) ->
  getBlock_reconcile n callbacks block s =
    match rows num with
    | [] =>
        (Rejected TypeError, set_live s d2,
         [EvQuery (Sql (getBlockByHash blockchain_id (hash block)));
          EvQuery (Sql (getBlockTransactionCount blockchain_id n))])
    | r1 :: _ =>
        if negb (rowCount num =? 0)
           && same_count (List.length (transactions block)) (count r1)
        then (Returned tt, set_live s d2,
              EvQuery (Sql (getBlockByHash blockchain_id (hash block)))
              :: EvQuery (Sql (getBlockTransactionCount blockchain_id n))
              :: if hasOwnProperty callbacks blockAlreadyExists
                 then [EvLog Info "Block with hash found, skipping.";
                       EvMainLoop (n + 1)]
                 else [])
        else (outcome_of (storeBlockAssocData callbacks block (set_live s d2)),
              state_of (storeBlockAssocData callbacks block (set_live s d2)),
              [EvQuery (Sql (getBlockByHash blockchain_id (hash block)));
               EvQuery (Sql (getBlockTransactionCount blockchain_id n));
               EvLog Info "At block, found stale transactions."]
              ++ events_of (storeBlockAssocData callbacks block (set_live s d2)))
    end.
Proof.
  intros Hq1 Hc1 Hrows1 Hsame Hq2.
  rewrite (getBlock_reconcile_same_count n callbacks block s d1 res r0 tl
             Hq1 Hc1 Hrows1 Hsame).
  destruct (rows num) as [|r1 tl'] eqn:Hrows2.
  - now rewrite (getBlock_height_check_no_row n callbacks block
                   (set_live s d1) d2 num Hq2 Hrows2).
  - rewrite (getBlock_height_check_row n callbacks block (set_live s d1) d2
               num r1 tl' Hq2 Hrows2).
    destruct (negb (rowCount num =? 0) && same_count _ (count r1));
      reflexivity.
Qed.

Lemma height_count_needs_a_row_witness :
  getBlock_reconcile (monitor := Sample.on_rowless_count) 8 cursor_callbacks
                     Sample.block8 (start_state [] 0)
  = (Rejected TypeError, start_state [] 0,
     [EvQuery (Sql (getBlockByHash 1 "0xB8"));
      EvQuery (Sql (getBlockTransactionCount 1 8))]).
Proof.
  exact (height_count_needs_a_row
           (monitor := Sample.on_rowless_count) 8 cursor_callbacks
           Sample.block8 (start_state [] 0) [] []
           (mkQResult 1 [mkRow (Some 0) None 0]) (mkQResult 0 [])
           (mkRow (Some 0) None 0) []
           eq_refl eq_refl eq_refl eq_refl eq_refl).
Defined.

(** A review fetch that meets no error leaves the cursor alone: under the
    bags of the review scheduler the callback never calls [mainLoop]. *)
Lemma review_fetch_without_error_is_quiet
      {DB : Type} {monitor : Monitor DB} (p : Z) (callbacks : Callbacks)
      (flag : bool) (block : option Block) (s : State DB) :
  callbacks <> cursor_callbacks ->
  reentries (events_of (getBlock_callback p callbacks flag None block s)) = 0%nat.
Proof.
  intros H. apply (delivery_vocabulary_reentries callbacks _ H).
  apply emits_getBlock_callback.
Qed.

(** The run that C1 excludes, on the sample node: the cursor is at 1000, a
    review fetch at 990 meets a transient error, and [mainLoop(990)] polls
    the node at 990 under the cursor's callbacks. *)
Example review_fetch_error_run :
  getBlock_callback (monitor := Sample.on_tables) 990 review_callbacks false
    (Some "Error: Invalid JSON RPC response") None (start_state Tables.empty 3)
  = (Returned true, start_state Tables.empty 3,
     [EvLog Error "** JSON RPC or connection timeout failure in CacheMonitor::getBlock, cycling to next node **";
      EvCycleNodes; EvMainLoop 990])
  /\ mainLoop (monitor := Sample.on_tables) 990 (start_state Tables.empty 3)
     = (Returned tt, start_state Tables.empty 3,
        [EvGetBlock 990 cursor_callbacks]).
Proof. split; vm_compute; reflexivity. Qed.

(** ** Further facts on the monitor *)

Section FurtherFacts.

Context {DB : Type} {monitor : Monitor DB}.

Lemma flushBlock_cases n (s : State DB) :
  exists k,
    (1 <= k <= 4)%nat
    /\ statements (events_of (flushBlock n s))
       = firstn k (flush_statements blockchain_id n)
    /\ (outcome_of (flushBlock n s) = Returned tt -> k = 4%nat)
    /\ (forall c, outcome_of (flushBlock n s) <> Exited c)
    /\ snapshot (session (state_of (flushBlock n s))) = snapshot (session s)
    /\ comprehensiveReviewCounter (state_of (flushBlock n s))
       = comprehensiveReviewCounter s.
Proof.
  unfold flushBlock, query, query_reply, log, emit, ret, throw, bind,
    outcome_of, state_of, events_of, flush_statements.
  destruct (exec (deleteLogs blockchain_id n) (live (session s)))
    as [d1 [e1|r1]]; cbn;
    [exists 1%nat; repeat split; first [lia | reflexivity | intros; discriminate]|].
  destruct (exec (deleteTransactions blockchain_id n) d1)
    as [d2 [e2|r2]]; cbn;
    [exists 2%nat; repeat split; first [lia | reflexivity | intros; discriminate]|].
  destruct (exec (deleteOmmers blockchain_id n) d2)
    as [d3 [e3|r3]]; cbn;
    [exists 3%nat; repeat split; first [lia | reflexivity | intros; discriminate]|].
  destruct (exec (deleteBlock blockchain_id n) d3)
    as [d4 [e4|r4]]; cbn;
    exists 4%nat; repeat split; first [lia | reflexivity | intros; discriminate].
Qed.

Lemma latest_number_cases override result (s : State DB) :
  (exists n0 msg,
      latest_number override result s = (Returned n0, s, [EvLog Info msg]))
  \/ latest_number override result s = (Rejected TypeError, s, []).
Proof.
  unfold latest_number.
  destruct override as [n|]; [left; now exists n, "Using start block number override:"|].
  destruct result as [res|]; [|left; now exists 0, "No latest block, starting at 0"].
  destruct (latest_rowCount res =? 0);
    [left; now exists 0, "No latest block, starting at 0"|].
  destruct (latest_numbers res) as [|n tl]; [now right|].
  left. now exists n, "Retrieved latest block:".
Qed.

Lemma emits_flushBlock n :
  emits (fun e => negb (is_fetch e)) (flushBlock n).
Proof.
  unfold flushBlock, log.
  repeat (apply emits_bind; [first [now apply emits_emit | now apply emits_query]
                            | intros ?]).
  now apply emits_emit.
Qed.

Lemma mainLoop_run n (s : State DB) :
  mainLoop n s =
  if end_reached n
  then (Exited 0, s, [EvLog Info "Reached endBlockOverride:"])
  else (Returned tt, s, [EvGetBlock n cursor_callbacks]).
Proof.
  unfold mainLoop, end_reached. destruct endBlockOverride as [e|]; [|reflexivity].
  destruct (n >=? e); reflexivity.
Qed.

Lemma flushBlock_run n (s : State DB) d1 d2 d3 d4 r1 r2 r3 r4 :
  exec (deleteLogs blockchain_id n) (live (session s)) = (d1, Resolves r1) ->
  exec (deleteTransactions blockchain_id n) d1 = (d2, Resolves r2) ->
  exec (deleteOmmers blockchain_id n) d2 = (d3, Resolves r3) ->
  exec (deleteBlock blockchain_id n) d3 = (d4, Resolves r4) ->
  flushBlock n s =
  (Returned tt, set_live s d4,
   [EvLog Info "Flushing";
    EvQuery (Sql (deleteLogs blockchain_id n));
    EvLog Info "Logs deleted, cascading to events and related tables";
    EvQuery (Sql (deleteTransactions blockchain_id n));
    EvLog Info "Transactions deleted";
    EvQuery (Sql (deleteOmmers blockchain_id n));
    EvLog Info "Ommers deleted";
    EvQuery (Sql (deleteBlock blockchain_id n));
    EvLog Info "Completed flushing"]).
Proof.
  intros H1 H2 H3 H4.
  unfold flushBlock, query, query_reply, log, emit, ret, throw, bind.
  rewrite H1. cbn. rewrite H2. cbn. rewrite H3. cbn. rewrite H4. reflexivity.
Qed.

Lemma emits_addOmmers_start nibling ommers :
  emits start_vocabulary (addOmmers nibling ommers).
Proof.
  induction ommers as [|o rest IH]; simpl; [apply emits_ret|].
  apply emits_bind; [now apply emits_query_reply|]. intros r.
  apply emits_bind; [exact IH | intros; apply emits_ret].
Qed.

Lemma emits_start_promises_start block :
  emits start_vocabulary (start_promises block).
Proof.
  unfold start_promises.
  apply emits_bind; [now apply emits_control|]. intros _.
  apply emits_bind; [now apply emits_query|]. intros _.
  apply emits_bind; [now apply emits_query|]. intros _.
  apply emits_bind.
  - destruct (uncles block) as [[|o os]|]; try apply emits_ret.
    apply emits_bind; [apply emits_addOmmers_start | intros; apply emits_ret].
  - intros ommers. apply emits_bind; [|intros; apply emits_ret].
    intros x. rewrite request_receipts_run. unfold events_of. cbn [snd].
    induction (transactions block); simpl; auto.
Qed.

Lemma start_not_closing e :
  start_vocabulary e = true -> negb (is_commit_or_reentry e) = true.
Proof.
  destruct e as [| | |[| | |q]| | | | | |]; simpl; try discriminate;
    reflexivity.
Qed.

Lemma task_not_closing e :
  task_vocabulary e = true -> negb (is_commit_or_reentry e) = true.
Proof.
  destruct e as [| | |[| | |q]| | | | | |]; simpl; try discriminate;
    reflexivity.
Qed.

Lemma promises_done_run callbacks block (s : State DB) :
  promises_done callbacks block s =
  match transaction_reply COMMIT (live (session s)) with
  | Some e => (Rejected e, s, [EvQuery COMMIT])
  | None =>
      (Returned tt,
       mkState (run_commit (session s)) (comprehensiveReviewCounter s),
       EvQuery COMMIT
       :: if hasOwnProperty callbacks moveToNextBlock
          then [EvMainLoop (number block + 1)]
          else [])
  end.
Proof.
  unfold promises_done, moveToNextBlock_handler, call_mainLoop, bind.
  rewrite control_run.
  destruct (transaction_reply COMMIT (live (session s))); [reflexivity|].
  destruct (hasOwnProperty callbacks moveToNextBlock); reflexivity.
Qed.

Lemma promises_failed_head e schedule (pending : list (M DB (Task DB)))
      (s : State DB) :
  exists post,
    events_of (promises_failed e schedule pending s) = EvQuery ROLLBACK :: post.
Proof.
  unfold promises_failed.
  destruct (bind_events (control_reply ROLLBACK)
              (fun reply => after_rollback reply schedule pending) s)
    as [tl ->].
  unfold control_reply.
  destruct (transaction_reply ROLLBACK (live (session s)));
    eexists; reflexivity.
Qed.

Lemma decode_log_run id l (s : State DB) d r :
  setDecodedLog id l (live (session s)) = (d, r) ->
  decode_log id l s =
  (match r with Some e => Rejected e | None => Returned tt end,
   set_live s d, [EvSetDecodedLog id l]).
Proof. intros H. unfold decode_log. now rewrite H. Qed.

Lemma addLogs_statements t logs :
  forall s : State DB,
    outcome_of (addLogs t logs s) = Returned tt ->
    statements (events_of (addLogs t logs s))
    = map (fun l => Sql (addLog (tx_hash t) (log_blockNumber l)
                                (log_logIndex l) (log_address l)
                                (log_data l) (log_topics l))) logs.
Proof.
  induction logs as [|l rest IH]; intros s; [reflexivity|].
  cbn [addLogs map].
  destruct (exec (addLog (tx_hash t) (log_blockNumber l) (log_logIndex l)
                         (log_address l) (log_data l) (log_topics l))
                 (live (session s))) as [d [e|logResult]] eqn:Hq.
  - rewrite (bind_Rejected _ _ _ _ _ _ (query_Rejects _ _ _ _ Hq)).
    discriminate.
  - rewrite (bind_Returned _ _ _ _ _ _ (query_Resolves _ _ _ _ Hq)).
    unfold outcome_of at 1, events_of at 1. cbn [fst snd].
    assert (Hskip :
              outcome_of ((log Error "** Could not store log" ;;
                           addLogs t rest) (set_live s d)) = Returned tt ->
              statements
                ([EvQuery (Sql (addLog (tx_hash t) (log_blockNumber l)
                                       (log_logIndex l) (log_address l)
                                       (log_data l) (log_topics l)))]
                 ++ events_of ((log Error "** Could not store log" ;;
                                addLogs t rest) (set_live s d)))
              = Sql (addLog (tx_hash t) (log_blockNumber l) (log_logIndex l)
                            (log_address l) (log_data l) (log_topics l))
                :: map (fun l => Sql (addLog (tx_hash t) (log_blockNumber l)
                                             (log_logIndex l) (log_address l)
                                             (log_data l) (log_topics l)))
                       rest).
    { unfold log. rewrite bind_emit.
      unfold outcome_of at 1, events_of at 1. cbn [fst snd].
      intros H. cbn. f_equal. now apply IH. }
    destruct logResult as [res|]; [|exact Hskip].
    destruct (rowCount res =? 0); [exact Hskip|].
    unfold first_row. destruct (rows res) as [|r0 tl].
    + unfold bind, throw. discriminate.
    + rewrite bind_ret.
      destruct (setDecodedLog (log_id r0) l (live (session (set_live s d))))
        as [d' [e|]] eqn:Hdec.
      * rewrite (bind_Rejected _ _ _ _ _ _ (decode_log_run _ _ _ _ _ Hdec)).
        discriminate.
      * rewrite (bind_Returned _ _ _ _ _ _ (decode_log_run _ _ _ _ _ Hdec)).
        unfold outcome_of at 1, events_of at 1. cbn [fst snd].
        intros H. cbn. f_equal. now apply IH.
Qed.

Lemma persist_keeps_block_rows callbacks e :
  persist_vocabulary callbacks e = true -> keeps_block_rows e = true.
Proof.
  destruct e as [| | |[| | |q]| | | | | |]; simpl; try discriminate;
    try reflexivity.
  destruct q; simpl; intros; congruence.
Qed.

Lemma statements_keep_block_rows evs :
  forallb keeps_block_rows evs = true ->
  forallb (fun st => negb (writes_block_row st)) (statements evs) = true.
Proof.
  induction evs as [|e evs IH]; [reflexivity|].
  cbn [forallb]. intros H. apply andb_prop in H. destruct H as [He H].
  unfold statements in *. cbn [flat_map]. rewrite forallb_app, (IH H), andb_true_r.
  destruct e; try reflexivity. cbn in He |- *. now rewrite He.
Qed.

Lemma emits_height_check_keeps n callbacks block :
  emits keeps_block_rows (getBlock_height_check n callbacks block).
Proof.
  unfold getBlock_height_check.
  apply emits_bind; [now apply emits_query|]. intros numCheckRes.
  apply emits_bind.
  - destruct numCheckRes as [num|]; [|apply emits_ret].
    destruct (rowCount num =? 0); [apply emits_ret|].
    apply emits_bind; [apply emits_first_row | intros; apply emits_ret].
  - intros [|].
    + unfold blockAlreadyExists_handler, call_mainLoop, log.
      destruct callbacks; cbn [hasOwnProperty]; repeat emits_step.
    + apply emits_bind.
      * destruct numCheckRes; [apply emits_first_row | apply emits_throw].
      * intros _. apply emits_bind; [now apply emits_emit|]. intros _.
        apply emits_weaken with (P := persist_vocabulary callbacks);
          [apply persist_keeps_block_rows | apply emits_storeBlockAssocData].
Qed.

(** The hash of the block has a stored row: no statement of the
    reconciler inserts or deletes a block row. *)
Lemma getBlock_reconcile_stored n callbacks block (s : State DB) d checkRes :
  exec (getBlockByHash blockchain_id (hash block)) (live (session s))
    = (d, Resolves checkRes) ->
  no_rows checkRes = false ->
  forallb (fun st => negb (writes_block_row st))
          (statements (events_of (getBlock_reconcile n callbacks block s)))
  = true.
Proof.
  intros Hq Hrows. apply statements_keep_block_rows.
  unfold getBlock_reconcile.
  rewrite (bind_Returned _ _ _ _ _ _ (query_Resolves _ _ _ _ Hq)).
  rewrite Hrows. cbn [negb]. unfold events_of at 1. cbn [snd forallb app].
  cbn [keeps_block_rows writes_block_row negb andb].
  match goal with |- forallb _ (events_of (?m _)) = true =>
    assert (E : emits keeps_block_rows m); [|apply E]
  end.
  apply emits_bind.
  - destruct checkRes; [apply emits_first_row | apply emits_throw].
  - intros r0. destruct (same_count _ _).
    + apply emits_height_check_keeps.
    + apply emits_bind; [now apply emits_emit|]. intros _.
      apply emits_weaken with (P := persist_vocabulary callbacks);
        [apply persist_keeps_block_rows | apply emits_storeBlockAssocData].
Qed.

Lemma getBlock_save_head callbacks block (s : State DB) :
  exists tl,
    events_of (getBlock_save callbacks block s)
    = EvQuery (Sql (addBlock blockchain_id (number block) (hash block)
                             (header block))) :: tl.
Proof.
  unfold getBlock_save, bind.
  pose proof (query_events (addBlock blockchain_id (number block) (hash block)
                                     (header block)) s) as Hq.
  destruct (query _ s) as [[[result|c|e] s1] ev1];
    unfold events_of in *; cbn [snd] in *; subst ev1.
  - match goal with |- context [let (_, _) := ?x in _] =>
      destruct x as [[o s2] ev2] end.
    cbn. eexists; reflexivity.
  - eexists; reflexivity.
  - eexists; reflexivity.
Qed.

(** The hash of the block has no stored row: the reconciler logs the
    find, then saves the block, the insert of the block row first. *)
Lemma getBlock_reconcile_new n callbacks block (s : State DB) d checkRes :
  exec (getBlockByHash blockchain_id (hash block)) (live (session s))
    = (d, Resolves checkRes) ->
  no_rows checkRes = true ->
  getBlock_reconcile n callbacks block s =
  (outcome_of (getBlock_save callbacks block (set_live s d)),
   state_of (getBlock_save callbacks block (set_live s d)),
   [EvQuery (Sql (getBlockByHash blockchain_id (hash block)));
    new_block_signal callbacks]
   ++ events_of (getBlock_save callbacks block (set_live s d))).
Proof.
  intros Hq Hrows. unfold getBlock_reconcile.
  rewrite (bind_Returned _ _ _ _ _ _ (query_Resolves _ _ _ _ Hq)).
  rewrite Hrows. cbn [negb].
  unfold new_block_signal, foundDuringReviewBlock_handler, log.
  destruct (hasOwnProperty callbacks foundDuringReviewBlock);
    rewrite !bind_emit; reflexivity.
Qed.

Lemma addOmmers_at_once nibling ommers :
  forall s : State DB,
    addOmmers nibling ommers s =
    (Returned (first_rejected
                 (snd (sent_at_once
                         (map (fun o => addOmmer blockchain_id o nibling) ommers)
                         (live (session s))))),
     set_live s (fst (sent_at_once
                        (map (fun o => addOmmer blockchain_id o nibling) ommers)
                        (live (session s)))),
     map (fun q => EvQuery (Sql q))
         (map (fun o => addOmmer blockchain_id o nibling) ommers)).
Proof.
  induction ommers as [|o rest IH]; intros s.
  - cbn. now rewrite set_live_same.
  - cbn [addOmmers map sent_at_once]. unfold bind at 1, query_reply.
    destruct (exec (addOmmer blockchain_id o nibling) (live (session s)))
      as [d r].
    rewrite (bind_Returned _ _ _ _ _ _ (IH (set_live s d))).
    cbn [set_live live session].
    destruct (sent_at_once (map (fun o => addOmmer blockchain_id o nibling) rest) d)
      as [d' rs].
    unfold ret, outcome_of, state_of, events_of. cbn [fst snd app first_rejected].
    rewrite app_nil_r. destruct r; reflexivity.
Qed.

Lemma sent_at_once_length qs :
  forall d : DB, List.length (snd (sent_at_once qs d)) = List.length qs.
Proof.
  induction qs as [|q rest IH]; intros d; [reflexivity|].
  cbn [sent_at_once]. destruct (exec q d) as [d' r]. specialize (IH d').
  destruct (sent_at_once rest d') as [d'' rs]. cbn in *. now rewrite IH.
Qed.

Lemma flushBlock_in_turn n (s : State DB) :
  statements (events_of (flushBlock n s))
  = fst (fst (sent_in_turn (flush_queries blockchain_id n) (live (session s))))
  /\ state_of (flushBlock n s)
     = set_live s (snd (fst (sent_in_turn (flush_queries blockchain_id n)
                                          (live (session s)))))
  /\ outcome_of (flushBlock n s)
     = match snd (sent_in_turn (flush_queries blockchain_id n)
                               (live (session s))) with
       | Some e => Rejected e
       | None => Returned tt
       end.
Proof.
  unfold flushBlock, query, query_reply, log, emit, ret, throw, bind,
    outcome_of, state_of, events_of, flush_queries. cbn [sent_in_turn].
  destruct (exec (deleteLogs blockchain_id n) (live (session s)))
    as [d1 [e1|r1]]; cbn; [now repeat split|].
  destruct (exec (deleteTransactions blockchain_id n) d1)
    as [d2 [e2|r2]]; cbn; [now repeat split|].
  destruct (exec (deleteOmmers blockchain_id n) d2)
    as [d3 [e3|r3]]; cbn; [now repeat split|].
  destruct (exec (deleteBlock blockchain_id n) d3)
    as [d4 [e4|r4]]; cbn; now repeat split.
Qed.

(** How a persist ends.  It returns with COMMIT accepted and, under a
    bag that has ['moveToNextBlock'], the call of [mainLoop].  Or it does
    not return and has not called [mainLoop]; it has then sent COMMIT only
    if COMMIT was rejected, and ROLLBACK is the statement after it. *)
Lemma storeBlockAssocData_cases callbacks block (s : State DB) :
  (outcome_of (storeBlockAssocData callbacks block s) = Returned tt
   /\ exists pre,
       events_of (storeBlockAssocData callbacks block s)
       = pre ++ EvQuery COMMIT
             :: (if hasOwnProperty callbacks moveToNextBlock
                 then [EvMainLoop (number block + 1)]
                 else [])
       /\ forallb (fun e => negb (is_commit_or_reentry e)) pre = true)
  \/ (outcome_of (storeBlockAssocData callbacks block s) <> Returned tt
      /\ (forallb (fun e => negb (is_commit_or_reentry e))
                  (events_of (storeBlockAssocData callbacks block s)) = true
          \/ exists pre post,
              events_of (storeBlockAssocData callbacks block s)
              = pre ++ EvQuery COMMIT :: EvQuery ROLLBACK :: post
              /\ forallb (fun e => negb (is_commit_or_reentry e)) pre = true
              /\ forallb (fun e => negb (is_commit_or_reentry e)) post = true)).
Proof.
  unfold storeBlockAssocData.
  pose proof (emits_weaken _ _ _ start_not_closing
                (emits_start_promises_start block) s) as H1.
  pose proof (start_promises_pool block s) as Hpool.
  destruct (start_promises block s) as [[[promises|c|e] s1] ev1] eqn:Hstart;
    unfold events_of in H1; cbn [snd] in H1.
  2:{ rewrite (bind_Exited _ _ _ _ _ _ Hstart).
      right. split; [discriminate | now left]. }
  2:{ rewrite (bind_Rejected _ _ _ _ _ _ Hstart).
      right. split; [discriminate | now left]. }
  rewrite (bind_Returned _ _ _ _ _ _ Hstart).
  specialize (Hpool promises eq_refl).
  destruct (orderly_Promise_all arrival promises Hpool) as [Ho Hy].
  pose proof (emits_tasks _ _ task_not_closing Ho s1) as H2.
  specialize (Hy s1).
  assert (Hfail : forall e schedule pending s2,
             orderly_pool pending ->
             forallb (fun e => negb (is_commit_or_reentry e))
                     (events_of (promises_failed e schedule pending s2)) = true).
  { intros e schedule pending s2 Hp.
    apply (emits_promises_failed _ e schedule pending);
      [apply task_not_closing | reflexivity | reflexivity | exact Hp]. }
  destruct (Promise_all arrival promises s1) as [[[st|c|e] s2] ev2] eqn:Hall;
    unfold outcome_of, events_of in H2, Hy; cbn [fst snd] in H2, Hy.
  2:{ rewrite (bind_Exited _ _ _ _ _ _ Hall).
      unfold outcome_of, events_of. cbn [fst snd].
      right. split; [discriminate|]. left. now rewrite forallb_app, H1, H2. }
  2:{ rewrite (bind_Rejected _ _ _ _ _ _ Hall).
      unfold outcome_of, events_of. cbn [fst snd].
      right. split; [discriminate|]. left. now rewrite forallb_app, H1, H2. }
  rewrite (bind_Returned _ _ _ _ _ _ Hall).
  specialize (Hy st eq_refl).
  destruct st as [|e schedule pending]; cbn [left_pending] in Hy.
  - unfold catch. rewrite promises_done_run.
    destruct (transaction_reply COMMIT (live (session s2))) as [e|].
    + pose proof (promises_failed_never_returns e [] [] s2 tt) as Hnr.
      pose proof (Hfail e [] [] s2 Hy) as H3.
      destruct (promises_failed_head e [] [] s2) as [post Hpost].
      destruct (promises_failed e [] [] s2) as [[o s3] ev3].
      unfold outcome_of, events_of in *. cbn [fst snd] in *.
      right. split; [exact Hnr|]. right. exists (ev1 ++ ev2), post.
      subst ev3. cbn [forallb] in H3. apply andb_prop in H3.
      rewrite forallb_app, H1, H2, <- app_assoc. cbn [app]. tauto.
    + unfold outcome_of, events_of. cbn [fst snd].
      left. split; [reflexivity|]. exists (ev1 ++ ev2).
      rewrite forallb_app, H1, H2, <- app_assoc. now split.
  - pose proof (promises_failed_never_returns e schedule pending s2 tt) as Hnr.
    pose proof (Hfail e schedule pending s2 Hy) as H3.
    destruct (promises_failed e schedule pending s2) as [[o s3] ev3].
    unfold outcome_of, events_of in *. cbn [fst snd] in *.
    right. split; [exact Hnr|]. left.
    now rewrite !forallb_app, H1, H2, H3.
Qed.

Lemma not_closing_reentries evs :
  forallb (fun e => negb (is_commit_or_reentry e)) evs = true ->
  reentries evs = 0%nat.
Proof.
  unfold reentries. induction evs as [|e evs IH]; [reflexivity|].
  cbn [forallb filter]. intros H. apply andb_prop in H. destruct H as [He H].
  destruct e; cbn in He |- *; auto; discriminate.
Qed.

Lemma carries_on_weaken {A} (P Q : Z -> Prop)
      (r : Outcome A * State DB * list Event) :
  (forall k, P k -> Q k) -> carries_on P r -> carries_on Q r.
Proof.
  unfold carries_on. intros HPQ. destruct (outcome_of r); auto.
  intros (pre & k & H1 & H2 & H3). exists pre, k. auto.
Qed.

(** What comes after events that do not call [mainLoop] decides. *)
Lemma carries_on_after {A} (P : Z -> Prop) ev0
      (r : Outcome A * State DB * list Event) :
  reentries ev0 = 0%nat ->
  carries_on P r ->
  carries_on P (outcome_of r, state_of r, ev0 ++ events_of r).
Proof.
  unfold carries_on, outcome_of, state_of, events_of. cbn [fst snd].
  intros H0. destruct (fst (fst r)).
  - intros (pre & k & H1 & H2 & H3). exists (ev0 ++ pre), k.
    rewrite H1, app_assoc, reentries_app, H0, H2. auto.
  - intros H. now rewrite reentries_app, H0, H.
  - intros H. now rewrite reentries_app, H0, H.
Qed.

Lemma storeBlockAssocData_carries_on block (s : State DB) :
  carries_on (fun k => k = number block + 1)
             (storeBlockAssocData cursor_callbacks block s).
Proof.
  unfold carries_on.
  destruct (storeBlockAssocData_cases cursor_callbacks block s)
    as [(Hret & pre & Hev & Hpre)|(Hret & Hev)].
  - rewrite Hret. exists (pre ++ [EvQuery COMMIT]), (number block + 1).
    rewrite Hev. cbn [hasOwnProperty]. rewrite <- app_assoc.
    split; [reflexivity|]. split; [|reflexivity].
    rewrite reentries_app, (not_closing_reentries _ Hpre). reflexivity.
  - assert (Hno : reentries (events_of (storeBlockAssocData cursor_callbacks
                                           block s)) = 0%nat).
    { destruct Hev as [Hev|(pre & post & -> & Hpre & Hpost)];
        [now apply not_closing_reentries|].
      rewrite reentries_app, (not_closing_reentries _ Hpre).
      unfold reentries. cbn [filter is_mainLoop].
      exact (not_closing_reentries _ Hpost). }
    destruct (outcome_of (storeBlockAssocData cursor_callbacks block s))
      as [[]| |]; [congruence| |]; exact Hno.
Qed.

Lemma getBlock_save_carries_on block (s : State DB) :
  carries_on (fun k => k = number block + 1)
             (getBlock_save cursor_callbacks block s).
Proof.
  unfold getBlock_save.
  destruct (exec (addBlock blockchain_id (number block) (hash block)
                           (header block)) (live (session s)))
    as [d [e|result]] eqn:Hq.
  - now rewrite (bind_Rejected _ _ _ _ _ _ (query_Rejects _ _ _ _ Hq)).
  - rewrite (bind_Returned _ _ _ _ _ _ (query_Resolves _ _ _ _ Hq)).
    destruct (no_rows result).
    + reflexivity.
    + apply carries_on_after; [reflexivity|].
      apply storeBlockAssocData_carries_on.
Qed.

Lemma getBlock_height_check_carries_on n block (s : State DB) :
  carries_on (fun k => k = n + 1 \/ k = number block + 1)
             (getBlock_height_check n cursor_callbacks block s).
Proof.
  assert (Hstore : forall s' ev0,
             reentries ev0 = 0%nat ->
             carries_on (fun k => k = n + 1 \/ k = number block + 1)
               (outcome_of (storeBlockAssocData cursor_callbacks block s'),
                state_of (storeBlockAssocData cursor_callbacks block s'),
                ev0 ++ events_of (storeBlockAssocData cursor_callbacks block s'))).
  { intros s' ev0 H0. apply carries_on_after; [exact H0|].
    apply carries_on_weaken with (P := fun k => k = number block + 1);
      [auto | apply storeBlockAssocData_carries_on]. }
  destruct (exec (getBlockTransactionCount blockchain_id n) (live (session s)))
    as [d [e|[num|]]] eqn:Hq.
  - unfold getBlock_height_check.
    now rewrite (bind_Rejected _ _ _ _ _ _ (query_Rejects _ _ _ _ Hq)).
  - destruct (rows num) as [|r1 tl] eqn:Hrows.
    + now rewrite (getBlock_height_check_no_row n cursor_callbacks block s d
                     num Hq Hrows).
    + rewrite (getBlock_height_check_row n cursor_callbacks block s d num r1 tl
                 Hq Hrows).
      destruct (negb (rowCount num =? 0) && same_count _ (count r1)).
      * cbn [hasOwnProperty]. unfold carries_on, outcome_of, events_of.
        cbn [fst snd].
        exists [EvQuery (Sql (getBlockTransactionCount blockchain_id n));
                EvLog Info "Block with hash found, skipping."], (n + 1).
        repeat split. now left.
      * now apply Hstore.
  - unfold getBlock_height_check.
    rewrite (bind_Returned _ _ _ _ _ _ (query_Resolves _ _ _ _ Hq)).
    reflexivity.
Qed.

Lemma getBlock_reconcile_carries_on n block (s : State DB) :
  carries_on (fun k => k = n + 1 \/ k = number block + 1)
             (getBlock_reconcile n cursor_callbacks block s).
Proof.
  destruct (exec (getBlockByHash blockchain_id (hash block)) (live (session s)))
    as [d [e|checkRes]] eqn:Hq.
  - unfold getBlock_reconcile.
    now rewrite (bind_Rejected _ _ _ _ _ _ (query_Rejects _ _ _ _ Hq)).
  - destruct (no_rows checkRes) eqn:Hno.
    + rewrite (getBlock_reconcile_new n cursor_callbacks block s d checkRes
                 Hq Hno).
      apply carries_on_after; [reflexivity|].
      apply carries_on_weaken with (P := fun k => k = number block + 1);
        [auto | apply getBlock_save_carries_on].
    + destruct checkRes as [res|]; [|discriminate].
      cbn [no_rows] in Hno.
      destruct (rows res) as [|r0 tl] eqn:Hrows.
      * unfold getBlock_reconcile.
        rewrite (bind_Returned _ _ _ _ _ _ (query_Resolves _ _ _ _ Hq)).
        cbn [no_rows]. rewrite Hno. cbn [negb]. unfold first_row.
        rewrite Hrows. reflexivity.
      * destruct (same_count (List.length (transactions block))
                             (transaction_count r0)) eqn:Hsame.
        -- rewrite (getBlock_reconcile_same_count n cursor_callbacks block s d
                      res r0 tl Hq Hno Hrows Hsame).
           apply (carries_on_after _ [_]); [reflexivity|].
           apply getBlock_height_check_carries_on.
        -- rewrite (getBlock_reconcile_other_count n cursor_callbacks block s d
                      res r0 tl Hq Hno Hrows Hsame).
           apply carries_on_after; [reflexivity|].
           apply carries_on_weaken with (P := fun k => k = number block + 1);
             [auto | apply storeBlockAssocData_carries_on].
Qed.


Lemma reentries_fetches callbacks l :
  reentries (map (fun p => EvGetBlock p callbacks) l) = 0%nat.
Proof. unfold reentries. induction l as [|p l IH]; [reflexivity | exact IH]. Qed.

Lemma carries_on_then_ret {A B} (P : Z -> Prop) (m : M DB A) (b : B) s :
  carries_on P (m s) -> carries_on P (bind m (fun _ => ret b) s).
Proof.
  unfold carries_on, bind, ret, outcome_of, events_of.
  destruct (m s) as [[[a|c|e] s1] ev1]; cbn [fst snd]; auto.
  now rewrite app_nil_r.
Qed.

Lemma frames_keeps_counter {A} (m : M DB A) : frames m -> keeps_counter m.
Proof. intros H s. apply H. Qed.

Lemma keeps_counter_ret {A} (a : A) : keeps_counter (@ret DB A a).
Proof. intros s. reflexivity. Qed.

Lemma keeps_counter_emit e : keeps_counter (@emit DB e).
Proof. intros s. reflexivity. Qed.

Lemma keeps_counter_bind {A B} (m : M DB A) (k : A -> M DB B) :
  keeps_counter m -> (forall a, keeps_counter (k a)) -> keeps_counter (bind m k).
Proof.
  intros Hm Hk s. specialize (Hm s). unfold bind.
  destruct (m s) as [[[a|c|e] s1] ev1]; try exact Hm.
  specialize (Hk a s1). destruct (k a s1) as [[o s2] ev2].
  unfold state_of in *; cbn [fst snd] in *. congruence.
Qed.

Lemma keeps_counter_catch {A} (m : M DB A) (h : string -> M DB A) :
  keeps_counter m -> (forall e, keeps_counter (h e)) -> keeps_counter (catch m h).
Proof.
  intros Hm Hh s. specialize (Hm s). unfold catch.
  destruct (m s) as [[[a|c|e] s1] ev1]; try exact Hm.
  specialize (Hh e s1). destruct (h e s1) as [[o s2] ev2].
  unfold state_of in *; cbn [fst snd] in *. congruence.
Qed.

Lemma keeps_counter_bind_run {A B} (m : M DB A) (k : A -> M DB B) :
  keeps_counter m ->
  (forall s a, outcome_of (m s) = Returned a -> keeps_counter (k a)) ->
  keeps_counter (bind m k).
Proof.
  intros Hm Hk s. specialize (Hm s). specialize (Hk s). unfold bind.
  destruct (m s) as [[[a|c|e] s1] ev1]; try exact Hm.
  specialize (Hk a eq_refl s1). destruct (k a s1) as [[o s2] ev2].
  unfold state_of in *; cbn [fst snd] in *. congruence.
Qed.

Lemma keeps_counter_control_reply st : keeps_counter (control_reply st).
Proof.
  intros s. unfold control_reply.
  destruct (transaction_reply st (live (session s))); reflexivity.
Qed.

Lemma keeps_counter_control st : keeps_counter (control st).
Proof.
  intros s. rewrite control_run.
  destruct (transaction_reply st (live (session s))); reflexivity.
Qed.

Lemma keeps_counter_start_promises block :
  keeps_counter (start_promises block).
Proof.
  unfold start_promises. apply keeps_counter_bind;
    [apply keeps_counter_control|]. intros _.
  apply frames_keeps_counter, frames_start_promises_rest.
Qed.

Lemma keeps_counter_promises_failed e schedule
      (pending : list (M DB (Task DB))) :
  orderly_pool pending -> keeps_counter (promises_failed e schedule pending).
Proof.
  intros Hpend. unfold promises_failed.
  apply keeps_counter_bind; [apply keeps_counter_control_reply|].
  intros reply. unfold after_rollback.
  destruct (orderly_meanwhile schedule pending Hpend) as [(_ & Hf & _) Hy].
  apply keeps_counter_bind_run; [now apply frames_keeps_counter|].
  intros s rest Hrest. specialize (Hy s rest Hrest). cbv beta in Hy.
  destruct reply as [e'|].
  - apply keeps_counter_bind; [|intros _ s'; reflexivity].
    now apply frames_keeps_counter, orderly_run_out.
  - unfold sleep, log.
    apply keeps_counter_bind; [apply keeps_counter_emit|]. intros _.
    apply keeps_counter_bind.
    + now apply frames_keeps_counter, (orderly_meanwhile (fst rest) (snd rest)).
    + intros _ s'. reflexivity.
Qed.

Lemma keeps_counter_storeBlockAssocData callbacks block :
  keeps_counter (storeBlockAssocData callbacks block).
Proof.
  unfold storeBlockAssocData.
  apply keeps_counter_bind_run; [apply keeps_counter_start_promises|].
  intros s promises Hstart.
  pose proof (start_promises_pool block s promises Hstart) as Hpool.
  destruct (orderly_Promise_all arrival promises Hpool) as [(_ & Hf & _) Hy].
  apply keeps_counter_bind_run; [now apply frames_keeps_counter|].
  intros s1 st Hst. specialize (Hy s1 st Hst). cbv beta in Hy.
  destruct st as [|e schedule pending]; cbn [left_pending] in Hy.
  - apply keeps_counter_catch.
    + intros s2. rewrite promises_done_run.
      destruct (transaction_reply COMMIT (live (session s2))); reflexivity.
    + intros e. now apply keeps_counter_promises_failed.
  - now apply keeps_counter_promises_failed.
Qed.

Lemma keeps_counter_getBlock_save callbacks block :
  keeps_counter (getBlock_save callbacks block).
Proof.
  unfold getBlock_save. apply keeps_counter_bind.
  - apply frames_keeps_counter, frames_query.
  - intros result. destruct (no_rows result).
    + intros s. reflexivity.
    + apply keeps_counter_storeBlockAssocData.
Qed.

Lemma keeps_counter_getBlock_height_check n callbacks block :
  keeps_counter (getBlock_height_check n callbacks block).
Proof.
  unfold getBlock_height_check. apply keeps_counter_bind.
  - apply frames_keeps_counter, frames_query.
  - intros numCheckRes. apply keeps_counter_bind.
    + destruct numCheckRes as [num|]; [|apply keeps_counter_ret].
      destruct (rowCount num =? 0); [apply keeps_counter_ret|].
      apply keeps_counter_bind;
        [apply frames_keeps_counter, frames_first_row
        |intros; apply keeps_counter_ret].
    + intros [|].
      * destruct (hasOwnProperty callbacks blockAlreadyExists);
          intros s; reflexivity.
      * apply keeps_counter_bind.
        -- destruct numCheckRes;
             [apply frames_keeps_counter, frames_first_row
             |intros s; reflexivity].
        -- intros _. apply keeps_counter_bind; [apply keeps_counter_emit|].
           intros _. apply keeps_counter_storeBlockAssocData.
Qed.

Lemma keeps_counter_getBlock_reconcile n callbacks block :
  keeps_counter (getBlock_reconcile n callbacks block).
Proof.
  unfold getBlock_reconcile. apply keeps_counter_bind.
  - apply frames_keeps_counter, frames_query.
  - intros checkRes. destruct (negb (no_rows checkRes)).
    + apply keeps_counter_bind.
      * destruct checkRes;
          [apply frames_keeps_counter, frames_first_row
          |intros s; reflexivity].
      * intros r0. destruct (same_count _ _).
        -- apply keeps_counter_getBlock_height_check.
        -- apply keeps_counter_bind; [apply keeps_counter_emit|].
           intros _. apply keeps_counter_storeBlockAssocData.
    + apply keeps_counter_bind.
      * destruct (hasOwnProperty callbacks foundDuringReviewBlock);
          apply keeps_counter_emit.
      * intros _. apply keeps_counter_getBlock_save.
Qed.


End FurtherFacts.

(** ** Start and flush *)

(** X1.  [flushBlock] sends the deletes of logs, transactions, ommers and
    block row at the height, one at a time and in that order, and stops at
    the first that is rejected: what it has sent, the database it leaves
    and the way it ends are those of sending the four in turn up to the
    first rejection; it returns if none is rejected and rejects with the
    first rejection otherwise.  So what it has sent is a non-empty prefix
    of the four, and all four when it returns.  It never exits the process
    and never opens or closes a transaction. *)
Theorem flush_sends_deletes_in_order
        {DB : Type} {monitor : Monitor DB} (n : Z) (s : State DB) :
  (statements (events_of (flushBlock n s))
   = fst (fst (sent_in_turn (flush_queries blockchain_id n) (live (session s))))
   /\ state_of (flushBlock n s)
      = set_live s (snd (fst (sent_in_turn (flush_queries blockchain_id n)
                                           (live (session s)))))
   /\ outcome_of (flushBlock n s)
      = match snd (sent_in_turn (flush_queries blockchain_id n)
                                (live (session s))) with
        | Some e => Rejected e
        | None => Returned tt
        end)
  /\ exists k,
      (1 <= k <= 4)%nat
      /\ statements (events_of (flushBlock n s))
         = firstn k (flush_statements blockchain_id n)
      /\ (outcome_of (flushBlock n s) = Returned tt -> k = 4%nat)
      /\ (forall c, outcome_of (flushBlock n s) <> Exited c)
      /\ snapshot (session (state_of (flushBlock n s))) = snapshot (session s).
Proof.
  split; [apply flushBlock_in_turn|].
  destruct (flushBlock_cases n s) as (k & H1 & H2 & H3 & H4 & H5 & _).
  exists k. auto.
Qed.

(** A flush whose third delete is rejected, run: the fourth is not
    sent. *)
Example rejected_flush_run :
  flushBlock (monitor := on_rejecting_ommer_delete) 7 (start_state [] 0)
  = (Rejected "error: canceling statement due to statement timeout",
     start_state [deleteLogs 1 7; deleteTransactions 1 7; deleteOmmers 1 7] 0,
     [EvLog Info "Flushing";
      EvQuery (Sql (deleteLogs 1 7));
      EvLog Info "Logs deleted, cascading to events and related tables";
      EvQuery (Sql (deleteTransactions 1 7));
      EvLog Info "Transactions deleted";
      EvQuery (Sql (deleteOmmers 1 7))]).
Proof. vm_compute. reflexivity. Qed.

(** X2.  Once [start] knows the height to resume at, and the four deletes
    resolve, it logs the choice, flushes that height and enters the loop
    at it: either the first block request is for that height, under the
    cursor's callbacks, or the height has reached [endBlockOverride] and
    the process exits with status 0, the rows at the height deleted and
    not fetched again. *)
Theorem start_flushes_then_enters_loop
        {DB : Type} {monitor : Monitor DB} (startBlockOverride : option Z)
        (result : option LatestBlock) (n0 : Z) (msg : string) (s : State DB)
        (d1 d2 d3 d4 : DB) (r1 r2 r3 r4 : option QResult) :
  latest_number startBlockOverride result s = (Returned n0, s, [EvLog Info msg]) ->
  exec (deleteLogs blockchain_id n0) (live (session s)) = (d1, Resolves r1) ->
  exec (deleteTransactions blockchain_id n0) d1 = (d2, Resolves r2) ->
  exec (deleteOmmers blockchain_id n0) d2 = (d3, Resolves r3) ->
  exec (deleteBlock blockchain_id n0) d3 = (d4, Resolves r4) ->
  start_callback startBlockOverride result s =
  (if end_reached n0 then Exited 0 else Returned tt,
   set_live s d4,
   [EvLog Info msg;
    EvLog Info "Flushing";
    EvQuery (Sql (deleteLogs blockchain_id n0));
    EvLog Info "Logs deleted, cascading to events and related tables";
    EvQuery (Sql (deleteTransactions blockchain_id n0));
    EvLog Info "Transactions deleted";
    EvQuery (Sql (deleteOmmers blockchain_id n0));
    EvLog Info "Ommers deleted";
    EvQuery (Sql (deleteBlock blockchain_id n0));
    EvLog Info "Completed flushing";
    if end_reached n0
    then EvLog Info "Reached endBlockOverride:"
    else EvGetBlock n0 cursor_callbacks]).
Proof.
  intros Hn H1 H2 H3 H4. unfold start_callback.
  rewrite (bind_Returned _ _ _ _ _ _ Hn).
  rewrite (bind_Returned _ _ _ _ _ _
             (flushBlock_run n0 s d1 d2 d3 d4 r1 r2 r3 r4 H1 H2 H3 H4)).
  rewrite mainLoop_run. destruct (end_reached n0); reflexivity.
Qed.

Lemma start_flushes_then_enters_loop_witness :
  start_callback (monitor := Sample.on_tables) None
                 (Some (mkLatestBlock 1 [7])) (start_state Sample.stored7 0)
  = (Returned tt, start_state Tables.empty 0,
     [EvLog Info "Retrieved latest block:";
      EvLog Info "Flushing";
      EvQuery (Sql (deleteLogs 1 7));
      EvLog Info "Logs deleted, cascading to events and related tables";
      EvQuery (Sql (deleteTransactions 1 7));
      EvLog Info "Transactions deleted";
      EvQuery (Sql (deleteOmmers 1 7));
      EvLog Info "Ommers deleted";
      EvQuery (Sql (deleteBlock 1 7));
      EvLog Info "Completed flushing";
      EvGetBlock 7 cursor_callbacks]).
Proof.
  refine (start_flushes_then_enters_loop
            (monitor := Sample.on_tables) None (Some (mkLatestBlock 1 [7])) 7
            "Retrieved latest block:" (start_state Sample.stored7 0)
            Sample.stored7 Sample.emptied7 Sample.emptied7 Tables.empty
            _ _ _ _ _ _ _ _ _).
  - reflexivity.
  - by_evaluation.
  - by_evaluation.
  - by_evaluation.
  - by_evaluation.
Defined.

(** X3.  [start] asks the node for a block only after it has sent all
    four deletes of the flush, as its last act, and then for the flushed
    height, under the cursor's callbacks.  A delete that is rejected keeps
    the loop from being entered: the callback rejects with that
    rejection, having sent the deletes up to it and no block request.  So
    does a latest-block result that has rows by its count and no first
    row: the callback throws before anything is sent. *)
Theorem start_fetch_follows_flush
        {DB : Type} {monitor : Monitor DB} (startBlockOverride : option Z)
        (result : option LatestBlock) (s : State DB) :
  (forall n callbacks,
      In (EvGetBlock n callbacks)
         (events_of (start_callback startBlockOverride result s)) ->
      callbacks = cursor_callbacks
      /\ statements (events_of (start_callback startBlockOverride result s))
         = flush_statements blockchain_id n
      /\ outcome_of (start_callback startBlockOverride result s) = Returned tt
      /\ exists pre,
          events_of (start_callback startBlockOverride result s)
          = pre ++ [EvGetBlock n cursor_callbacks]
          /\ forallb (fun e => negb (is_fetch e)) pre = true)
  /\ (forall n0 msg e,
        latest_number startBlockOverride result s
          = (Returned n0, s, [EvLog Info msg]) ->
        snd (sent_in_turn (flush_queries blockchain_id n0) (live (session s)))
          = Some e ->
        outcome_of (start_callback startBlockOverride result s) = Rejected e
        /\ statements (events_of (start_callback startBlockOverride result s))
           = fst (fst (sent_in_turn (flush_queries blockchain_id n0)
                                    (live (session s))))
        /\ forallb (fun e => negb (is_fetch e))
                   (events_of (start_callback startBlockOverride result s))
           = true)
  /\ (forall res,
        startBlockOverride = None ->
        result = Some res ->
        (latest_rowCount res =? 0) = false ->
        latest_numbers res = [] ->
        start_callback startBlockOverride result s = (Rejected TypeError, s, [])).
Proof.
  split; [|split].
  - intros n callbacks. unfold start_callback.
    destruct (latest_number_cases startBlockOverride result s)
      as [(n0 & msg & Hn)|Hn].
    2:{ rewrite (bind_Rejected _ _ _ _ _ _ Hn). intros []. }
    rewrite (bind_Returned _ _ _ _ _ _ Hn).
    destruct (flushBlock_cases n0 s) as (k & Hk & Hst & Hret & _).
    pose proof (emits_flushBlock n0 s) as Hquiet.
    destruct (flushBlock n0 s) as [[[u|c|e] s1] evf] eqn:Hf;
      [rewrite (bind_Returned _ _ _ _ _ _ Hf), mainLoop_run
      |rewrite (bind_Exited _ _ _ _ _ _ Hf)
      |rewrite (bind_Rejected _ _ _ _ _ _ Hf)];
      unfold outcome_of, state_of, events_of in *; cbn [fst snd] in *.
    all: assert (Hno : ~ In (EvGetBlock n callbacks) evf)
      by (intros Hin; rewrite forallb_forall in Hquiet;
          now specialize (Hquiet _ Hin)).
    + destruct u. rewrite (Hret eq_refl) in Hst.
      unfold flush_statements in *. cbn [firstn] in Hst.
      destruct (end_reached n0); cbn [fst snd app]; intros Hin;
        (destruct Hin as [Hin|Hin]; [discriminate|]);
        apply in_app_or in Hin; (destruct Hin as [Hin|Hin]; [contradiction|]);
        (destruct Hin as [Hin|[]]); [discriminate|].
      injection Hin as <- <-. repeat split.
      * unfold statements in *. cbn [flat_map app]. rewrite flat_map_app.
        cbn [flat_map app]. rewrite app_nil_r. exact Hst.
      * exists (EvLog Info msg :: evf). split; [reflexivity|].
        cbn [forallb is_fetch negb andb]. exact Hquiet.
    + cbn [app]. intros [Hin|Hin]; [discriminate | contradiction].
    + cbn [app]. intros [Hin|Hin]; [discriminate | contradiction].
  - intros n0 msg e Hn Hrej. unfold start_callback.
    rewrite (bind_Returned _ _ _ _ _ _ Hn).
    destruct (flushBlock_in_turn n0 s) as (Hst & _ & Ho).
    rewrite Hrej in Ho.
    pose proof (emits_flushBlock n0 s) as Hquiet.
    destruct (flushBlock n0 s) as [[o s1] evf] eqn:Hf.
    unfold outcome_of, events_of in Ho, Hst, Hquiet. cbn [fst snd] in *.
    subst o. rewrite (bind_Rejected _ _ _ _ _ _ Hf).
    unfold outcome_of, events_of. cbn [fst snd app]. repeat split.
    + exact Hst.
    + exact Hquiet.
  - intros res -> -> Hcount Hrows. unfold start_callback, latest_number.
    now rewrite Hcount, Hrows.
Qed.

(** A start whose flush meets a rejected delete, run: the loop is not
    entered. *)
Example rejected_start_run :
  start_callback (monitor := on_rejecting_ommer_delete) None
                 (Some (mkLatestBlock 1 [7])) (start_state [] 0)
  = (Rejected "error: canceling statement due to statement timeout",
     start_state [deleteLogs 1 7; deleteTransactions 1 7; deleteOmmers 1 7] 0,
     [EvLog Info "Retrieved latest block:";
      EvLog Info "Flushing";
      EvQuery (Sql (deleteLogs 1 7));
      EvLog Info "Logs deleted, cascading to events and related tables";
      EvQuery (Sql (deleteTransactions 1 7));
      EvLog Info "Transactions deleted";
      EvQuery (Sql (deleteOmmers 1 7))]).
Proof. vm_compute. reflexivity. Qed.

(** ** More on the persister and the reconciler *)

(** X4.  An insert of the block row that affects no row is fatal before
    anything else is written: the session is released, three error lines
    are logged and the process exits with status 1, no BEGIN having been
    sent. *)
Theorem block_insert_without_row_is_fatal
        {DB : Type} {monitor : Monitor DB} callbacks block (s : State DB) d result :
  exec (addBlock blockchain_id (number block) (hash block) (header block))
       (live (session s)) = (d, Resolves result) ->
  no_rows result = true ->
  getBlock_save callbacks block s =
  (Exited 1, set_live s d,
   [EvQuery (Sql (addBlock blockchain_id (number block) (hash block)
                           (header block)));
    EvRelease;
    EvLog Error "No result returned for";
    EvLog Error "block";
    EvLog Error "^^ No result returned ^^"]).
Proof.
  intros Hq Hrows. unfold getBlock_save.
  rewrite (bind_Returned _ _ _ _ _ _ (query_Resolves _ _ _ _ Hq)).
  rewrite Hrows. reflexivity.
Qed.

Lemma block_insert_without_row_is_fatal_witness :
  getBlock_save (monitor := Sample.on_tables) cursor_callbacks Sample.block7
                (start_state Sample.stored7 0)
  = (Exited 1, start_state Sample.stored7 0,
     [EvQuery (Sql (addBlock 1 7 "0xB7" Sample.header0));
      EvRelease;
      EvLog Error "No result returned for";
      EvLog Error "block";
      EvLog Error "^^ No result returned ^^"]).
Proof.
  refine (block_insert_without_row_is_fatal
            (monitor := Sample.on_tables) cursor_callbacks Sample.block7
            (start_state Sample.stored7 0) Sample.stored7
            (Some (mkQResult 0 [])) _ _).
  - by_evaluation.
  - reflexivity.
Defined.


(** A COMMIT that the driver rejects, on the sample node: block 7 is
    persisted again, its task returns, COMMIT is rejected, and the handler
    rolls back, sleeps, logs and exits; the database is what it was before
    the persist, and [mainLoop] is not called. *)
Example rejected_commit_run :
  let r := storeBlockAssocData
             (monitor := answering
                           (fun st _ => match st with
                                        | COMMIT => Some "Error: Connection terminated"
                                        | _ => None
                                        end)
                           Sample.on_tables)
             cursor_callbacks Sample.block7 (start_state Sample.emptied7 0) in
  r = (Exited 1, start_state Sample.emptied7 0,
       [EvQuery BEGIN; EvQuery (Sql (deleteLogs 1 7));
        EvQuery (Sql (deleteTransactions 1 7));
        EvGetTransactionReceipt "0xt7";
        EvQuery (Sql (addTransaction "0xB7" (Sample.transfer "0xt7" 0)
                                     (Some true) None));
        EvQuery (Sql (deleteLogsByTransactionHash "0xt7"));
        EvQuery (Sql (addLog "0xt7" 7 0 "0xtoken" "0x01" ["0xtopic0"; "0xtopic1"]));
        EvSetDecodedLog 1 (Sample.event_log 7 0);
        EvQuery (Sql (addLog "0xt7" 7 1 "0xtoken" "0x01" ["0xtopic0"; "0xtopic1"]));
        EvSetDecodedLog 2 (Sample.event_log 7 1);
        EvQuery COMMIT; EvQuery ROLLBACK; EvSleep 1000;
        EvLog Error "Promises failed for retrieving all block data";
        EvLog Error "Error:"]).
Proof. vm_compute. reflexivity. Qed.

(** X6.  A transaction task that returns has sent nothing when the node
    has no receipt, and otherwise exactly: the insert of the transaction,
    and, when the receipt has logs, the delete of the logs stored under
    the transaction's hash followed by one insert per log of the receipt,
    in the receipt's order. *)
Theorem task_statements_when_returning
        {DB : Type} {monitor : Monitor DB} bh t (s : State DB) :
  outcome_of (getTransaction bh t s) = Returned tt ->
  statements (events_of (getTransaction bh t s))
  = match getTransactionReceipt (tx_hash t) with
    | ReceiptResolves (Some receipt) => task_statements bh t receipt
    | _ => []
    end.
Proof.
  unfold getTransaction, task_statements.
  destruct (getTransactionReceipt (tx_hash t)) as [e|[receipt|]];
    [discriminate| |reflexivity].
  destruct (exec (addTransaction bh t (status_or_null (rc_status receipt))
                    (string_or_null (rc_contractAddress receipt)))
                 (live (session s))) as [d [e|result]] eqn:Hq.
  - rewrite (bind_Rejected _ _ _ _ _ _ (query_Rejects _ _ _ _ Hq)).
    discriminate.
  - rewrite (bind_Returned _ _ _ _ _ _ (query_Resolves _ _ _ _ Hq)).
    destruct (no_rows result); [discriminate|].
    destruct (rc_logs receipt) as [[|l logs]|]; try reflexivity.
    destruct (exec (deleteLogsByTransactionHash (tx_hash t))
                   (live (session (set_live s d)))) as [d' [e|r]] eqn:Hq'.
    + rewrite (bind_Rejected _ _ _ _ _ _ (query_Rejects _ _ _ _ Hq')).
      discriminate.
    + rewrite (bind_Returned _ _ _ _ _ _ (query_Resolves _ _ _ _ Hq')).
      pose proof (addLogs_statements t (l :: logs)
                    (set_live (set_live s d) d')) as IH.
      set (X := addLogs t (l :: logs) (set_live (set_live s d) d')) in *.
      unfold outcome_of, state_of, events_of in *. cbn [fst snd] in *.
      intros H. cbn [app statements flat_map]. do 2 f_equal. exact (IH H).
Qed.

Lemma task_statements_when_returning_witness :
  statements (events_of (getTransaction (monitor := Sample.on_tables) "0xB5"
                           (Sample.transfer "0xt0" 0)
                           (start_state Tables.empty 0)))
  = [Sql (addTransaction "0xB5" (Sample.transfer "0xt0" 0) (Some true) None);
     Sql (deleteLogsByTransactionHash "0xt0");
     Sql (addLog "0xt0" 5 0 "0xtoken" "0x01" ["0xtopic0"; "0xtopic1"]);
     Sql (addLog "0xt0" 5 1 "0xtoken" "0x01" ["0xtopic0"; "0xtopic1"])].
Proof.
  rewrite (task_statements_when_returning
             (monitor := Sample.on_tables) "0xB5" (Sample.transfer "0xt0" 0)
             (start_state Tables.empty 0) ltac:(vm_compute; reflexivity)).
  vm_compute. reflexivity.
Defined.

(** X7.  A log insert that returns a row hands the [log_id] of that row,
    with the log, to the decoder before the next log is inserted; if the
    decoder rejects, the task rejects there and the remaining logs are not
    inserted. *)
Theorem inserted_log_goes_to_decoder
        {DB : Type} {monitor : Monitor DB} t l rest (s : State DB) d res r0 tl d' r :
  exec (addLog (tx_hash t) (log_blockNumber l) (log_logIndex l)
               (log_address l) (log_data l) (log_topics l))
       (live (session s)) = (d, Resolves (Some res)) ->
  (rowCount res =? 0) = false ->
  rows res = r0 :: tl ->
  setDecodedLog (log_id r0) l d = (d', r) ->
  addLogs t (l :: rest) s =
  match r with
  | Some e =>
      (Rejected e, set_live s d',
       [EvQuery (Sql (addLog (tx_hash t) (log_blockNumber l) (log_logIndex l)
                             (log_address l) (log_data l) (log_topics l)));
        EvSetDecodedLog (log_id r0) l])
  | None =>
      (outcome_of (addLogs t rest (set_live s d')),
       state_of (addLogs t rest (set_live s d')),
       [EvQuery (Sql (addLog (tx_hash t) (log_blockNumber l) (log_logIndex l)
                             (log_address l) (log_data l) (log_topics l)));
        EvSetDecodedLog (log_id r0) l]
       ++ events_of (addLogs t rest (set_live s d')))
  end.
Proof.
  intros Hq Hcount Hrows Hdec. cbn [addLogs].
  rewrite (bind_Returned _ _ _ _ _ _ (query_Resolves _ _ _ _ Hq)).
  rewrite Hcount. unfold first_row. rewrite Hrows, !bind_ret.
  assert (Hrun : decode_log (log_id r0) l (set_live s d) =
                 (match r with Some e => Rejected e | None => Returned tt end,
                  set_live s d', [EvSetDecodedLog (log_id r0) l]))
    by exact (decode_log_run (log_id r0) l (set_live s d) d' r Hdec).
  destruct r as [e|].
  - now rewrite (bind_Rejected _ _ _ _ _ _ Hrun).
  - now rewrite (bind_Returned _ _ _ _ _ _ Hrun).
Qed.

Lemma inserted_log_goes_to_decoder_witness :
  events_of (addLogs (monitor := Sample.on_tables) (Sample.transfer "0xt0" 0)
               [Sample.event_log 5 0] (start_state Tables.empty 0))
  = [EvQuery (Sql (addLog "0xt0" 5 0 "0xtoken" "0x01"
                          ["0xtopic0"; "0xtopic1"]));
     EvSetDecodedLog 1 (Sample.event_log 5 0)].
Proof.
  rewrite (inserted_log_goes_to_decoder
             (monitor := Sample.on_tables) (Sample.transfer "0xt0" 0)
             (Sample.event_log 5 0) [] (start_state Tables.empty 0)
             (Tables.mkTables [] [] [] [(1, "0xt0", 5, 0)] 2)
             (mkQResult 1 [mkRow None None 1]) (mkRow None None 1) []
             (Tables.mkTables [] [] [] [(1, "0xt0", 5, 0)] 2) None
             ltac:(vm_compute; reflexivity) eq_refl eq_refl eq_refl).
  reflexivity.
Defined.

(** X8.  [addOmmers] sends one insert per ommer, in order, with the
    block's hash as nibling, and sends them all without waiting for a
    reply, whatever the replies are: it always returns, there is one reply
    per ommer, and what it reports is the first rejection among the
    replies, if any. *)
Theorem ommer_inserts_are_all_sent
        {DB : Type} {monitor : Monitor DB} (nibling : Hash)
        (ommers : list Hash) (s : State DB) :
  addOmmers nibling ommers s =
  (Returned (first_rejected
               (snd (sent_at_once
                       (map (fun o => addOmmer blockchain_id o nibling) ommers)
                       (live (session s))))),
   set_live s (fst (sent_at_once
                      (map (fun o => addOmmer blockchain_id o nibling) ommers)
                      (live (session s)))),
   map (fun q => EvQuery (Sql q))
       (map (fun o => addOmmer blockchain_id o nibling) ommers))
  /\ List.length (snd (sent_at_once
                         (map (fun o => addOmmer blockchain_id o nibling) ommers)
                         (live (session s))))
     = List.length ommers.
Proof.
  split; [apply addOmmers_at_once|].
  now rewrite sent_at_once_length, length_map.
Qed.

(** Two ommers on a database that rejects their inserts, run: both
    inserts are sent, and the rejection of the first is reported. *)
Example rejected_ommers_run :
  addOmmers (monitor := on_rejecting_ommers) "0xB5" ["0xU1"; "0xU2"]
            (start_state [] 0)
  = (Returned (Some "error: insert or update on table ommer violates foreign key constraint"),
     start_state [addOmmer 1 "0xU1" "0xB5"; addOmmer 1 "0xU2" "0xB5"] 0,
     [EvQuery (Sql (addOmmer 1 "0xU1" "0xB5"));
      EvQuery (Sql (addOmmer 1 "0xU2" "0xB5"))]).
Proof. vm_compute. reflexivity. Qed.

(** X9.  The reconciler inserts a block row only for a hash it has no row
    for.  When the lookup by hash has a row, no statement it sends
    inserts or deletes a block row, whichever branch it takes; when the
    lookup has none, it logs the find (the ['foundDuringReviewBlock']
    line under the short review's bag) and the next statement is the
    insert of the block row. *)
Theorem block_row_inserted_only_for_new_hash
        {DB : Type} {monitor : Monitor DB} (n : Z) (callbacks : Callbacks)
        (block : Block) (s : State DB) (d : DB) (checkRes : option QResult) :
  exec (getBlockByHash blockchain_id (hash block)) (live (session s))
    = (d, Resolves checkRes) ->
  (no_rows checkRes = false ->
   forallb (fun st => negb (writes_block_row st))
           (statements (events_of (getBlock_reconcile n callbacks block s)))
   = true)
  /\ (no_rows checkRes = true ->
      exists tl,
        events_of (getBlock_reconcile n callbacks block s)
        = EvQuery (Sql (getBlockByHash blockchain_id (hash block)))
          :: new_block_signal callbacks
          :: EvQuery (Sql (addBlock blockchain_id (number block) (hash block)
                                    (header block)))
          :: tl).
Proof.
  intros Hq. split; intros Hrows.
  - now apply getBlock_reconcile_stored with (d := d) (checkRes := checkRes).
  - rewrite (getBlock_reconcile_new n callbacks block s d checkRes Hq Hrows).
    destruct (getBlock_save_head callbacks block (set_live s d)) as [tl Htl].
    exists tl. unfold events_of at 1. cbn [snd app]. now rewrite Htl.
Qed.

Lemma block_row_inserted_only_for_new_hash_witness :
  forallb (fun st => negb (writes_block_row st))
          (statements (events_of
             (getBlock_reconcile (monitor := Sample.on_tables) 7
                review_callbacks Sample.block7 (start_state Sample.stale7 0))))
  = true
  /\ exists tl,
      events_of (getBlock_reconcile (monitor := Sample.on_tables) 7
                   review_callbacks Sample.block7 (start_state Tables.empty 0))
      = EvQuery (Sql (getBlockByHash 1 "0xB7"))
        :: EvLog Info "* Found new previous block at number"
        :: EvQuery (Sql (addBlock 1 7 "0xB7" Sample.header0))
        :: tl.
Proof.
  split.
  - refine (proj1 (block_row_inserted_only_for_new_hash
                     (monitor := Sample.on_tables) 7 review_callbacks
                     Sample.block7 (start_state Sample.stale7 0) Sample.stale7
                     (Some (mkQResult 1 [mkRow (Some 1) None 0])) _) _).
    + by_evaluation.
    + reflexivity.
  - refine (proj2 (block_row_inserted_only_for_new_hash
                     (monitor := Sample.on_tables) 7 review_callbacks
                     Sample.block7 (start_state Tables.empty 0) Tables.empty
                     (Some (mkQResult 0 [])) _) _).
    + by_evaluation.
    + reflexivity.
Defined.

(** X10.  A delivery without error to a review fetch (the bag [{}] or
    the bag of the short review) never calls [mainLoop] and never cycles
    the node, whatever the block and whatever the database answers; an
    empty response, as for a height the chain does not have or a negative
    one, does nothing at all. *)
Theorem review_fetch_leaves_cursor_alone
        {DB : Type} {monitor : Monitor DB} (p : Z) (callbacks : Callbacks)
        (flag : bool) (block : option Block) (s : State DB) :
  callbacks <> cursor_callbacks ->
  reentries (events_of (getBlock_callback p callbacks flag None block s)) = 0%nat
  /\ cycles (events_of (getBlock_callback p callbacks flag None block s)) = 0%nat
  /\ getBlock_callback p callbacks flag None None s = (Returned flag, s, []).
Proof.
  intros H. split; [|split].
  - now apply review_fetch_without_error_is_quiet.
  - apply (delivery_vocabulary_cycles callbacks).
    apply emits_getBlock_callback.
  - destruct callbacks; [contradiction | reflexivity | reflexivity].
Qed.

Lemma review_fetch_leaves_cursor_alone_witness :
  getBlock_callback (monitor := Sample.on_tables) (-11) review_callbacks false
                    None None (start_state Tables.empty 1)
  = (Returned false, start_state Tables.empty 1, []).
Proof.
  exact (proj2 (proj2 (review_fetch_leaves_cursor_alone
                         (monitor := Sample.on_tables) (-11) review_callbacks
                         false None (start_state Tables.empty 1)
                         ltac:(discriminate)))).
Defined.

(** ** Facts on the contract identifier *)

Module ContractIdentifierFacts.

Import ContractIdentifier.

Lemma toLowerCase_app (a b : string) :
  toLowerCase (a ++ b) = (toLowerCase a ++ toLowerCase b)%string.
Proof. induction a as [|c a IH]; simpl; [reflexivity | now rewrite IH]. Qed.

Lemma lower_upper_ascii (c : ascii) : lower_ascii (upper_ascii c) = lower_ascii c.
Proof. destruct c as [[] [] [] [] [] [] [] []]; vm_compute; reflexivity. Qed.

Lemma toLowerCase_toUpperCase (s : string) :
  toLowerCase (toUpperCase s) = toLowerCase s.
Proof.
  induction s as [|c s IH]; simpl; [reflexivity|].
  now rewrite lower_upper_ascii, IH.
Qed.

Lemma append_assoc (a b c : string) :
  ((a ++ b) ++ c = a ++ (b ++ c))%string.
Proof. induction a as [|x a IH]; simpl; [reflexivity | now rewrite IH]. Qed.

Lemma contains_around (a b s pat : string) :
  contains s pat -> contains (a ++ s ++ b) pat.
Proof.
  intros (x & y & ->). exists (a ++ x)%string, (y ++ b)%string.
  now rewrite !append_assoc.
Qed.

Lemma filter_all {A} (l : list A) : filter (fun _ => true) l = l.
Proof. induction l as [|x l IH]; simpl; [reflexivity | now rewrite IH]. Qed.

Lemma filter_twice {A} (f g : A -> bool) (l : list A) :
  filter g (filter f l) = filter (fun x => f x && g x) l.
Proof.
  induction l as [|x l IH]; simpl; [reflexivity|].
  destruct (f x); simpl; [destruct (g x); now rewrite IH | exact IH].
Qed.

Lemma listed_In c l : listed c l = true <-> In c l.
Proof.
  unfold listed. rewrite existsb_exists. split.
  - intros (x & Hx & He). apply String.eqb_eq in He. now subst.
  - intros H. exists c. split; [exact H | apply String.eqb_refl].
Qed.

Lemma filter_absent c l :
  ~ In c l -> filter (fun m => negb (String.eqb m c)) l = l.
Proof.
  induction l as [|x l IH]; intros H; [reflexivity|]. simpl.
  destruct (String.eqb x c) eqn:E.
  - apply String.eqb_eq in E. subst x. exfalso. apply H. now left.
  - simpl. f_equal. apply IH. intros Hin. apply H. now right.
Qed.

(** On a list without repetition, splicing a type out filters it out. *)
Lemma splice_out_filter c l :
  NoDup l -> splice_out c l = filter (fun m => negb (String.eqb m c)) l.
Proof.
  induction l as [|m l IH]; intros Hnd; [reflexivity|].
  inversion Hnd as [|? ? Hnotin Hnd']; subst. simpl.
  destruct (String.eqb m c) eqn:E; simpl.
  - apply String.eqb_eq in E. subst m. symmetry. now apply filter_absent.
  - f_equal. now apply IH.
Qed.

Section Analysis.

Context {identifier : Identifier}.

Lemma signature_missing_fst verbose kind encode input contractType name entries :
  fst (signature_missing verbose kind encode input contractType name entries)
  = existsb (lacking kind encode input name) entries.
Proof.
  induction entries as [|e rest IH]; [reflexivity|].
  cbn [signature_missing existsb]. unfold lacking at 1.
  destruct (String.eqb (abi_type e) kind); cbn [negb andb orb]; [|exact IH].
  destruct (String.eqb (abi_name e) name); cbn [negb andb orb]; [|exact IH].
  destruct (indexOf input (signature encode e) =? -1); cbn [negb orb];
    [reflexivity|].
  destruct (signature_missing verbose kind encode input contractType name rest).
  exact IH.
Qed.

Lemma signature_missing_silent kind encode input contractType name entries :
  snd (signature_missing false kind encode input contractType name entries) = [].
Proof.
  induction entries as [|e rest IH]; [reflexivity|].
  cbn [signature_missing].
  destruct (String.eqb (abi_type e) kind); cbn [negb]; [|exact IH].
  destruct (String.eqb (abi_name e) name); cbn [negb]; [|exact IH].
  destruct (indexOf input (signature encode e) =? -1); cbn [negb];
    [reflexivity|].
  destruct (signature_missing false kind encode input contractType name rest).
  exact IH.
Qed.

Lemma requirement_missing_fst verbose kind encode input contractType entries
      names :
  fst (requirement_missing verbose kind encode input contractType entries names)
  = existsb (fun name => existsb (lacking kind encode input name) entries) names.
Proof.
  induction names as [|name rest IH]; [reflexivity|].
  cbn [requirement_missing existsb].
  rewrite <- (signature_missing_fst verbose kind encode input contractType
                name entries).
  destruct (signature_missing verbose kind encode input contractType name
              entries) as [[|] lines]; cbn [fst orb]; [reflexivity|].
  destruct (requirement_missing verbose kind encode input contractType entries
              rest).
  exact IH.
Qed.

Lemma requirement_missing_silent kind encode input contractType entries names :
  snd (requirement_missing false kind encode input contractType entries names)
  = [].
Proof.
  induction names as [|name rest IH]; [reflexivity|].
  cbn [requirement_missing].
  pose proof (signature_missing_silent kind encode input contractType name
                entries) as Hs.
  destruct (signature_missing false kind encode input contractType name
              entries) as [[|] lines]; cbn [snd] in Hs; subst lines;
    [reflexivity|].
  destruct (requirement_missing false kind encode input contractType entries
              rest).
  exact IH.
Qed.

(** No required name is missing exactly when every entry of the kind that
    bears a required name has its signature in the input. *)
Lemma requirement_met verbose kind encode input contractType entries names :
  fst (requirement_missing verbose kind encode input contractType entries names)
  = false
  <-> forall name e,
      In name names -> In e entries ->
      abi_type e = kind -> abi_name e = name ->
      contains input (signature encode e).
Proof.
  rewrite requirement_missing_fst. split.
  - intros H name e Hname He Hkind Hnm.
    apply JsStringFacts.indexOf_contains.
    destruct (indexOf input (signature encode e) =? -1) eqn:E; [|reflexivity].
    exfalso.
    assert (X : existsb (fun name => existsb (lacking kind encode input name)
                                             entries) names = true).
    { apply existsb_exists. exists name. split; [exact Hname|].
      apply existsb_exists. exists e. split; [exact He|].
      unfold lacking. rewrite E.
      apply String.eqb_eq in Hkind, Hnm. now rewrite Hkind, Hnm. }
    congruence.
  - intros H.
    destruct (existsb _ names) eqn:E; [|reflexivity]. exfalso.
    apply existsb_exists in E. destruct E as (name & Hname & E).
    apply existsb_exists in E. destruct E as (e & He & E).
    unfold lacking in E. apply andb_prop in E. destruct E as [E Hidx].
    apply andb_prop in E. destruct E as [Hkind Hnm].
    apply String.eqb_eq in Hkind, Hnm.
    specialize (H name e Hname He Hkind Hnm).
    apply JsStringFacts.indexOf_contains in H.
    rewrite Hidx in H. discriminate.
Qed.

Lemma prune_silent kind encode input required :
  forall matches, snd (prune false kind encode input required matches) = [].
Proof.
  induction required as [|[contractType names] rest IH]; intros matches;
    [reflexivity|].
  cbn [prune].
  destruct (listed contractType matches); cbn [negb]; [|apply IH].
  destruct names as [|name names]; [apply IH|].
  destruct (property contractType (abis abiCfg)) as [entries|]; [|reflexivity].
  pose proof (requirement_missing_silent kind encode input contractType entries
                (name :: names)) as Hs.
  destruct (requirement_missing false kind encode input contractType entries
              (name :: names)) as [missing lines].
  cbn [snd] in Hs. subst lines.
  match goal with |- context [prune false kind encode input rest ?m] =>
    pose proof (IH m) as Hr;
    destruct (prune false kind encode input rest m) as [result lines']
  end.
  cbn [snd] in *. now subst lines'.
Qed.

Lemma prune_verbose verbose kind encode input required :
  forall matches,
    fst (prune verbose kind encode input required matches)
    = fst (prune false kind encode input required matches).
Proof.
  induction required as [|[contractType names] rest IH]; intros matches;
    [reflexivity|].
  cbn [prune].
  destruct (listed contractType matches); cbn [negb]; [|apply IH].
  destruct names as [|name names]; [apply IH|].
  destruct (property contractType (abis abiCfg)) as [entries|]; [|reflexivity].
  pose proof (requirement_missing_fst verbose kind encode input contractType
                entries (name :: names)) as H1.
  pose proof (requirement_missing_fst false kind encode input contractType
                entries (name :: names)) as H2.
  destruct (requirement_missing verbose kind encode input contractType entries
              (name :: names)) as [missing lines].
  destruct (requirement_missing false kind encode input contractType entries
              (name :: names)) as [missing0 lines0].
  cbn [fst] in H1, H2. rewrite <- H2 in H1. subst missing0.
  match goal with |- context [prune verbose kind encode input rest ?m] =>
    pose proof (IH m) as Hr;
    destruct (prune verbose kind encode input rest m) as [result lines'];
    destruct (prune false kind encode input rest m) as [result0 lines0']
  end.
  exact Hr.
Qed.

Lemma prune_cons verbose kind encode input contractType names rest matches :
  fst (prune verbose kind encode input ((contractType, names) :: rest) matches)
  = if negb (listed contractType matches)
    then fst (prune verbose kind encode input rest matches)
    else match names with
         | [] => fst (prune verbose kind encode input rest matches)
         | _ :: _ =>
             match property contractType (abis abiCfg) with
             | None => None
             | Some entries =>
                 fst (prune verbose kind encode input rest
                        (if fst (requirement_missing verbose kind encode input
                                   contractType entries names)
                         then splice_out contractType matches
                         else matches))
             end
         end.
Proof.
  cbn [prune].
  destruct (negb (listed contractType matches)); [reflexivity|].
  destruct names as [|name names]; [reflexivity|].
  destruct (property contractType (abis abiCfg)) as [entries|]; [|reflexivity].
  destruct (requirement_missing verbose kind encode input contractType entries
              (name :: names)) as [missing lines].
  cbn [fst].
  now destruct (prune verbose kind encode input rest
                  (if missing then splice_out contractType matches else matches)).
Qed.

Lemma satisfied_tail kind encode input contractType names rest c :
  satisfied kind encode input ((contractType, names) :: rest) c ->
  satisfied kind encode input rest c.
Proof.
  intros H ns es nm e Hin. apply (H ns es nm e). now right.
Qed.

Lemma satisfied_other kind encode input contractType names rest c :
  c <> contractType ->
  satisfied kind encode input rest c ->
  satisfied kind encode input ((contractType, names) :: rest) c.
Proof.
  intros Hne H ns es nm e [Heq|Hin]; [|now apply (H ns es nm e)].
  injection Heq as -> _. congruence.
Qed.

(** One loop of the analysis, on a list of types without repetition: it
    keeps, in their order, the types whose requirements the input meets. *)
Lemma prune_filter verbose kind encode input required :
  forall matches,
    NoDup matches ->
    has_abis required ->
    exists keep,
      fst (prune verbose kind encode input required matches)
      = Some (filter keep matches)
      /\ forall c, In c matches ->
                   (keep c = true <-> satisfied kind encode input required c).
Proof.
  induction required as [|[contractType names] rest IH];
    intros matches Hnd Habis.
  - exists (fun _ => true). split; [cbn; now rewrite filter_all|].
    intros c _. split; [|reflexivity]. intros _ ns es nm e [].
  - assert (Habis' : has_abis rest)
      by (intros c ns Hin; apply (Habis c ns); now right).
    rewrite prune_cons.
    destruct (listed contractType matches) eqn:Hl; cbn [negb].
    + destruct names as [|name names].
      * destruct (IH matches Hnd Habis') as (keep & Hk & Hsat).
        exists keep. split; [exact Hk|]. intros c Hc. rewrite (Hsat c Hc).
        split; [|apply satisfied_tail].
        intros H ns es nm e [Heq|Hin]; [|now apply (H ns es nm e)].
        injection Heq as _ <-. intros _ [].
      * destruct (property contractType (abis abiCfg)) as [entries|] eqn:Hp.
        2:{ exfalso. apply (Habis contractType (name :: names));
              [now left | discriminate | exact Hp]. }
        pose proof (requirement_met verbose kind encode input contractType
                      entries (name :: names)) as Hmet.
        destruct (fst (requirement_missing verbose kind encode input
                         contractType entries (name :: names))).
        -- rewrite (splice_out_filter contractType matches Hnd).
           destruct (IH (filter (fun m => negb (String.eqb m contractType))
                                matches)
                        (NoDup_filter _ Hnd) Habis') as (keep & Hk & Hsat).
           exists (fun c => negb (String.eqb c contractType) && keep c).
           split; [now rewrite Hk, filter_twice|].
           intros c Hc.
           rewrite andb_true_iff, negb_true_iff, String.eqb_neq. split.
           ++ intros [Hne Hkeep]. apply satisfied_other; [exact Hne|].
              apply Hsat; [|exact Hkeep]. apply filter_In. split; [exact Hc|].
              now rewrite negb_true_iff, String.eqb_neq.
           ++ intros Hs.
              assert (Hne : c <> contractType).
              { intros ->.
                assert (X : true = false); [|discriminate X].
                apply Hmet. intros nm e Hnm He Hkind Hname.
                apply (Hs (name :: names) entries nm e);
                  [now left | exact Hp | exact Hnm | exact He | exact Hkind
                  | exact Hname]. }
              split; [exact Hne|]. apply Hsat.
              ** apply filter_In. split; [exact Hc|].
                 now rewrite negb_true_iff, String.eqb_neq.
              ** now apply satisfied_tail in Hs.
        -- destruct (IH matches Hnd Habis') as (keep & Hk & Hsat).
           exists keep. split; [exact Hk|]. intros c Hc. rewrite (Hsat c Hc).
           split; [|apply satisfied_tail].
           intros H ns es nm e [Heq|Hin]; [|now apply (H ns es nm e)].
           injection Heq as <- <-. intros Hp' Hnm He Hkind Hname.
           rewrite Hp in Hp'. injection Hp' as <-.
           now apply (proj1 Hmet eq_refl nm e).
    + destruct (IH matches Hnd Habis') as (keep & Hk & Hsat).
      exists keep. split; [exact Hk|]. intros c Hc. rewrite (Hsat c Hc).
      split; [|apply satisfied_tail].
      apply satisfied_other. intros ->.
      apply listed_In in Hc. congruence.
Qed.


(** The whole analysis, on a list of types without repetition. *)
Lemma analysis_filter input verbose :
  NoDup (contracts abiCfg) ->
  has_abis (functions abiCfg) ->
  has_abis (events abiCfg) ->
  exists keep,
    fst (determineStandardByCode input verbose)
    = Some (filter keep (contracts abiCfg))
    /\ forall c,
        In c (contracts abiCfg) ->
        (keep c = true <->
         satisfied "function" encodeFunctionSignature (toLowerCase input)
                   (functions abiCfg) c
         /\ satisfied "event" encodeEventSignature (toLowerCase input)
                      (events abiCfg) c).
Proof.
  intros Hnd Hf He. unfold determineStandardByCode.
  destruct (prune_filter verbose "function" encodeFunctionSignature
              (toLowerCase input) (functions abiCfg) (contracts abiCfg) Hnd Hf)
    as (k1 & H1 & Hs1).
  destruct (prune verbose "function" encodeFunctionSignature
              (toLowerCase input) (functions abiCfg) (contracts abiCfg))
    as [by_function lines].
  cbn [fst] in H1. subst by_function.
  destruct (prune_filter verbose "event" encodeEventSignature
              (toLowerCase input) (events abiCfg)
              (filter k1 (contracts abiCfg)) (NoDup_filter _ Hnd) He)
    as (k2 & H2 & Hs2).
  destruct (prune verbose "event" encodeEventSignature (toLowerCase input)
              (events abiCfg) (filter k1 (contracts abiCfg)))
    as [by_event lines'].
  cbn [fst] in *. subst by_event.
  exists (fun c => k1 c && k2 c). split; [now rewrite filter_twice|].
  intros c Hc. rewrite andb_true_iff, (Hs1 c Hc). split.
  - intros [Hk1 Hk2]. split; [exact Hk1|]. apply Hs2; [|exact Hk2].
    apply filter_In. split; [exact Hc | now apply Hs1].
  - intros [Hk1 Hk2]. split; [exact Hk1|]. apply Hs2; [|exact Hk2].
    apply filter_In. split; [exact Hc | now apply Hs1].
Qed.


End Analysis.


End ContractIdentifierFacts.

(** ** The analysis of contract code *)

(** X11.  When [abiCfg.contracts] lists no type twice and every type with
    a required name has an ABI, [determineStandardByCode] answers the
    listed types, in their order, that meet the requirements: a type is
    kept exactly when, for each required function and event name, every
    entry of that kind and name in the type's ABI has its signature,
    without "0x" and in lower case, in the lower-cased code.  A required
    name that the ABI does not define asks nothing. *)
Theorem code_analysis_keeps_the_satisfied_types
        {identifier : ContractIdentifier.Identifier} (input : string)
        (verbose : bool) :
  NoDup (ContractIdentifier.contracts ContractIdentifier.abiCfg) ->
  ContractIdentifier.has_abis
    (ContractIdentifier.functions ContractIdentifier.abiCfg) ->
  ContractIdentifier.has_abis
    (ContractIdentifier.events ContractIdentifier.abiCfg) ->
  exists keep,
    fst (ContractIdentifier.determineStandardByCode input verbose)
    = Some (filter keep (ContractIdentifier.contracts ContractIdentifier.abiCfg))
    /\ forall c,
        In c (ContractIdentifier.contracts ContractIdentifier.abiCfg) ->
        (keep c = true <->
         ContractIdentifier.satisfied
           "function" ContractIdentifier.encodeFunctionSignature
           (ContractIdentifier.toLowerCase input)
           (ContractIdentifier.functions ContractIdentifier.abiCfg) c
         /\ ContractIdentifier.satisfied
              "event" ContractIdentifier.encodeEventSignature
              (ContractIdentifier.toLowerCase input)
              (ContractIdentifier.events ContractIdentifier.abiCfg) c).
Proof.
  intros Hnd Hf He.
  destruct (ContractIdentifierFacts.analysis_filter input verbose Hnd Hf He)
    as (keep & Hk & Hs).
  exists keep. split; [exact Hk | exact Hs].
Qed.

Lemma code_analysis_keeps_the_satisfied_types_witness :
  fst (ContractIdentifier.determineStandardByCode
         (identifier := IdentifierSample.identifier)
         IdentifierSample.token_code false)
  = Some ["erc20"].
Proof.
  destruct (code_analysis_keeps_the_satisfied_types
              (identifier := IdentifierSample.identifier)
              IdentifierSample.token_code false)
    as (keep & Hk & _).
  - repeat constructor; simpl; intuition discriminate.
  - intros c ns Hin _.
    destruct Hin as [H|[H|[]]]; injection H as <- _; discriminate.
  - intros c ns Hin _.
    destruct Hin as [H|[H|[]]]; injection H as <- _; discriminate.
  - vm_compute. reflexivity.
Defined.

(** X12.  The answer of [determineStandardByCode] does not depend on
    [verbose], which only adds debug lines; without it nothing is
    logged. *)
Theorem verbose_only_adds_debug_lines
        {identifier : ContractIdentifier.Identifier} (input : string)
        (verbose : bool) :
  fst (ContractIdentifier.determineStandardByCode input verbose)
  = fst (ContractIdentifier.determineStandardByCode input false)
  /\ snd (ContractIdentifier.determineStandardByCode input false) = [].
Proof.
  unfold ContractIdentifier.determineStandardByCode.
  set (lower := ContractIdentifier.toLowerCase input).
  pose proof (ContractIdentifierFacts.prune_verbose
                verbose "function" ContractIdentifier.encodeFunctionSignature
                lower (ContractIdentifier.functions ContractIdentifier.abiCfg)
                (ContractIdentifier.contracts ContractIdentifier.abiCfg)) as H1.
  pose proof (ContractIdentifierFacts.prune_silent
                "function" ContractIdentifier.encodeFunctionSignature
                lower (ContractIdentifier.functions ContractIdentifier.abiCfg)
                (ContractIdentifier.contracts ContractIdentifier.abiCfg)) as S1.
  destruct (ContractIdentifier.prune verbose "function" _ lower _ _)
    as [by_function lines].
  destruct (ContractIdentifier.prune false "function" _ lower _ _)
    as [by_function0 lines0].
  cbn [fst snd] in H1, S1. subst by_function0 lines0.
  destruct by_function as [matches|]; [|now split].
  pose proof (ContractIdentifierFacts.prune_verbose
                verbose "event" ContractIdentifier.encodeEventSignature
                lower (ContractIdentifier.events ContractIdentifier.abiCfg)
                matches) as H2.
  pose proof (ContractIdentifierFacts.prune_silent
                "event" ContractIdentifier.encodeEventSignature
                lower (ContractIdentifier.events ContractIdentifier.abiCfg)
                matches) as S2.
  destruct (ContractIdentifier.prune verbose "event" _ lower _ matches)
    as [by_event lines'].
  destruct (ContractIdentifier.prune false "event" _ lower _ matches)
    as [by_event0 lines0'].
  cbn [fst snd] in *. now subst.
Qed.

(** X13.  The analysis ignores the letter case of the code: the code in
    upper case gets the answer, and the debug lines, of the code as it
    is. *)
Theorem code_analysis_ignores_letter_case
        {identifier : ContractIdentifier.Identifier} (input : string)
        (verbose : bool) :
  ContractIdentifier.determineStandardByCode (toUpperCase input) verbose
  = ContractIdentifier.determineStandardByCode input verbose.
Proof.
  unfold ContractIdentifier.determineStandardByCode.
  now rewrite ContractIdentifierFacts.toLowerCase_toUpperCase.
Qed.

(** X14.  Code around the code loses no match: under the conditions of
    X11, every type the analysis keeps for a code it also keeps for any
    code that contains it. *)
Theorem code_analysis_is_monotone
        {identifier : ContractIdentifier.Identifier} (before input after : string)
        (verbose : bool) :
  NoDup (ContractIdentifier.contracts ContractIdentifier.abiCfg) ->
  ContractIdentifier.has_abis
    (ContractIdentifier.functions ContractIdentifier.abiCfg) ->
  ContractIdentifier.has_abis
    (ContractIdentifier.events ContractIdentifier.abiCfg) ->
  exists kept kept',
    fst (ContractIdentifier.determineStandardByCode input verbose) = Some kept
    /\ fst (ContractIdentifier.determineStandardByCode
              (before ++ input ++ after) verbose) = Some kept'
    /\ incl kept kept'.
Proof.
  intros Hnd Hf He.
  destruct (ContractIdentifierFacts.analysis_filter input verbose Hnd Hf He)
    as (keep & Hk & Hs).
  destruct (ContractIdentifierFacts.analysis_filter
              (before ++ input ++ after) verbose Hnd Hf He)
    as (keep' & Hk' & Hs').
  exists (filter keep (ContractIdentifier.contracts ContractIdentifier.abiCfg)),
    (filter keep' (ContractIdentifier.contracts ContractIdentifier.abiCfg)).
  split; [exact Hk|]. split; [exact Hk'|].
  intros c Hc. apply filter_In in Hc. destruct Hc as [Hc Hkeep].
  apply filter_In. split; [exact Hc|].
  apply (Hs' c Hc). apply (Hs c Hc) in Hkeep. destruct Hkeep as [H1 H2].
  rewrite !ContractIdentifierFacts.toLowerCase_app.
  split; intros ns es nm e Hin Hp Hnm Hin' Hkind Hname;
    apply ContractIdentifierFacts.contains_around;
    [apply (H1 ns es nm e) | apply (H2 ns es nm e)]; assumption.
Qed.

Lemma code_analysis_is_monotone_witness :
  exists kept kept',
    fst (ContractIdentifier.determineStandardByCode
           (identifier := IdentifierSample.identifier)
           "a9059cbbddf252ad1be2c89b69c2b068fc378daa952ba7f163c4a11628f55a4df523b3ef"
           false) = Some kept
    /\ fst (ContractIdentifier.determineStandardByCode
              (identifier := IdentifierSample.identifier)
              ("0x6080" ++
               "a9059cbbddf252ad1be2c89b69c2b068fc378daa952ba7f163c4a11628f55a4df523b3ef"
               ++ "00")
              false) = Some kept'
    /\ incl kept kept'.
Proof.
  apply (code_analysis_is_monotone (identifier := IdentifierSample.identifier)).
  - repeat constructor; simpl; intuition discriminate.
  - intros c ns Hin _.
    destruct Hin as [H|[H|[]]]; injection H as <- _; discriminate.
  - intros c ns Hin _.
    destruct Hin as [H|[H|[]]]; injection H as <- _; discriminate.
Defined.

(** ** The identification of a contract *)

(** X15.  Whatever the contract-code query answers, a null result
    included, the callback of [determineStandard] releases the session
    first and once, and calls the caller's callback at most once, as its
    last act. *)
Theorem identification_releases_once
        {identifier : ContractIdentifier.Identifier} (address : string)
        (result : option ContractIdentifier.CodeResult) :
  exists rest,
    fst (ContractIdentifier.determineStandard_callback address result)
    = ContractIdentifier.IdRelease :: rest
    /\ ~ In ContractIdentifier.IdRelease rest
    /\ (rest = []
        \/ (exists msg, rest = [ContractIdentifier.IdError msg])
        \/ (exists found, rest = [ContractIdentifier.IdCallback found])).
Proof.
  unfold ContractIdentifier.determineStandard_callback.
  destruct result as [res|]; [|exists []; cbn; intuition].
  destruct (ContractIdentifier.code_rowCount res =? 0).
  { eexists. cbn. split; [reflexivity|]. split; [|right; left; eauto].
    intros [H|[]]. discriminate. }
  destruct (ContractIdentifier.code_inputs res) as [|[buffer|] tl].
  - exists []. cbn. intuition.
  - destruct (fst (ContractIdentifier.determineStandardByCode _ false))
      as [[|c1 [|c2 more]]|].
    all: eexists; cbn; (split; [reflexivity|]); split;
      try (intros [H|[]]; discriminate); try (intros []); eauto.
  - eexists. cbn. split; [reflexivity|]. split; [|right; left; eauto].
    intros [H|[]]. discriminate.
Qed.

(** X16.  When the callback of [determineStandard] calls the caller's
    callback, the query had a first row with code, the analysis of that
    code answered at most one type, and the object handed over holds the
    address asked for, that answer as [code_results], [false] as
    [call_results], and as [standard] the one type of the answer, null
    when there is none; the callback of [determineStandard] then returns
    nothing.  An ambiguous answer never reaches the caller. *)
Theorem identification_reports_the_single_match
        {identifier : ContractIdentifier.Identifier} (address : string)
        (result : option ContractIdentifier.CodeResult)
        (found : ContractIdentifier.Identified) :
  In (ContractIdentifier.IdCallback found)
     (fst (ContractIdentifier.determineStandard_callback address result)) ->
  snd (ContractIdentifier.determineStandard_callback address result)
  = ContractIdentifier.ReturnsUndefined
  /\ ContractIdentifier.id_address found = address
  /\ ContractIdentifier.id_call_results found = false
  /\ (List.length (ContractIdentifier.id_code_results found) <= 1)%nat
  /\ ContractIdentifier.id_standard found
     = hd_error (ContractIdentifier.id_code_results found)
  /\ exists res buffer tl,
      result = Some res
      /\ ContractIdentifier.code_inputs res = Some buffer :: tl
      /\ fst (ContractIdentifier.determineStandardByCode
                (ContractIdentifier.byteaBufferToHex buffer) false)
         = Some (ContractIdentifier.id_code_results found).
Proof.
  unfold ContractIdentifier.determineStandard_callback.
  destruct result as [res|]; [|intros [H|[]]; discriminate].
  destruct (ContractIdentifier.code_rowCount res =? 0);
    [intros [H|[H|[]]]; discriminate|].
  destruct (ContractIdentifier.code_inputs res) as [|[buffer|] tl] eqn:Hrows;
    [intros [H|[]]; discriminate| |intros [H|[H|[]]]; discriminate].
  destruct (fst (ContractIdentifier.determineStandardByCode
                   (ContractIdentifier.byteaBufferToHex buffer) false))
    as [[|c1 [|c2 more]]|] eqn:Hcode; cbn [fst snd].
  - intros [H|[H|[]]]; [discriminate|]. injection H as <-. cbn.
    repeat split; auto. exists res, buffer, tl. auto.
  - intros [H|[H|[]]]; [discriminate|]. injection H as <-. cbn.
    repeat split; auto. exists res, buffer, tl. auto.
  - intros [H|[H|[]]]; discriminate.
  - intros [H|[]]; discriminate.
Qed.

Lemma identification_reports_the_single_match_witness :
  ContractIdentifier.determineStandard_callback
    (identifier := IdentifierSample.identifier) "0xtoken"
    (Some (ContractIdentifier.mkCodeResult 1 [Some IdentifierSample.token_code]))
  = ([ContractIdentifier.IdRelease;
      ContractIdentifier.IdCallback
        (ContractIdentifier.mkIdentified "0xtoken" ["erc20"] false
                                         (Some "erc20"))],
     ContractIdentifier.ReturnsUndefined).
Proof.
  pose proof (identification_reports_the_single_match
                (identifier := IdentifierSample.identifier) "0xtoken"
                (Some (ContractIdentifier.mkCodeResult
                         1 [Some IdentifierSample.token_code]))
                (ContractIdentifier.mkIdentified "0xtoken" ["erc20"] false
                                                 (Some "erc20"))) as H.
  assert (Hin : In (ContractIdentifier.IdCallback
                      (ContractIdentifier.mkIdentified "0xtoken" ["erc20"]
                                                       false (Some "erc20")))
                   (fst (ContractIdentifier.determineStandard_callback
                           (identifier := IdentifierSample.identifier)
                           "0xtoken"
                           (Some (ContractIdentifier.mkCodeResult
                                    1 [Some IdentifierSample.token_code])))))
    by (vm_compute; auto).
  destruct (H Hin) as (Hret & _).
  vm_compute. reflexivity.
Defined.

(** ** The cursor loop, one delivery at a time *)


(** X18.  The review counter moves only on an empty, error-free delivery
    to a fetch of the cursor, and then by one: every other delivery, with
    a block, with an error, or to a review fetch, leaves it as it is,
    whatever the database answers. *)
Theorem review_counter_moves_only_at_head
        {DB : Type} {monitor : Monitor DB} (n : Z) (callbacks : Callbacks)
        (flag : bool) (err : option string) (block : option Block)
        (s : State DB) :
  comprehensiveReviewCounter
    (state_of (getBlock_callback n callbacks flag err block s))
  = match callbacks, err, block with
    | cursor_callbacks, None, None => comprehensiveReviewCounter s + 1
    | _, _, _ => comprehensiveReviewCounter s
    end.
Proof.
  assert (Hblock : forall b,
             comprehensiveReviewCounter
               (state_of (getBlock_callback n callbacks flag None (Some b) s))
             = comprehensiveReviewCounter s).
  { intros b. unfold getBlock_callback.
    apply (keeps_counter_bind (getBlock_reconcile n callbacks b)
                              (fun _ => ret flag)).
    - apply keeps_counter_getBlock_reconcile.
    - intros _. apply keeps_counter_ret. }
  destruct err as [e|].
  - assert (H : comprehensiveReviewCounter
                  (state_of (getBlock_callback n callbacks flag (Some e) block s))
                = comprehensiveReviewCounter s).
    { unfold getBlock_callback.
      destruct (isTransient e); [destruct flag|]; reflexivity. }
    rewrite H. destruct callbacks; reflexivity.
  - destruct block as [b|].
    + rewrite Hblock. destruct callbacks; reflexivity.
    + unfold getBlock_callback.
      destruct callbacks; cbn [hasOwnProperty]; try reflexivity.
      unfold bind. rewrite atBlockchainHead_handler_run. reflexivity.
Qed.
